(** * The effect section of the Sequencer: from builder state to effect data

    A shallow embedding of [scripts/sections/effect.js].  The class
    [EffectSection] collects the builder calls in private fields and
    [_sanitizeData] turns them, once per repetition, into the data object
    handed to the renderer.

    Conventions of the embedding.
    - A JavaScript number that the caller supplies (coordinates, trim points,
      grid sizes, scale arguments) is a rational [Q]; arithmetic on such
      numbers is exact, so rounding of doubles is not represented.  A number
      that comes out of a division or out of [Number(...)] is a [num]: a
      rational, an infinity or NaN, with the special values handled as
      JavaScript handles them.  The sign of zero is not represented; a zero
      divisor is taken to be [+0].
    - Strings are [string]s of bytes; [toLowerCase] and the white space of
      [Number] are the ASCII ones.
    - [await] is sequencing; a thrown exception is the outcome [Throw].
    - What the page provides ([canvas.grid.size], [Ray], [Math.random],
      [Handlebars], the video probe) is gathered in a record [Host]. *)

From Stdlib Require Import QArith Qminmax Qround Lqa ZArith Ascii String.
From stdpp Require Import base option strings gmap.

Local Open Scope Q_scope.

(** ** Numbers *)

Inductive num : Type :=
| Fin (q : Q)
| Inf (neg : bool)
| NaN.

Definition Qltb (a b : Q) : bool := negb (Qle_bool b a).

Definition nneg (a : num) : num :=
  match a with
  | Fin q => Fin (- q)
  | Inf s => Inf (negb s)
  | NaN => NaN
  end.

Definition nadd (a b : num) : num :=
  match a, b with
  | NaN, _ | _, NaN => NaN
  | Inf s, Inf t => if Bool.eqb s t then Inf s else NaN
  | Inf s, Fin _ | Fin _, Inf s => Inf s
  | Fin p, Fin q => Fin (p + q)
  end.

Definition nsub (a b : num) : num := nadd a (nneg b).

Definition nmul (a b : num) : num :=
  match a, b with
  | NaN, _ | _, NaN => NaN
  | Inf s, Inf t => Inf (xorb s t)
  | Inf s, Fin q | Fin q, Inf s =>
      if Qeq_bool q 0 then NaN else Inf (xorb s (Qltb q 0))
  | Fin p, Fin q => Fin (p * q)
  end.

Definition ndiv (a b : num) : num :=
  match a, b with
  | NaN, _ | _, NaN => NaN
  | Inf _, Inf _ => NaN
  | Inf s, Fin q => Inf (xorb s (Qltb q 0))
  | Fin _, Inf _ => Fin 0
  | Fin p, Fin q =>
      if Qeq_bool q 0
      then (if Qeq_bool p 0 then NaN else Inf (Qltb p 0))
      else Fin (p / q)
  end.

(** [Math.max] of two arguments. *)
Definition Math_max (a b : num) : num :=
  match a, b with
  | NaN, _ | _, NaN => NaN
  | Inf false, _ | _, Inf false => Inf false
  | Inf true, c | c, Inf true => c
  | Fin p, Fin q => Fin (Qmax p q)
  end.

(** [isNaN] on a value that is already a number. *)
Definition num_isNaN (a : num) : bool :=
  match a with NaN => true | _ => false end.

(** Numeric equality of two [num]s that are not NaN. *)
Definition num_eq (a b : num) : Prop :=
  match a, b with
  | Fin p, Fin q => p == q
  | Inf s, Inf t => s = t
  | _, _ => False
  end.

(** [Math.PI], the double nearest to pi, as the rational it is. *)
Definition Math_PI : Q := 884279719003555 # 281474976710656.

(** ** Pairs of coordinates *)

Record vec (A : Type) : Type := Vec { X : A; Y : A }.
Arguments Vec {A} _ _.
Arguments X {A} _.
Arguments Y {A} _.

Definition vec_eq (a b : vec num) : Prop :=
  num_eq (X a) (X b) /\ num_eq (Y a) (Y b).

(** ** Strings *)

Local Open Scope string_scope.

(** [s.split(c)] for a separator of one character: never an empty list. *)
Fixpoint split (c : ascii) (s : string) : list string :=
  match s with
  | EmptyString => [EmptyString]
  | String a r =>
      if Ascii.eqb a c then EmptyString :: split c r
      else match split c r with
           | h :: t => String a h :: t
           | [] => [String a EmptyString]
           end
  end.

(** [Some r] when [s] is [p] followed by [r]. *)
Fixpoint strip_prefix (p s : string) : option string :=
  match p, s with
  | EmptyString, _ => Some s
  | String a p', String b s' =>
      if Ascii.eqb a b then strip_prefix p' s' else None
  | String _ _, EmptyString => None
  end.

(** [s.replace(p, r)] for a string pattern: the first occurrence only. *)
Fixpoint replace (p r s : string) : string :=
  match strip_prefix p s with
  | Some rest => r ++ rest
  | None =>
      match s with
      | EmptyString => EmptyString
      | String a s' => String a (replace p r s')
      end
  end.

Definition lower_ascii (a : ascii) : ascii :=
  let n := nat_of_ascii a in
  if ((65 <=? n) && (n <=? 90))%nat then ascii_of_nat (n + 32) else a.

Fixpoint toLowerCase (s : string) : string :=
  match s with
  | EmptyString => EmptyString
  | String a r => String (lower_ascii a) (toLowerCase r)
  end.

(** [a.join(",")], which is what [String(a)] gives for an array. *)
Fixpoint join_comma (l : list string) : string :=
  match l with
  | [] => ""
  | [s] => s
  | s :: r => s ++ "," ++ join_comma r
  end.

(** [s.endsWith(p)]. *)
Fixpoint endsWith (s p : string) : bool :=
  String.eqb s p
  || match s with
     | EmptyString => false
     | String _ r => endsWith r p
     end.

(** The backslash, as a string of one character. *)
Definition backslash : string := String (ascii_of_nat 92) EmptyString.

(** *** [Number] applied to a string

    The grammar of StringNumericLiteral: optional white space around an
    optionally signed decimal literal (with fraction and exponent), the word
    Infinity, or an unsigned binary, octal or hexadecimal integer; the empty
    string is 0 and everything else is NaN. *)

Definition is_ws (a : ascii) : bool :=
  let n := nat_of_ascii a in
  ((n =? 32) || ((9 <=? n) && (n <=? 13)))%nat.

Fixpoint trim_start (s : list ascii) : list ascii :=
  match s with
  | a :: r => if is_ws a then trim_start r else s
  | [] => []
  end.

Definition trim (s : list ascii) : list ascii :=
  rev (trim_start (rev (trim_start s))).

Definition digit_val (a : ascii) : option Z :=
  let n := nat_of_ascii a in
  if ((48 <=? n) && (n <=? 57))%nat then Some (Z.of_nat (n - 48))
  else if ((97 <=? n) && (n <=? 102))%nat then Some (Z.of_nat (n - 87))
  else if ((65 <=? n) && (n <=? 70))%nat then Some (Z.of_nat (n - 55))
  else None.

(** The longest prefix of digits below [base], as digit values. *)
Fixpoint take_digits (base : Z) (s : list ascii) : list Z * list ascii :=
  match s with
  | a :: r =>
      match digit_val a with
      | Some d =>
          if (d <? base)%Z
          then let '(ds, r') := take_digits base r in (d :: ds, r')
          else ([], s)
      | None => ([], s)
      end
  | [] => ([], [])
  end.

Definition digits_to_Z (base : Z) (ds : list Z) : Z :=
  fold_left (fun acc d => (acc * base + d)%Z) ds 0%Z.

Definition is_e (a : ascii) : bool :=
  Ascii.eqb a "e"%char || Ascii.eqb a "E"%char.

(** ExponentPart, when present, must be complete and end the literal. *)
Definition parse_exponent (s : list ascii) : option Z :=
  match s with
  | [] => Some 0%Z
  | a :: r =>
      if is_e a then
        let '(sg, r1) :=
          match r with
          | b :: r' =>
              if Ascii.eqb b "-"%char then ((-1)%Z, r')
              else if Ascii.eqb b "+"%char then (1%Z, r')
              else (1%Z, r)
          | [] => (1%Z, r)
          end in
        match take_digits 10 r1 with
        | ((_ :: _) as ds, []) => Some (sg * digits_to_Z 10 ds)%Z
        | _ => None
        end
      else None
  end.

Definition scale10 (m : Q) (e : Z) : Q := m * Qpower 10 e.

(** StrUnsignedDecimalLiteral without the word Infinity. *)
Definition parse_unsigned_decimal (s : list ascii) : option Q :=
  let '(ip, r) := take_digits 10 s in
  match r with
  | a :: r1 =>
      if Ascii.eqb a "."%char then
        let '(fp, r2) := take_digits 10 r1 in
        match ip, fp with
        | [], [] => None
        | _, _ =>
            match parse_exponent r2 with
            | Some e =>
                Some (scale10 (inject_Z (digits_to_Z 10 ip)
                               + inject_Z (digits_to_Z 10 fp)
                                 / inject_Z (10 ^ Z.of_nat (length fp))) e)
            | None => None
            end
        end
      else
        match ip, parse_exponent r with
        | _ :: _, Some e => Some (scale10 (inject_Z (digits_to_Z 10 ip)) e)
        | _, _ => None
        end
  | [] =>
      match ip with
      | _ :: _ => Some (inject_Z (digits_to_Z 10 ip))
      | [] => None
      end
  end.

Definition Infinity_word : list ascii := list_ascii_of_string "Infinity".

Definition list_ascii_eqb (a b : list ascii) : bool :=
  String.eqb (string_of_list_ascii a) (string_of_list_ascii b).

Definition parse_unsigned (s : list ascii) : num :=
  if list_ascii_eqb s Infinity_word then Inf false
  else match parse_unsigned_decimal s with
       | Some q => Fin q
       | None => NaN
       end.

(** NonDecimalIntegerLiteral: [0b], [0o], [0x] in either case, unsigned. *)
Definition parse_radix (s : list ascii) : option num :=
  match s with
  | z :: p :: r =>
      if Ascii.eqb z "0"%char then
        let base :=
          if Ascii.eqb (lower_ascii p) "b"%char then Some 2%Z
          else if Ascii.eqb (lower_ascii p) "o"%char then Some 8%Z
          else if Ascii.eqb (lower_ascii p) "x"%char then Some 16%Z
          else None in
        match base with
        | Some b =>
            match take_digits b r with
            | ((_ :: _) as ds, []) => Some (Fin (inject_Z (digits_to_Z b ds)))
            | _ => Some NaN
            end
        | None => None
        end
      else None
  | _ => None
  end.

Definition Number_of_string (s : string) : num :=
  match trim (list_ascii_of_string s) with
  | [] => Fin 0
  | (a :: r) as t =>
      match parse_radix t with
      | Some n => n
      | None =>
          if Ascii.eqb a "-"%char then nneg (parse_unsigned r)
          else if Ascii.eqb a "+"%char then parse_unsigned r
          else parse_unsigned t
      end
  end.

(** [Number(v)] and [isNaN(v)] for [v] a string or [undefined]. *)
Definition Number (v : option string) : num :=
  match v with
  | Some s => Number_of_string s
  | None => NaN
  end.

Definition isNaN (v : option string) : bool := num_isNaN (Number v).

Example Number_examples :
  Number (Some "200") = Fin 200 /\ Number (Some "150.e") = NaN /\
  Number (Some "abc") = NaN /\ Number (Some "") = Fin 0 /\
  Number (Some " 12 ") = Fin 12 /\ Number (Some "0b101") = Fin 5 /\
  Number (Some "-7") = Fin (-7) /\ Number (Some "t") = NaN /\
  Number None = NaN /\ Number (Some "infinity") = NaN.
Proof. repeat split; reflexivity. Qed.

Example Number_fraction :
  num_eq (Number (Some "1.5e1")) (Fin 15) /\
  num_eq (Number (Some ".5")) (Fin (1 # 2)) /\
  Number (Some ".") = NaN /\ Number (Some "5e") = NaN.
Proof. repeat split; vm_compute; reflexivity. Qed.

(** ** Outcomes *)

Inductive error : Type :=
| UnresolvedNameError
| AssetMeasurementError
| TemplateError
| HookError
| TypeError.

Inductive outcome (A : Type) : Type :=
| Ok (a : A)
| Throw (e : error).
Arguments Ok {A} _.
Arguments Throw {A} _.

(** ** Locations

    What [_validateLocation] leaves in [_from] and [_to]: [false] (never
    set), a name, a placeable object of the canvas (a token or a measured
    template), or a plain object with both coordinates. *)

Record Placeable : Type := {
  center : option (vec Q);
  placeable_x : option Q;
  placeable_y : option Q;
  data_width : option Q;
  data_height : option Q
}.

Inductive Location : Type :=
| LFalse
| LName (name : string)
| LObject (p : vec Q)
| LToken (t : Placeable)
| LTemplate (t : Placeable) (shape : string) (ray_B : vec Q).

(** Truthiness: [false] and the empty string are falsy. *)
Definition truthy (l : Location) : bool :=
  match l with
  | LFalse => false
  | LName n => negb (String.eqb n "")
  | _ => true
  end.

(** [l?.center?.x ?? l.x ?? 0] and the same for [y]. *)
Definition location_x (l : Location) : Q :=
  match l with
  | LObject p => X p
  | LToken t | LTemplate t _ _ =>
      match center t with
      | Some c => X c
      | None => default 0 (placeable_x t)
      end
  | LFalse | LName _ => 0
  end.

Definition location_y (l : Location) : Q :=
  match l with
  | LObject p => Y p
  | LToken t | LTemplate t _ _ =>
      match center t with
      | Some c => Y c
      | None => default 0 (placeable_y t)
      end
  | LFalse | LName _ => 0
  end.

(** [l?.data?.width ?? 1] and [l?.data?.height ?? 1]. *)
Definition location_width (l : Location) : Q :=
  match l with
  | LToken t | LTemplate t _ _ => default 1 (data_width t)
  | _ => 1
  end.

Definition location_height (l : Location) : Q :=
  match l with
  | LToken t | LTemplate t _ _ => default 1 (data_height t)
  | _ => 1
  end.

(** ** The effect data *)

(** [data.file]: a path, an array of paths, or [undefined]. *)
Inductive FileVal : Type :=
| FString (s : string)
| FArray (l : list string)
| FUndefined.

(** The string that [prefix + file] appends. *)
Definition file_to_string (f : FileVal) : string :=
  match f with
  | FString s => s
  | FArray l => join_comma l
  | FUndefined => "undefined"
  end.

(** [data.anchor] is an object of its own or the very object held in
    [this._anchor]; a write through the latter is a write to the section. *)
Inductive AnchorRef : Type :=
| OwnAnchor (v : vec num)
| SectionAnchor.

Record Data : Type := {
  file : FileVal;
  position : vec Q;
  anchor : AnchorRef;
  scale : vec num;
  angle : Q;
  rotation : Q;
  speed : Q;
  playbackRate : Q;
  _distance : Q;
  fadeIn : Q;
  fadeOut : Q
}.

Definition set_file (f : FileVal) (d : Data) : Data :=
  {| file := f; position := position d; anchor := anchor d; scale := scale d;
     angle := angle d; rotation := rotation d; speed := speed d;
     playbackRate := playbackRate d; _distance := _distance d;
     fadeIn := fadeIn d; fadeOut := fadeOut d |}.

Definition set_position (p : vec Q) (d : Data) : Data :=
  {| file := file d; position := p; anchor := anchor d; scale := scale d;
     angle := angle d; rotation := rotation d; speed := speed d;
     playbackRate := playbackRate d; _distance := _distance d;
     fadeIn := fadeIn d; fadeOut := fadeOut d |}.

Definition set_anchor (a : AnchorRef) (d : Data) : Data :=
  {| file := file d; position := position d; anchor := a; scale := scale d;
     angle := angle d; rotation := rotation d; speed := speed d;
     playbackRate := playbackRate d; _distance := _distance d;
     fadeIn := fadeIn d; fadeOut := fadeOut d |}.

Definition set_scale (s : vec num) (d : Data) : Data :=
  {| file := file d; position := position d; anchor := anchor d; scale := s;
     angle := angle d; rotation := rotation d; speed := speed d;
     playbackRate := playbackRate d; _distance := _distance d;
     fadeIn := fadeIn d; fadeOut := fadeOut d |}.

Definition set_rotation (r : Q) (d : Data) : Data :=
  {| file := file d; position := position d; anchor := anchor d;
     scale := scale d; angle := angle d; rotation := r; speed := speed d;
     playbackRate := playbackRate d; _distance := _distance d;
     fadeIn := fadeIn d; fadeOut := fadeOut d |}.

Definition set_distance (r : Q) (d : Data) : Data :=
  {| file := file d; position := position d; anchor := anchor d;
     scale := scale d; angle := angle d; rotation := rotation d;
     speed := speed d; playbackRate := playbackRate d; _distance := r;
     fadeIn := fadeIn d; fadeOut := fadeOut d |}.

(** ** The section *)

(** The first argument of [scale]: unset, a number, or an object. *)
Inductive ScaleArg : Type :=
| ScaleFalse
| ScaleNumber (q : Q)
| ScaleObject (sx sy : option Q).

(** The private fields, except the two lists of override functions. *)
Record Fields : Type := {
  _baseFolder : string;
  _file : FileVal;
  _from : Location;
  _to : Location;
  _scaleMin : ScaleArg;
  _scaleMax : option Q;
  _anchor : option (vec num);
  _randomRotation : bool;
  _rotationOnly : bool;
  _missed : bool;
  _startPoint : Q;
  _endPoint : Q;
  _mustache : option (gmap string string);
  _JB2A : bool;
  _randomX : bool;
  _randomY : bool;
  _playbackRate : Q;
  _gridSize : Q;
  _name : option string;
  _fadeIn : Q;
  _fadeOut : Q
}.

(** [override(this, data)]: an override receives the section and the data
    and returns the data; it may throw.  What is represented are the
    overrides that compute: the returned data and the error are functions
    of the fields of the section and of the data received.  An override
    that calls a method of the section or of the sequence, writes to the
    section (also through [data.anchor] where that is the anchor of the
    section), draws or probes is not represented; the properties that range
    over overrides are about the represented ones. *)
Definition Override : Type := Fields -> Data -> outcome Data.

Record EffectSection : Type := {
  fields : Fields;
  _overrides : list Override;
  _postOverrides : list Override
}.

(** ** The sequence and the page *)

(** The two caches of the enclosing sequence. *)
Record Sequence : Type := {
  cachedPositions : gmap (string * nat) (vec Q);
  fileCache : gmap string (vec num)
}.

(** What the page provides.  [Math_random n] is the value of the call of
    [Math.random()] number [n]; [Ray_distance] and [Ray_angle] are the
    [distance] and the [angle] of [new Ray(origin, target)];
    [Handlebars_compile f m] is [Handlebars.compile(f)(m)];
    [lib_getDimensions] is [lib.getDimensions], defined in lib.js, which is
    missing: it measures a video, or fails. *)
Record Host : Type := {
  canvas_grid_size : Q;
  Ray_distance : vec Q -> option (vec Q) -> Q;
  Ray_angle : vec Q -> option (vec Q) -> Q;
  Math_random : nat -> Q;
  Handlebars_compile : FileVal -> gmap string string -> outcome string;
  lib_getDimensions : string -> outcome (vec num)
}.

(** The state a run threads: the section (its [_anchor] object can be
    written), the sequence, how many times [Math.random] has been called,
    and the paths handed to the video probe, latest first. *)
Record State : Type := {
  this : EffectSection;
  sequence : Sequence;
  draws : nat;
  probed : list string
}.

Definition M (A : Type) : Type := State -> outcome (A * State).

Definition ret {A} (a : A) : M A := fun st => Ok (a, st).

Definition bind {A B} (m : M A) (k : A -> M B) : M B :=
  fun st =>
    match m st with
    | Ok (a, st') => k a st'
    | Throw e => Throw e
    end.

Definition throw {A} (e : error) : M A := fun _ => Throw e.

Definition lift {A} (o : outcome A) : M A :=
  fun st => match o with Ok a => Ok (a, st) | Throw e => Throw e end.

Definition get_this : M Fields := fun st => Ok (fields (this st), st).

#[global] Instance M_ret : MRet M := @ret.
#[global] Instance M_bind : MBind M := fun A B k m => bind m k.

Definition set_fields (f : Fields) (s : EffectSection) : EffectSection :=
  {| fields := f; _overrides := _overrides s;
     _postOverrides := _postOverrides s |}.

Definition set_this (s : EffectSection) (st : State) : State :=
  {| this := s; sequence := sequence st; draws := draws st;
     probed := probed st |}.

Definition set_sequence (q : Sequence) (st : State) : State :=
  {| this := this st; sequence := q; draws := draws st;
     probed := probed st |}.

(** Assignments to single fields. *)
Definition with_file (v : FileVal) (f : Fields) : Fields :=
  {| _baseFolder := _baseFolder f; _file := v; _from := _from f;
     _to := _to f; _scaleMin := _scaleMin f; _scaleMax := _scaleMax f;
     _anchor := _anchor f; _randomRotation := _randomRotation f;
     _rotationOnly := _rotationOnly f; _missed := _missed f;
     _startPoint := _startPoint f; _endPoint := _endPoint f;
     _mustache := _mustache f; _JB2A := _JB2A f; _randomX := _randomX f;
     _randomY := _randomY f; _playbackRate := _playbackRate f;
     _gridSize := _gridSize f; _name := _name f; _fadeIn := _fadeIn f;
     _fadeOut := _fadeOut f |}.

Definition with_from (v : Location) (f : Fields) : Fields :=
  {| _baseFolder := _baseFolder f; _file := _file f; _from := v;
     _to := _to f; _scaleMin := _scaleMin f; _scaleMax := _scaleMax f;
     _anchor := _anchor f; _randomRotation := _randomRotation f;
     _rotationOnly := _rotationOnly f; _missed := _missed f;
     _startPoint := _startPoint f; _endPoint := _endPoint f;
     _mustache := _mustache f; _JB2A := _JB2A f; _randomX := _randomX f;
     _randomY := _randomY f; _playbackRate := _playbackRate f;
     _gridSize := _gridSize f; _name := _name f; _fadeIn := _fadeIn f;
     _fadeOut := _fadeOut f |}.

Definition with_to (v : Location) (f : Fields) : Fields :=
  {| _baseFolder := _baseFolder f; _file := _file f; _from := _from f;
     _to := v; _scaleMin := _scaleMin f; _scaleMax := _scaleMax f;
     _anchor := _anchor f; _randomRotation := _randomRotation f;
     _rotationOnly := _rotationOnly f; _missed := _missed f;
     _startPoint := _startPoint f; _endPoint := _endPoint f;
     _mustache := _mustache f; _JB2A := _JB2A f; _randomX := _randomX f;
     _randomY := _randomY f; _playbackRate := _playbackRate f;
     _gridSize := _gridSize f; _name := _name f; _fadeIn := _fadeIn f;
     _fadeOut := _fadeOut f |}.

Definition with_anchor (v : option (vec num)) (f : Fields) : Fields :=
  {| _baseFolder := _baseFolder f; _file := _file f; _from := _from f;
     _to := _to f; _scaleMin := _scaleMin f; _scaleMax := _scaleMax f;
     _anchor := v; _randomRotation := _randomRotation f;
     _rotationOnly := _rotationOnly f; _missed := _missed f;
     _startPoint := _startPoint f; _endPoint := _endPoint f;
     _mustache := _mustache f; _JB2A := _JB2A f; _randomX := _randomX f;
     _randomY := _randomY f; _playbackRate := _playbackRate f;
     _gridSize := _gridSize f; _name := _name f; _fadeIn := _fadeIn f;
     _fadeOut := _fadeOut f |}.

Definition with_randomRotation (v : bool) (f : Fields) : Fields :=
  {| _baseFolder := _baseFolder f; _file := _file f; _from := _from f;
     _to := _to f; _scaleMin := _scaleMin f; _scaleMax := _scaleMax f;
     _anchor := _anchor f; _randomRotation := v;
     _rotationOnly := _rotationOnly f; _missed := _missed f;
     _startPoint := _startPoint f; _endPoint := _endPoint f;
     _mustache := _mustache f; _JB2A := _JB2A f; _randomX := _randomX f;
     _randomY := _randomY f; _playbackRate := _playbackRate f;
     _gridSize := _gridSize f; _name := _name f; _fadeIn := _fadeIn f;
     _fadeOut := _fadeOut f |}.

Definition with_rotationOnly (v : bool) (f : Fields) : Fields :=
  {| _baseFolder := _baseFolder f; _file := _file f; _from := _from f;
     _to := _to f; _scaleMin := _scaleMin f; _scaleMax := _scaleMax f;
     _anchor := _anchor f; _randomRotation := _randomRotation f;
     _rotationOnly := v; _missed := _missed f; _startPoint := _startPoint f;
     _endPoint := _endPoint f; _mustache := _mustache f; _JB2A := _JB2A f;
     _randomX := _randomX f; _randomY := _randomY f;
     _playbackRate := _playbackRate f; _gridSize := _gridSize f;
     _name := _name f; _fadeIn := _fadeIn f; _fadeOut := _fadeOut f |}.

Definition with_missed (v : bool) (f : Fields) : Fields :=
  {| _baseFolder := _baseFolder f; _file := _file f; _from := _from f;
     _to := _to f; _scaleMin := _scaleMin f; _scaleMax := _scaleMax f;
     _anchor := _anchor f; _randomRotation := _randomRotation f;
     _rotationOnly := _rotationOnly f; _missed := v;
     _startPoint := _startPoint f; _endPoint := _endPoint f;
     _mustache := _mustache f; _JB2A := _JB2A f; _randomX := _randomX f;
     _randomY := _randomY f; _playbackRate := _playbackRate f;
     _gridSize := _gridSize f; _name := _name f; _fadeIn := _fadeIn f;
     _fadeOut := _fadeOut f |}.

Definition with_startPoint (v : Q) (f : Fields) : Fields :=
  {| _baseFolder := _baseFolder f; _file := _file f; _from := _from f;
     _to := _to f; _scaleMin := _scaleMin f; _scaleMax := _scaleMax f;
     _anchor := _anchor f; _randomRotation := _randomRotation f;
     _rotationOnly := _rotationOnly f; _missed := _missed f;
     _startPoint := v; _endPoint := _endPoint f; _mustache := _mustache f;
     _JB2A := _JB2A f; _randomX := _randomX f; _randomY := _randomY f;
     _playbackRate := _playbackRate f; _gridSize := _gridSize f;
     _name := _name f; _fadeIn := _fadeIn f; _fadeOut := _fadeOut f |}.

Definition with_endPoint (v : Q) (f : Fields) : Fields :=
  {| _baseFolder := _baseFolder f; _file := _file f; _from := _from f;
     _to := _to f; _scaleMin := _scaleMin f; _scaleMax := _scaleMax f;
     _anchor := _anchor f; _randomRotation := _randomRotation f;
     _rotationOnly := _rotationOnly f; _missed := _missed f;
     _startPoint := _startPoint f; _endPoint := v; _mustache := _mustache f;
     _JB2A := _JB2A f; _randomX := _randomX f; _randomY := _randomY f;
     _playbackRate := _playbackRate f; _gridSize := _gridSize f;
     _name := _name f; _fadeIn := _fadeIn f; _fadeOut := _fadeOut f |}.

Definition with_JB2A (v : bool) (f : Fields) : Fields :=
  {| _baseFolder := _baseFolder f; _file := _file f; _from := _from f;
     _to := _to f; _scaleMin := _scaleMin f; _scaleMax := _scaleMax f;
     _anchor := _anchor f; _randomRotation := _randomRotation f;
     _rotationOnly := _rotationOnly f; _missed := _missed f;
     _startPoint := _startPoint f; _endPoint := _endPoint f;
     _mustache := _mustache f; _JB2A := v; _randomX := _randomX f;
     _randomY := _randomY f; _playbackRate := _playbackRate f;
     _gridSize := _gridSize f; _name := _name f; _fadeIn := _fadeIn f;
     _fadeOut := _fadeOut f |}.

Definition with_randomX (v : bool) (f : Fields) : Fields :=
  {| _baseFolder := _baseFolder f; _file := _file f; _from := _from f;
     _to := _to f; _scaleMin := _scaleMin f; _scaleMax := _scaleMax f;
     _anchor := _anchor f; _randomRotation := _randomRotation f;
     _rotationOnly := _rotationOnly f; _missed := _missed f;
     _startPoint := _startPoint f; _endPoint := _endPoint f;
     _mustache := _mustache f; _JB2A := _JB2A f; _randomX := v;
     _randomY := _randomY f; _playbackRate := _playbackRate f;
     _gridSize := _gridSize f; _name := _name f; _fadeIn := _fadeIn f;
     _fadeOut := _fadeOut f |}.

Definition with_randomY (v : bool) (f : Fields) : Fields :=
  {| _baseFolder := _baseFolder f; _file := _file f; _from := _from f;
     _to := _to f; _scaleMin := _scaleMin f; _scaleMax := _scaleMax f;
     _anchor := _anchor f; _randomRotation := _randomRotation f;
     _rotationOnly := _rotationOnly f; _missed := _missed f;
     _startPoint := _startPoint f; _endPoint := _endPoint f;
     _mustache := _mustache f; _JB2A := _JB2A f; _randomX := _randomX f;
     _randomY := v; _playbackRate := _playbackRate f;
     _gridSize := _gridSize f; _name := _name f; _fadeIn := _fadeIn f;
     _fadeOut := _fadeOut f |}.

Definition with_gridSize (v : Q) (f : Fields) : Fields :=
  {| _baseFolder := _baseFolder f; _file := _file f; _from := _from f;
     _to := _to f; _scaleMin := _scaleMin f; _scaleMax := _scaleMax f;
     _anchor := _anchor f; _randomRotation := _randomRotation f;
     _rotationOnly := _rotationOnly f; _missed := _missed f;
     _startPoint := _startPoint f; _endPoint := _endPoint f;
     _mustache := _mustache f; _JB2A := _JB2A f; _randomX := _randomX f;
     _randomY := _randomY f; _playbackRate := _playbackRate f;
     _gridSize := v; _name := _name f; _fadeIn := _fadeIn f;
     _fadeOut := _fadeOut f |}.

Definition with_name (v : option string) (f : Fields) : Fields :=
  {| _baseFolder := _baseFolder f; _file := _file f; _from := _from f;
     _to := _to f; _scaleMin := _scaleMin f; _scaleMax := _scaleMax f;
     _anchor := _anchor f; _randomRotation := _randomRotation f;
     _rotationOnly := _rotationOnly f; _missed := _missed f;
     _startPoint := _startPoint f; _endPoint := _endPoint f;
     _mustache := _mustache f; _JB2A := _JB2A f; _randomX := _randomX f;
     _randomY := _randomY f; _playbackRate := _playbackRate f;
     _gridSize := _gridSize f; _name := v; _fadeIn := _fadeIn f;
     _fadeOut := _fadeOut f |}.

Definition with_baseFolder (v : string) (f : Fields) : Fields :=
  {| _baseFolder := v; _file := _file f; _from := _from f; _to := _to f;
     _scaleMin := _scaleMin f; _scaleMax := _scaleMax f;
     _anchor := _anchor f; _randomRotation := _randomRotation f;
     _rotationOnly := _rotationOnly f; _missed := _missed f;
     _startPoint := _startPoint f; _endPoint := _endPoint f;
     _mustache := _mustache f; _JB2A := _JB2A f; _randomX := _randomX f;
     _randomY := _randomY f; _playbackRate := _playbackRate f;
     _gridSize := _gridSize f; _name := _name f; _fadeIn := _fadeIn f;
     _fadeOut := _fadeOut f |}.

Definition with_scale (lo : ScaleArg) (hi : option Q) (f : Fields) : Fields :=
  {| _baseFolder := _baseFolder f; _file := _file f; _from := _from f;
     _to := _to f; _scaleMin := lo; _scaleMax := hi; _anchor := _anchor f;
     _randomRotation := _randomRotation f; _rotationOnly := _rotationOnly f;
     _missed := _missed f; _startPoint := _startPoint f;
     _endPoint := _endPoint f; _mustache := _mustache f; _JB2A := _JB2A f;
     _randomX := _randomX f; _randomY := _randomY f;
     _playbackRate := _playbackRate f; _gridSize := _gridSize f;
     _name := _name f; _fadeIn := _fadeIn f; _fadeOut := _fadeOut f |}.

Definition with_mustache (v : option (gmap string string)) (f : Fields)
  : Fields :=
  {| _baseFolder := _baseFolder f; _file := _file f; _from := _from f;
     _to := _to f; _scaleMin := _scaleMin f; _scaleMax := _scaleMax f;
     _anchor := _anchor f; _randomRotation := _randomRotation f;
     _rotationOnly := _rotationOnly f; _missed := _missed f;
     _startPoint := _startPoint f; _endPoint := _endPoint f; _mustache := v;
     _JB2A := _JB2A f; _randomX := _randomX f; _randomY := _randomY f;
     _playbackRate := _playbackRate f; _gridSize := _gridSize f;
     _name := _name f; _fadeIn := _fadeIn f; _fadeOut := _fadeOut f |}.

Definition with_playbackRate (v : Q) (f : Fields) : Fields :=
  {| _baseFolder := _baseFolder f; _file := _file f; _from := _from f;
     _to := _to f; _scaleMin := _scaleMin f; _scaleMax := _scaleMax f;
     _anchor := _anchor f; _randomRotation := _randomRotation f;
     _rotationOnly := _rotationOnly f; _missed := _missed f;
     _startPoint := _startPoint f; _endPoint := _endPoint f;
     _mustache := _mustache f; _JB2A := _JB2A f; _randomX := _randomX f;
     _randomY := _randomY f; _playbackRate := v; _gridSize := _gridSize f;
     _name := _name f; _fadeIn := _fadeIn f; _fadeOut := _fadeOut f |}.

Definition with_fadeIn (v : Q) (f : Fields) : Fields :=
  {| _baseFolder := _baseFolder f; _file := _file f; _from := _from f;
     _to := _to f; _scaleMin := _scaleMin f; _scaleMax := _scaleMax f;
     _anchor := _anchor f; _randomRotation := _randomRotation f;
     _rotationOnly := _rotationOnly f; _missed := _missed f;
     _startPoint := _startPoint f; _endPoint := _endPoint f;
     _mustache := _mustache f; _JB2A := _JB2A f; _randomX := _randomX f;
     _randomY := _randomY f; _playbackRate := _playbackRate f;
     _gridSize := _gridSize f; _name := _name f; _fadeIn := v;
     _fadeOut := _fadeOut f |}.

Definition with_fadeOut (v : Q) (f : Fields) : Fields :=
  {| _baseFolder := _baseFolder f; _file := _file f; _from := _from f;
     _to := _to f; _scaleMin := _scaleMin f; _scaleMax := _scaleMax f;
     _anchor := _anchor f; _randomRotation := _randomRotation f;
     _rotationOnly := _rotationOnly f; _missed := _missed f;
     _startPoint := _startPoint f; _endPoint := _endPoint f;
     _mustache := _mustache f; _JB2A := _JB2A f; _randomX := _randomX f;
     _randomY := _randomY f; _playbackRate := _playbackRate f;
     _gridSize := _gridSize f; _name := _name f; _fadeIn := _fadeIn f;
     _fadeOut := v |}.

(** The anchor a reader of [data.anchor] sees. *)
Definition anchor_value (s : EffectSection) (d : Data) : vec num :=
  match anchor d with
  | OwnAnchor v => v
  | SectionAnchor => default (Vec (Fin 0) (Fin 0)) (_anchor (fields s))
  end.

(** [data.file ? data.file.split('/').pop().split('.').shift() : "-1"];
    an array has no [split]. *)
Definition name_from_file (f : FileVal) : outcome string :=
  match f with
  | FString p =>
      if String.eqb p "" then Ok "-1"
      else Ok (default "" (head (split "." (List.last (split "/" p) ""))))
  | FArray _ => Throw TypeError
  | FUndefined => Ok "-1"
  end.

(** The name under which a run records its position. *)
Definition _getName (s : Fields) (data : Data) : outcome string :=
  match _name s with
  | Some n => if String.eqb n "" then name_from_file (file data) else Ok n
  | None => name_from_file (file data)
  end.

Definition _getTrueLength (s : Fields) (inDimensions : vec num) : num :=
  nsub (nsub (X inDimensions) (Fin (_startPoint s))) (Fin (_endPoint s)).

(** The point of the interval from [lo] to [hi] that a draw [r] selects. *)
Definition uniform (lo hi r : Q) : Q := r * (hi - lo) + lo.

Section Pipeline.

Context (host : Host).

(** One call of [Math.random()]. *)
Definition random : M Q :=
  fun st =>
    Ok (Math_random host (draws st),
        {| this := this st; sequence := sequence st;
           draws := S (draws st); probed := probed st |}).

(** Modelled from the spec: [lib.random_float_between] is defined in
    lib.js, which is missing; the spec has uniform(lo, hi) draw one float
    of the interval from lo to hi from the random source.  One draw of
    [Math.random], mapped affinely onto the interval. *)
Definition random_float_between (lo hi : Q) : M Q :=
  r ← random; mret (uniform lo hi r).

(** Modelled from the spec: [lib.random_array_element] is defined in
    lib.js, which is missing; the spec picks one element of the list
    uniformly at random.  One draw of [Math.random] selects an index; an
    empty array has no element and gives [undefined]. *)
Definition random_array_element (l : list string) : M FileVal :=
  r ← random;
  mret match l !! Z.to_nat (Qfloor (r * inject_Z (Z.of_nat (length l)))) with
       | Some f => FString f
       | None => FUndefined
       end.

(** Modelled from the spec: [_getCachedPosition] belongs to the sequence
    class, which is missing; the spec's lookup(name, repetitionIndex) gives
    the recorded point and fails with UnresolvedNameError when the name was
    not recorded for that repetition. *)
Definition _getCachedPosition (name : string) (rep : nat) : M (vec Q) :=
  fun st =>
    match cachedPositions (sequence st) !! (name, rep) with
    | Some p => Ok (p, st)
    | None => Throw UnresolvedNameError
    end.

(** Modelled from the spec: [_insertCachedPosition] belongs to the sequence
    class, which is missing; the spec's record(name, repetitionIndex,
    position) stores the point and overwrites an earlier record. *)
Definition _insertCachedPosition (name : string) (rep : nat) (p : vec Q)
  : M unit :=
  fun st =>
    Ok (tt, set_sequence
              {| cachedPositions :=
                   <[(name, rep) := p]> (cachedPositions (sequence st));
                 fileCache := fileCache (sequence st) |} st).

(** Modelled from the spec: [_getFileFromCache] belongs to the sequence
    class, which is missing; the spec's get(path) gives the cached
    dimensions or nothing. *)
Definition _getFileFromCache (path : string) : M (option (vec num)) :=
  fun st => Ok (fileCache (sequence st) !! path, st).

(** Modelled from the spec: [_addFileToCache] belongs to the sequence
    class, which is missing; the spec's put(path, dims) stores the
    dimensions under the path. *)
Definition _addFileToCache (path : string) (dims : vec num) : M unit :=
  fun st =>
    Ok (tt, set_sequence
              {| cachedPositions := cachedPositions (sequence st);
                 fileCache := <[path := dims]> (fileCache (sequence st)) |}
              st).

(** [await lib.getDimensions(path)]: the probe, with the call logged. *)
Definition getDimensions (path : string) : M (vec num) :=
  fun st =>
    match lib_getDimensions host path with
    | Ok d => Ok (d, {| this := this st; sequence := sequence st;
                        draws := draws st; probed := path :: probed st |})
    | Throw e => Throw e
    end.

(** The dimensions written in a file name such as [beam_400x200.webm]. *)
Definition dimensions_in_name (filePath : string) : option (vec num) :=
  let parts := split "_" (replace ".webm" "" filePath) in
  let dimensionString := split "x" (toLowerCase (List.last parts "")) in
  if negb (isNaN (dimensionString !! 0%nat))
     && negb (isNaN (dimensionString !! 1%nat))
  then Some (Vec (Number (dimensionString !! 0%nat))
                 (Number (dimensionString !! 1%nat)))
  else None.

Definition _getFileDimensions (inFile : FileVal) : M (vec num) :=
  s ← get_this;
  let filePath := _baseFolder s ++ file_to_string inFile in
  match (if _JB2A s then dimensions_in_name filePath else None) with
  | Some d => mret d
  | None =>
      cachedFile ← _getFileFromCache filePath;
      match cachedFile with
      | Some c => mret c
      | None =>
          c ← getDimensions filePath;
          _ ← _addFileToCache filePath c;
          mret c
      end
  end.

(** [data.anchor.x = v]: through [this._anchor] when the two are shared. *)
Definition write_anchor_x (v : num) (data : Data) : M Data :=
  match anchor data with
  | OwnAnchor a => mret (set_anchor (OwnAnchor (Vec v (Y a))) data)
  | SectionAnchor =>
      fun st =>
        let f := fields (this st) in
        let a := match _anchor f with
                 | Some a => Some (Vec v (Y a))
                 | None => None
                 end in
        Ok (data, set_this (set_fields (with_anchor a f) (this st)) st)
  end.

Definition _calculateHitVector (data : Data) : M Data :=
  if Qeq_bool (_distance data) 0 then mret data
  else
    dimensions ← _getFileDimensions (file data);
    s ← get_this;
    let trueLength := _getTrueLength s dimensions in
    let data :=
      set_scale (Vec (ndiv (Fin (_distance data)) trueLength)
                     (Y (scale data))) data in
    let data :=
      set_scale (Vec (X (scale data))
                     (Math_max (Fin 0.4) (X (scale data)))) data in
    write_anchor_x (ndiv (Fin (_startPoint s)) (X dimensions)) data.

Definition flip (r : Q) : Q := if Qltb r 0.5 then -1 else 1.

Definition _calculateMissedPosition
    (target : Location) (position : vec Q) (missed : bool) : M (vec Q) :=
  if negb missed then mret position
  else
    let grid := canvas_grid_size host in
    let width := location_width target * grid in
    let height := location_height target * grid in
    r ← random;
    let XorY := Qltb r 0.5 in
    rx ← random;
    let flipX := flip rx in
    ry ← random;
    let flipY := flip ry in
    let tokenOffset := grid / 5 in
    if XorY then
      a ← random_float_between tokenOffset (grid / 2);
      b ← random_float_between tokenOffset (height / 2 + grid / 2);
      mret (Vec (X position + (width / 2 + a) * flipX)
                (Y position + b * flipY))
    else
      a ← random_float_between tokenOffset (width / 2 + grid / 2);
      b ← random_float_between tokenOffset (grid / 2);
      mret (Vec (X position + a * flipX)
                (Y position + (height / 2 + b) * flipY)).

(** [if (typeof l === "string") l = _getCachedPosition(l, rep)]. *)
Definition resolve_name (rep : nat) (l : Location) : M Location :=
  match l with
  | LName n => p ← _getCachedPosition n rep; mret (LObject p)
  | _ => mret l
  end.

Definition is_cone_or_ray (shape : string) : bool :=
  String.eqb shape "cone" || String.eqb shape "ray".

(** The second component is [None] where the source returns [false]. *)
Definition _calculatePositions
    (rep : nat) (from to : Location) (missed : bool)
  : M (vec Q * option (vec Q)) :=
  from ← resolve_name rep from;
  to ← resolve_name rep to;
  let from_position := Vec (location_x from) (location_y from) in
  let to_position := Vec (location_x to) (location_y to) in
  let to_position :=
    match to with
    | LTemplate _ shape ray_B =>
        if is_cone_or_ray shape then ray_B else to_position
    | _ => to_position
    end in
  from_position ←
    _calculateMissedPosition from from_position (negb (truthy to) && missed);
  to_position ←
    (if truthy to
     then p ← _calculateMissedPosition to to_position missed; mret (Some p)
     else mret None);
  mret (from_position, to_position).

(** *** The steps of [_sanitizeData], in the order of the source *)

(** The object literal and the explicit anchor. *)
Definition initial_data (s : Fields) : Data :=
  let data :=
    {| file := _file s;
       position := Vec 0 0;
       anchor := OwnAnchor (Vec (Fin 0) (Fin 0));
       scale := Vec (Fin 1) (Fin 1);
       angle := 0;
       rotation := 0;
       speed := 0;
       playbackRate := _playbackRate s;
       _distance := 0;
       fadeIn := _fadeIn s;
       fadeOut := _fadeOut s |} in
  match _anchor s with
  | Some _ => set_anchor SectionAnchor data
  | None => data
  end.

(** [if (this._from) { ... }]: positions, default anchors, the ray.  The
    target that [_calculatePositions] returns goes to [Ray] as it is. *)
Definition place (rep : nat) (data : Data) : M Data :=
  s ← get_this;
  if truthy (_from s) then
    '(origin, target) ←
      _calculatePositions rep (_from s) (_to s) (_missed s);
    let data :=
      match _anchor s with
      | Some _ => data
      | None => set_anchor (OwnAnchor (Vec (Fin 0.5) (Fin 0.5))) data
      end in
    let data := set_position origin data in
    if truthy (_to s) then
      let data :=
        match _anchor s with
        | Some _ => data
        | None => set_anchor (OwnAnchor (Vec (Fin 0) (Fin 0.5))) data
        end in
      let data := set_distance (Ray_distance host origin target) data in
      mret (set_rotation (Ray_angle host origin target) data)
    else mret data
  else mret data.

(** [data.rotation += this._randomRotation ? Math.random() * Math.PI : 0]. *)
Definition random_rotation (data : Data) : M Data :=
  s ← get_this;
  r ← (if _randomRotation s then r ← random; mret (r * Math_PI)
       else mret 0);
  mret (set_rotation (rotation data + r) data).

(** [for (let override of l) data = await override(this, data)]. *)
Fixpoint run_overrides (l : list Override) (data : Data) : M Data :=
  match l with
  | [] => mret data
  | override :: l' =>
      s ← get_this;
      data ← lift (override s data);
      run_overrides l' data
  end.

Definition pick_file (data : Data) : M Data :=
  match file data with
  | FArray l => f ← random_array_element l; mret (set_file f data)
  | _ => mret data
  end.

Definition apply_mustache (data : Data) : M Data :=
  s ← get_this;
  match _mustache s with
  | Some m =>
      f ← lift (Handlebars_compile host (file data) m);
      mret (set_file (FString f) data)
  | None => mret data
  end.

(** The factor [canvas.grid.size / this._gridSize]. *)
Definition grid_ratio (s : Fields) : num :=
  ndiv (Fin (canvas_grid_size host)) (Fin (_gridSize s)).

Definition normalize_grid (data : Data) : M Data :=
  s ← get_this;
  mret (set_scale (Vec (nmul (X (scale data)) (grid_ratio s))
                       (nmul (Y (scale data)) (grid_ratio s))) data).

Definition reach (data : Data) : M Data :=
  s ← get_this;
  if _rotationOnly s then mret data else _calculateHitVector data.

(** The configured scale as an object with optional [x] and [y]. *)
Definition configured_scale : M (option Q * option Q) :=
  s ← get_this;
  match _scaleMin s with
  | ScaleNumber lo =>
      v ← match _scaleMax s with
          | Some hi =>
              if Qeq_bool hi 0 then mret lo else random_float_between lo hi
          | None => mret lo
          end;
      mret (Some v, Some v)
  | ScaleObject sx sy => mret (sx, sy)
  | ScaleFalse => mret (None, None)
  end.

Definition apply_scale (data : Data) : M Data :=
  '(sx, sy) ← configured_scale;
  mret (set_scale (Vec (nmul (X (scale data)) (Fin (default 1 sx)))
                       (nmul (Y (scale data)) (Fin (default 1 sy)))) data).

(** [flag && Math.random() < 0.5 ? -1 : 1]: no draw when the flag is off. *)
Definition random_flip (flag : bool) : M Q :=
  if flag then r ← random; mret (flip r) else mret 1.

Definition mirror (data : Data) : M Data :=
  s ← get_this;
  flipX ← random_flip (_randomX s);
  let data :=
    set_scale (Vec (nmul (X (scale data)) (Fin flipX)) (Y (scale data)))
              data in
  flipY ← random_flip (_randomY s);
  mret (set_scale (Vec (X (scale data)) (nmul (Y (scale data)) (Fin flipY)))
                  data).

Definition prepend_base_folder (data : Data) : M Data :=
  s ← get_this;
  mret (set_file (FString (_baseFolder s ++ file_to_string (file data)))
                 data).

Definition record_position (rep : nat) (data : Data) : M Data :=
  s ← get_this;
  name ← lift (_getName s data);
  _ ← _insertCachedPosition name rep (position data);
  mret data.

(** [this._currentRepetition], which the base class sets before the call,
    is the argument [rep]. *)
Definition _sanitizeData (rep : nat) : M Data :=
  s ← get_this;
  data ← place rep (initial_data s);
  data ← random_rotation data;
  pre ← (fun st => Ok (_overrides (this st), st));
  data ← run_overrides pre data;
  data ← pick_file data;
  data ← apply_mustache data;
  data ← normalize_grid data;
  data ← reach data;
  data ← apply_scale data;
  data ← mirror data;
  data ← prepend_base_folder data;
  post ← (fun st => Ok (_postOverrides (this st), st));
  data ← run_overrides post data;
  record_position rep data.

End Pipeline.

(** ** The builder

    Each method checks the type of its argument, assigns and returns [this].
    The arguments below have the checked type, so the checks do not show;
    the check of [scale] depends on both arguments and is written out. *)

Definition update (g : Fields -> Fields) (s : EffectSection) : EffectSection :=
  set_fields (g (fields s)) s.

Module Builder.
Section Methods.

Context (host : Host).

Definition file (inFile : FileVal) : EffectSection -> EffectSection :=
  update (with_file inFile).

Definition constructor (inFile : FileVal) : EffectSection :=
  {| fields :=
       {| _baseFolder := ""; _file := inFile; _from := LFalse;
          _to := LFalse; _scaleMin := ScaleFalse; _scaleMax := None;
          _anchor := None; _randomRotation := false;
          _rotationOnly := true; _missed := false; _startPoint := 0;
          _endPoint := 0; _mustache := None; _JB2A := false;
          _randomX := false; _randomY := false; _playbackRate := 1;
          _gridSize := canvas_grid_size host; _name := None;
          _fadeIn := 0; _fadeOut := 0 |};
     _overrides := [];
     _postOverrides := [] |}.

Definition name (inName : string) : EffectSection -> EffectSection :=
  update (with_name (Some inName)).

Definition missed (inBool : bool) : EffectSection -> EffectSection :=
  update (with_missed inBool).

Definition gridSize (inSize : Q) : EffectSection -> EffectSection :=
  update (with_gridSize inSize).

Definition startPoint (inStartPoint : Q) : EffectSection -> EffectSection :=
  update (with_startPoint inStartPoint).

Definition endPoint (inEndPoint : Q) : EffectSection -> EffectSection :=
  update (with_endPoint inEndPoint).

Definition JB2A (inBool : bool) (s : EffectSection) : EffectSection :=
  let s :=
    if inBool then endPoint 200 (startPoint 200 (gridSize 100 s))
    else endPoint 0 (startPoint 0 (gridSize (canvas_grid_size host) s)) in
  update (with_JB2A true) s.

Definition addOverride (inFunc : Override) (s : EffectSection)
  : EffectSection :=
  {| fields := fields s; _overrides := _overrides s ++ [inFunc];
     _postOverrides := _postOverrides s |}.

Definition addPostOverride (inFunc : Override) (s : EffectSection)
  : EffectSection :=
  {| fields := fields s; _overrides := _overrides s;
     _postOverrides := _postOverrides s ++ [inFunc] |}.

(** The argument is what [_validateLocation] returned. *)
Definition atLocation (inLocation : Location)
  : EffectSection -> EffectSection :=
  update (with_from inLocation).

Definition rotateTowards (inLocation : Location) (s : EffectSection)
  : EffectSection :=
  update (with_rotationOnly true) (update (with_to inLocation) s).

Definition reachTowards (inLocation : Location) (s : EffectSection)
  : EffectSection :=
  update (with_rotationOnly false) (update (with_to inLocation) s).

(** The argument of [anchor]: nothing, a number, or an object. *)
Inductive AnchorArg : Type :=
| AnchorUndefined
| AnchorNumber (q : Q)
| AnchorObject (ax ay : option Q).

Definition anchor_of_arg (inAnchor : AnchorArg) : vec num :=
  match inAnchor with
  | AnchorUndefined => Vec (Fin 0.5) (Fin 0.5)
  | AnchorNumber q => Vec (Fin q) (Fin q)
  | AnchorObject ax ay => Vec (Fin (default 0.5 ax)) (Fin (default 0.5 ay))
  end.

Definition anchor (inAnchor : AnchorArg)
  : EffectSection -> EffectSection :=
  update (with_anchor (Some (anchor_of_arg inAnchor))).

Definition center : EffectSection -> EffectSection :=
  anchor AnchorUndefined.

Definition randomRotation (inBool : bool) : EffectSection -> EffectSection :=
  update (with_randomRotation inBool).

Definition randomizeMirrorX (inBool : bool)
  : EffectSection -> EffectSection :=
  update (with_randomX true).

Definition randomizeMirrorY (inBool : bool)
  : EffectSection -> EffectSection :=
  update (with_randomY true).

(** The backslash that [replace] turns into a slash is the first one. *)
Definition baseFolder (inBaseFolder : string)
  : EffectSection -> EffectSection :=
  let inBaseFolder := replace backslash "/" inBaseFolder in
  let inBaseFolder :=
    if negb (endsWith inBaseFolder "/") then inBaseFolder ++ "/"
    else inBaseFolder in
  update (with_baseFolder inBaseFolder).

Definition playbackRate (inNumber : Q) : EffectSection -> EffectSection :=
  update (with_playbackRate inNumber).

(** The argument is [None] for a value that is not truthy. *)
Definition setMustache (inMustache : option (gmap string string))
  : EffectSection -> EffectSection :=
  update (with_mustache inMustache).

Definition fadeIn (fadeDuration : Q) : EffectSection -> EffectSection :=
  update (with_fadeIn fadeDuration).

Definition fadeOut (fadeDuration : Q) : EffectSection -> EffectSection :=
  update (with_fadeOut fadeDuration).

(** [typeof a === "number"] for the first argument of [scale]. *)
Definition is_number (a : ScaleArg) : bool :=
  match a with
  | ScaleNumber _ => true
  | _ => false
  end.

(** [scale(inScaleMin, inScaleMax)]: the first argument is [None] for
    [undefined], the second is a number or [None] for [undefined]; the
    result is the message of the error where the method throws. *)
Definition scale (inScaleMin : option ScaleArg) (inScaleMax : option Q)
    (s : EffectSection) : string + EffectSection :=
  match inScaleMin with
  | None => inl "inScaleMin must be of type number or object"
  | Some lo =>
      if negb (is_number lo)
         && match inScaleMax with
            | Some hi => negb (Qeq_bool hi 0)
            | None => false
            end
      then inl ("if inScaleMax is a number, "
                ++ "inScaleMin must also be of type number")
      else inr (update (with_scale lo inScaleMax) s)
  end.

(** What [atLocation], [rotateTowards] and [reachTowards] can be given: a
    token or a measured template of the canvas, a string, or anything else,
    of which only the properties [x] and [y] are read ([undefined] has
    neither); and the property [_id] of the value, if it has one. *)
Inductive LocationKind : Type :=
| KToken (t : Placeable)
| KTemplate (t : Placeable) (shape : string) (ray_B : vec Q)
| KString (s : string)
| KOther (x y : option Q).

Record LocationArg : Type := {
  arg_id : option string;
  arg_kind : LocationKind
}.

(** [canvas_tokens_get] is [canvas.tokens.get]: the token of the canvas
    with the given id, if there is one. *)
Definition _validateLocation (canvas_tokens_get : string -> option Placeable)
    (inLocation : LocationArg) : Location :=
  let kind :=
    match arg_id inLocation with
    | Some id =>
        if negb (String.eqb id "")
        then match canvas_tokens_get id with
             | Some t => KToken t
             | None => arg_kind inLocation
             end
        else arg_kind inLocation
    | None => arg_kind inLocation
    end in
  match kind with
  | KToken t => LToken t
  | KTemplate t shape ray_B => LTemplate t shape ray_B
  | KString s => LName s
  | KOther x y => LObject (Vec (default 0 x) (default 0 y))
  end.

End Methods.
End Builder.

(** ** Running a section *)

(** The state in which a section starts on a sequence. *)
Definition start (s : EffectSection) (q : Sequence) (n : nat) : State :=
  {| this := s; sequence := q; draws := n; probed := [] |}.

(** A page for examples: a grid of 100 pixels, rays measured along the axes
    (exact for horizontal and vertical rays), templates rendered as they are,
    and a probe that finds every video 400 by 200. *)
Definition axis_distance (a : vec Q) (b : option (vec Q)) : Q :=
  match b with
  | Some b =>
      (if Qltb (X b) (X a) then X a - X b else X b - X a)
      + (if Qltb (Y b) (Y a) then Y a - Y b else Y b - Y a)
  | None => 0
  end.

Definition example_host (draw : nat -> Q) : Host :=
  {| canvas_grid_size := 100;
     Ray_distance := axis_distance;
     Ray_angle := fun _ _ => 0;
     Math_random := draw;
     Handlebars_compile := fun f _ => Ok (file_to_string f);
     lib_getDimensions := fun _ => Ok (Vec (Fin 400) (Fin 200)) |}.

Definition empty_sequence : Sequence :=
  {| cachedPositions := ∅; fileCache := ∅ |}.

(** * Properties *)

Ltac run_unfold :=
  unfold mbind, M_bind, bind, mret, M_ret, ret, get_this, lift, throw in *.

(** ** What a run leaves unchanged

    A computation is stable for a relation on states when every successful
    run relates the state before to the state after. *)

Section Stable.

Context (R : State -> State -> Prop).
Context (R_refl : forall st, R st st).
Context (R_trans : forall a b c, R a b -> R b c -> R a c).

Definition stable {A} (m : M A) : Prop :=
  forall st a st', m st = Ok (a, st') -> R st st'.

Lemma stable_ret {A} (a : A) : stable (mret a).
Proof. intros st b st' H. inversion H. apply R_refl. Qed.

Lemma stable_bind {A B} (m : M A) (k : A -> M B) :
  stable m -> (forall a, stable (k a)) -> stable (m ≫= k).
Proof.
  intros Hm Hk st b st' H. run_unfold.
  destruct (m st) as [[a st1]|e] eqn:E; [|discriminate].
  eapply R_trans; [eapply Hm, E | eapply Hk, H].
Qed.

Lemma stable_lift {A} (o : outcome A) : stable (lift o).
Proof.
  intros st a st' H. unfold lift in H. destruct o; inversion H.
  apply R_refl.
Qed.

Lemma stable_get_this : stable get_this.
Proof. intros st a st' H. inversion H. apply R_refl. Qed.

Lemma stable_read {A} (f : State -> A) : stable (fun st => Ok (f st, st)).
Proof. intros st a st' H. inversion H. apply R_refl. Qed.

End Stable.

(** The section without its anchor object, the one part a run can write. *)
Definition configuration (s : EffectSection) : EffectSection :=
  set_fields (with_anchor None (fields s)) s.

Definition same_configuration (st st' : State) : Prop :=
  configuration (this st') = configuration (this st).

Lemma same_configuration_refl st : same_configuration st st.
Proof. reflexivity. Qed.

Lemma same_configuration_trans a b c :
  same_configuration a b -> same_configuration b c -> same_configuration a c.
Proof. unfold same_configuration. congruence. Qed.

Ltac stable_step :=
  first
    [ apply stable_ret; solve [auto using same_configuration_refl]
    | apply stable_get_this; solve [auto using same_configuration_refl]
    | apply stable_lift; solve [auto using same_configuration_refl]
    | apply stable_read; solve [auto using same_configuration_refl]
    | apply stable_bind;
      [ exact same_configuration_trans | | intros ? ] ].

Section Configuration.

Context (host : Host).

Abbreviation keeps := (stable same_configuration).

Lemma keeps_unchanged_this {A} (m : M A) :
  (forall st a st', m st = Ok (a, st') -> this st' = this st) -> keeps m.
Proof.
  intros H st a st' E. unfold same_configuration. by rewrite (H _ _ _ E).
Qed.

Lemma keeps_random : keeps (random host).
Proof. apply keeps_unchanged_this. intros st a st' H. by inversion H. Qed.

Lemma keeps_random_float_between lo hi :
  keeps (random_float_between host lo hi).
Proof.
  unfold random_float_between. repeat stable_step. apply keeps_random.
Qed.

Lemma keeps_random_array_element l : keeps (random_array_element host l).
Proof.
  unfold random_array_element. repeat stable_step. apply keeps_random.
Qed.

Lemma keeps_getCachedPosition n rep : keeps (_getCachedPosition n rep).
Proof.
  apply keeps_unchanged_this. intros st a st' H.
  unfold _getCachedPosition in H.
  destruct (cachedPositions (sequence st) !! (n, rep)); by inversion H.
Qed.

Lemma keeps_insertCachedPosition n rep p :
  keeps (_insertCachedPosition n rep p).
Proof. apply keeps_unchanged_this. intros st a st' H. by inversion H. Qed.

Lemma keeps_getFileFromCache path : keeps (_getFileFromCache path).
Proof. apply keeps_unchanged_this. intros st a st' H. by inversion H. Qed.

Lemma keeps_addFileToCache path d : keeps (_addFileToCache path d).
Proof. apply keeps_unchanged_this. intros st a st' H. by inversion H. Qed.

Lemma keeps_getDimensions path : keeps (getDimensions host path).
Proof.
  apply keeps_unchanged_this. intros st a st' H. unfold getDimensions in H.
  destruct (lib_getDimensions host path); by inversion H.
Qed.

Lemma keeps_getFileDimensions inFile : keeps (_getFileDimensions host inFile).
Proof.
  unfold _getFileDimensions. stable_step; [stable_step|].
  destruct (if _JB2A a then _ else _); [stable_step|].
  stable_step; [apply keeps_getFileFromCache|].
  destruct a0; [stable_step|].
  stable_step; [apply keeps_getDimensions|].
  stable_step; [apply keeps_addFileToCache|]. stable_step.
Qed.

Lemma keeps_write_anchor_x v data : keeps (write_anchor_x v data).
Proof.
  unfold write_anchor_x. destruct (anchor data); [stable_step|].
  intros st a st' H. inversion H. subst. unfold same_configuration.
  destruct st as [[f pre post] q n pr]. reflexivity.
Qed.

Lemma keeps_calculateHitVector data : keeps (_calculateHitVector host data).
Proof.
  unfold _calculateHitVector. destruct (Qeq_bool _ _); [stable_step|].
  stable_step; [apply keeps_getFileDimensions|].
  stable_step; [stable_step|]. apply keeps_write_anchor_x.
Qed.

Lemma keeps_calculateMissedPosition target position missed :
  keeps (_calculateMissedPosition host target position missed).
Proof.
  unfold _calculateMissedPosition. destruct (negb missed); [stable_step|].
  do 3 (stable_step; [apply keeps_random|]).
  destruct (Qltb _ _);
    do 2 (stable_step; [apply keeps_random_float_between|]); stable_step.
Qed.

Lemma keeps_resolve_name rep l : keeps (resolve_name rep l).
Proof.
  destruct l; simpl; try stable_step.
  - apply keeps_getCachedPosition.
  - stable_step.
Qed.

Lemma keeps_calculatePositions rep from to missed :
  keeps (_calculatePositions host rep from to missed).
Proof.
  unfold _calculatePositions.
  do 2 (stable_step; [apply keeps_resolve_name|]).
  stable_step; [apply keeps_calculateMissedPosition|].
  stable_step; [|stable_step].
  destruct (truthy a0); [|stable_step].
  stable_step; [apply keeps_calculateMissedPosition|stable_step].
Qed.

Lemma keeps_place rep data : keeps (place host rep data).
Proof.
  unfold place. stable_step; [stable_step|].
  destruct (truthy (_from a)); [|stable_step].
  stable_step; [apply keeps_calculatePositions|].
  destruct a0 as [origin target].
  destruct (truthy (_to a)); stable_step.
Qed.

Lemma keeps_random_rotation data : keeps (random_rotation host data).
Proof.
  unfold random_rotation. stable_step; [stable_step|].
  stable_step; [|stable_step].
  destruct (_randomRotation a); [|stable_step].
  stable_step; [apply keeps_random|stable_step].
Qed.

Lemma keeps_run_overrides l data : keeps (run_overrides l data).
Proof.
  revert data. induction l as [|f l IH]; intros data; simpl.
  - stable_step.
  - stable_step; [stable_step|]. stable_step; [stable_step|]. apply IH.
Qed.

Lemma keeps_pick_file data : keeps (pick_file host data).
Proof.
  unfold pick_file. destruct (file data); try stable_step.
  - apply keeps_random_array_element.
  - stable_step.
Qed.

Lemma keeps_apply_mustache data : keeps (apply_mustache host data).
Proof.
  unfold apply_mustache. stable_step; [stable_step|].
  destruct (_mustache a); [|stable_step].
  stable_step; [stable_step|stable_step].
Qed.

Lemma keeps_normalize_grid data : keeps (normalize_grid host data).
Proof. unfold normalize_grid. repeat stable_step. Qed.

Lemma keeps_reach data : keeps (reach host data).
Proof.
  unfold reach. stable_step; [stable_step|].
  destruct (_rotationOnly a); [stable_step|apply keeps_calculateHitVector].
Qed.

Lemma keeps_configured_scale : keeps (configured_scale host).
Proof.
  unfold configured_scale. stable_step; [stable_step|].
  destruct (_scaleMin a); try stable_step.
  - destruct (_scaleMax a) as [hi|]; [|stable_step].
    destruct (Qeq_bool hi 0); [stable_step|].
    apply keeps_random_float_between.
  - stable_step.
Qed.

Lemma keeps_apply_scale data : keeps (apply_scale host data).
Proof.
  unfold apply_scale. stable_step; [apply keeps_configured_scale|].
  destruct a. stable_step.
Qed.

Lemma keeps_random_flip flag : keeps (random_flip host flag).
Proof.
  destruct flag; simpl; [|stable_step].
  stable_step; [apply keeps_random|stable_step].
Qed.

Lemma keeps_mirror data : keeps (mirror host data).
Proof.
  unfold mirror. stable_step; [stable_step|].
  stable_step; [apply keeps_random_flip|].
  stable_step; [apply keeps_random_flip|stable_step].
Qed.

Lemma keeps_prepend_base_folder data : keeps (prepend_base_folder data).
Proof. unfold prepend_base_folder. repeat stable_step. Qed.

Lemma keeps_record_position rep data : keeps (record_position rep data).
Proof.
  unfold record_position. stable_step; [stable_step|].
  stable_step; [stable_step|].
  stable_step; [apply keeps_insertCachedPosition|stable_step].
Qed.

(** A run of [_sanitizeData] writes nothing of the section but the anchor
    object: every flag set by the builder is still there for the next
    repetition. *)
Lemma keeps_sanitizeData rep : keeps (_sanitizeData host rep).
Proof.
  unfold _sanitizeData. stable_step; [stable_step|].
  stable_step; [apply keeps_place|].
  stable_step; [apply keeps_random_rotation|].
  stable_step; [stable_step|].
  stable_step; [apply keeps_run_overrides|].
  stable_step; [apply keeps_pick_file|].
  stable_step; [apply keeps_apply_mustache|].
  stable_step; [apply keeps_normalize_grid|].
  stable_step; [apply keeps_reach|].
  stable_step; [apply keeps_apply_scale|].
  stable_step; [apply keeps_mirror|].
  stable_step; [apply keeps_prepend_base_folder|].
  stable_step; [stable_step|].
  stable_step; [apply keeps_run_overrides|].
  apply keeps_record_position.
Qed.

End Configuration.

Lemma configuration_flags s s' :
  configuration s' = configuration s ->
  _randomX (fields s') = _randomX (fields s)
  /\ _randomY (fields s') = _randomY (fields s)
  /\ _JB2A (fields s') = _JB2A (fields s)
  /\ _baseFolder (fields s') = _baseFolder (fields s).
Proof.
  intros H.
  assert (E : with_anchor None (fields s') = with_anchor None (fields s))
    by (apply (f_equal fields) in H; exact H).
  repeat split.
  - exact (f_equal _randomX E).
  - exact (f_equal _randomY E).
  - exact (f_equal _JB2A E).
  - exact (f_equal _baseFolder E).
Qed.

(** ** The builder flags *)

(** C9. [randomizeMirrorX] and [randomizeMirrorY] switch their flag on
    whatever boolean they are given, [false] included; in a section built
    that way the mirroring step multiplies the corresponding axis of the
    scale by the sign that a draw of [Math.random] selects, and a run of
    [_sanitizeData] leaves both flags as they are for the runs after it. *)
Theorem randomizeMirror_ignores_argument :
  forall (host : Host) (inBool : bool) (s : EffectSection),
    _randomX (fields (Builder.randomizeMirrorX inBool s)) = true
    /\ _randomY (fields (Builder.randomizeMirrorY inBool s)) = true
    /\ (forall st data, this st = Builder.randomizeMirrorX inBool s ->
          exists data' st',
            mirror host data st = Ok (data', st')
            /\ X (scale data')
               = nmul (X (scale data))
                      (Fin (flip (Math_random host (draws st)))))
    /\ (forall st data, this st = Builder.randomizeMirrorY inBool s ->
          exists data' st',
            mirror host data st = Ok (data', st')
            /\ Y (scale data')
               = nmul (Y (scale data))
                      (Fin (flip (Math_random host
                                    (if _randomX (fields s)
                                     then S (draws st) else draws st)))))
    /\ (forall rep st data st',
          _sanitizeData host rep st = Ok (data, st') ->
          _randomX (fields (this st')) = _randomX (fields (this st))
          /\ _randomY (fields (this st')) = _randomY (fields (this st))).
Proof.
  intros host inBool s. split; [reflexivity|]. split; [reflexivity|].
  split; [|split].
  - intros st data H. unfold mirror. run_unfold. rewrite H. simpl.
    destruct (_randomY (fields s)); simpl; eauto.
  - intros st data H. unfold mirror. run_unfold. rewrite H. simpl.
    destruct (_randomX (fields s)); simpl; eauto.
  - intros rep st data st' H.
    apply keeps_sanitizeData, configuration_flags in H. tauto.
Qed.

(** The page of the examples calls [randomizeMirrorX(false)]: the flag is
    on, and a draw below one half turns the horizontal scale to -1. *)
Lemma randomizeMirror_ignores_argument_witness :
  let host := example_host (fun _ => 1 # 4) in
  let s := Builder.randomizeMirrorX false (Builder.constructor host (FString "a.webm")) in
  _randomX (fields s) = true
  /\ exists data st',
       _sanitizeData host 0 (start s empty_sequence 0) = Ok (data, st')
       /\ num_eq (X (scale data)) (Fin (-1))
       /\ _randomX (fields (this st')) = true.
Proof.
  intros host s.
  destruct (randomizeMirror_ignores_argument host false
              (Builder.constructor host (FString "a.webm")))
    as (HX & _ & _ & _ & Hkeep).
  split; [exact HX|].
  destruct (_sanitizeData host 0 (start s empty_sequence 0))
    as [[data st']|e] eqn:E; [|vm_compute in E; discriminate].
  exists data, st'. split; [reflexivity|].
  destruct (Hkeep _ _ _ _ E) as [K _].
  split; [|rewrite K; reflexivity].
  vm_compute in E. inversion E. vm_compute. reflexivity.
Defined.

(** ** Dimensions of the video *)

Lemma getFileDimensions_this host inFile st d st' :
  _getFileDimensions host inFile st = Ok (d, st') -> this st' = this st.
Proof.
  unfold _getFileDimensions, _getFileFromCache, getDimensions,
    _addFileToCache.
  run_unfold. intros H.
  destruct (if _JB2A (fields (this st)) then _ else _);
    [by inversion H|].
  destruct (fileCache (sequence st) !! _); [by inversion H|].
  destruct (lib_getDimensions host _); by inversion H.
Qed.

(** With [_JB2A] on, a name that carries its dimensions is answered from
    the name alone: no cache, no probe, no change of state. *)
Lemma getFileDimensions_from_name host inFile st d :
  _JB2A (fields (this st)) = true ->
  dimensions_in_name (_baseFolder (fields (this st)) ++ file_to_string inFile)
  = Some d ->
  _getFileDimensions host inFile st = Ok (d, st).
Proof.
  intros HJ Hd. unfold _getFileDimensions. run_unfold.
  rewrite HJ, Hd. reflexivity.
Qed.

(** Otherwise the cache is asked, and the probe only when the cache has
    nothing; what the probe finds is put into the cache. *)
Definition after_probe (path : string) (c : vec num) (st : State) : State :=
  {| this := this st;
     sequence := {| cachedPositions := cachedPositions (sequence st);
                    fileCache := <[path := c]> (fileCache (sequence st)) |};
     draws := draws st;
     probed := path :: probed st |}.

Lemma getFileDimensions_fall_through host inFile st :
  (if _JB2A (fields (this st))
   then dimensions_in_name
          (_baseFolder (fields (this st)) ++ file_to_string inFile)
   else None) = None ->
  let filePath := _baseFolder (fields (this st)) ++ file_to_string inFile in
  _getFileDimensions host inFile st
  = match fileCache (sequence st) !! filePath with
    | Some c => Ok (c, st)
    | None =>
        match lib_getDimensions host filePath with
        | Ok c => Ok (c, after_probe filePath c st)
        | Throw e => Throw e
        end
    end.
Proof.
  intros Hd filePath. unfold _getFileDimensions, _getFileFromCache,
    getDimensions, _addFileToCache. run_unfold.
  rewrite Hd. fold filePath.
  destruct (fileCache (sequence st) !! filePath); [reflexivity|].
  destruct (lib_getDimensions host filePath); reflexivity.
Qed.

(** C10. [JB2A(false)] puts the grid size back to the size of the scene
    grid and both trim points to 0, and still switches [_JB2A] on: in the
    section it returns, dimensions written in the file name are read from
    the name, and a run of [_sanitizeData] leaves the flag on. *)
Theorem JB2A_false_keeps_name_parsing :
  forall (host : Host) (s : EffectSection),
    _gridSize (fields (Builder.JB2A host false s)) = canvas_grid_size host
    /\ _startPoint (fields (Builder.JB2A host false s)) = 0
    /\ _endPoint (fields (Builder.JB2A host false s)) = 0
    /\ _JB2A (fields (Builder.JB2A host false s)) = true
    /\ (forall st inFile d,
          this st = Builder.JB2A host false s ->
          dimensions_in_name
            (_baseFolder (fields s) ++ file_to_string inFile) = Some d ->
          _getFileDimensions host inFile st = Ok (d, st))
    /\ (forall rep st data st',
          this st = Builder.JB2A host false s ->
          _sanitizeData host rep st = Ok (data, st') ->
          _JB2A (fields (this st')) = true).
Proof.
  intros host s. repeat (split; [reflexivity|]). split.
  - intros st inFile d Hthis Hd.
    apply getFileDimensions_from_name; rewrite Hthis; [reflexivity|exact Hd].
  - intros rep st data st' Hthis H.
    apply keeps_sanitizeData, configuration_flags in H.
    destruct H as (_ & _ & -> & _). rewrite Hthis. reflexivity.
Qed.

(** After [JB2A(false)] the name [fire_200x150.webm] still gives 200 by 150
    and the probe is not called. *)
Lemma JB2A_false_keeps_name_parsing_witness :
  let host := example_host (fun _ => 0) in
  let s := Builder.JB2A host false
             (Builder.constructor host (FString "fire_200x150.webm")) in
  let st := start s empty_sequence 0 in
  _getFileDimensions host (FString "fire_200x150.webm") st
  = Ok (Vec (Fin 200) (Fin 150), st)
  /\ probed st = [].
Proof.
  intros host s st. split; [|reflexivity].
  destruct (JB2A_false_keeps_name_parsing host
              (Builder.constructor host (FString "fire_200x150.webm")))
    as (_ & _ & _ & _ & Hname & _).
  apply Hname; reflexivity.
Defined.

(** C3, as the code has it.  With [_JB2A] on, the first [.webm] is taken out
    of the path (base folder included), the path is split at [_], the last
    part is put in lower case and split at [x], and the first two pieces go
    through [Number]: when neither is NaN they are the dimensions, and
    neither the cache nor the probe is used; when one is NaN (or missing)
    the cache is asked and then the probe. *)
Theorem getFileDimensions_structured_name :
  forall (host : Host) (st : State) (inFile : FileVal),
    _JB2A (fields (this st)) = true ->
    let filePath := _baseFolder (fields (this st)) ++ file_to_string inFile in
    let parts := split "_" (replace ".webm" "" filePath) in
    let pieces := split "x" (toLowerCase (List.last parts "")) in
    (isNaN (pieces !! 0%nat) = false /\ isNaN (pieces !! 1%nat) = false ->
     _getFileDimensions host inFile st
     = Ok (Vec (Number (pieces !! 0%nat)) (Number (pieces !! 1%nat)), st))
    /\ (isNaN (pieces !! 0%nat) = true \/ isNaN (pieces !! 1%nat) = true ->
        _getFileDimensions host inFile st
        = match fileCache (sequence st) !! filePath with
          | Some c => Ok (c, st)
          | None =>
              match lib_getDimensions host filePath with
              | Ok c => Ok (c, after_probe filePath c st)
              | Throw e => Throw e
              end
          end).
Proof.
  intros host st inFile HJ filePath parts pieces. split.
  - intros [H0 H1]. apply getFileDimensions_from_name; [exact HJ|].
    fold filePath. unfold dimensions_in_name. fold parts. fold pieces.
    rewrite H0, H1. reflexivity.
  - intros H. apply getFileDimensions_fall_through. rewrite HJ.
    fold filePath. unfold dimensions_in_name. fold parts. fold pieces.
    destruct H as [-> | ->]; [reflexivity|].
    rewrite andb_false_r. reflexivity.
Qed.

(** [fire_200x150.webm] gives 200 by 150 and the probe is not called, and
    so does [FIRE_200X150.webm], whose last part is put in lower case
    before it is split; [fire_abcxdef.ext] goes to the probe. *)
Lemma getFileDimensions_structured_name_witness :
  let host := example_host (fun _ => 0) in
  let s := Builder.JB2A host true (Builder.constructor host (FString "")) in
  let st := start s empty_sequence 0 in
  _getFileDimensions host (FString "fire_200x150.webm") st
  = Ok (Vec (Fin 200) (Fin 150), st)
  /\ _getFileDimensions host (FString "fire_abcxdef.ext") st
     = Ok (Vec (Fin 400) (Fin 200),
           after_probe "fire_abcxdef.ext" (Vec (Fin 400) (Fin 200)) st)
  /\ _getFileDimensions host (FString "FIRE_200X150.webm") st
     = Ok (Vec (Fin 200) (Fin 150), st).
Proof.
  intros host s st. split; [|split].
  - apply (getFileDimensions_structured_name host st
             (FString "fire_200x150.webm") eq_refl).
    split; reflexivity.
  - apply (getFileDimensions_structured_name host st
             (FString "fire_abcxdef.ext") eq_refl).
    left. reflexivity.
  - apply (getFileDimensions_structured_name host st
             (FString "FIRE_200X150.webm") eq_refl).
    split; reflexivity.
Defined.

(** Only [.webm] is taken out of the path: with any other extension the
    second piece keeps it, [Number("150.e")] is NaN, and the name
    [fire_200x150.ext] is measured by the probe like any other. *)
Lemma structured_name_other_extension :
  let host := example_host (fun _ => 0) in
  let s := Builder.JB2A host true (Builder.constructor host (FString "")) in
  let st := start s empty_sequence 0 in
  split "x" (toLowerCase (List.last (split "_" "fire_200x150.ext") ""))
  = ["200"; "150.e"; "t"]
  /\ dimensions_in_name "fire_200x150.ext" = None
  /\ exists st',
       _getFileDimensions host (FString "fire_200x150.ext") st
       = Ok (Vec (Fin 400) (Fin 200), st')
       /\ probed st' = ["fire_200x150.ext"]
       /\ Vec (Fin 400) (Fin 200) <> Vec (Fin 200) (Fin 150).
Proof.
  intros host s st. split; [reflexivity|]. split; [reflexivity|].
  exists (after_probe "fire_200x150.ext" (Vec (Fin 400) (Fin 200)) st).
  split; [reflexivity|]. split; [reflexivity|]. discriminate.
Qed.

(** ** The hit vector *)

Lemma Qeq_bool_false (a : Q) : ~ a == 0 -> Qeq_bool a 0 = false.
Proof.
  intros H. destruct (Qeq_bool a 0) eqn:E; [|reflexivity].
  apply Qeq_bool_iff in E. contradiction.
Qed.

Lemma Qltb_false (a b : Q) : b <= a -> Qltb a b = false.
Proof.
  intros H. unfold Qltb. apply Qle_bool_iff in H. rewrite H. reflexivity.
Qed.

Lemma Qltb_true (a b : Q) : a < b -> Qltb a b = true.
Proof.
  intros H. unfold Qltb. destruct (Qle_bool b a) eqn:E; [|reflexivity].
  apply Qle_bool_iff in E. apply Qle_not_lt in E. contradiction.
Qed.

Lemma Qeq_bool_nonzero (a b : Q) :
  a == b -> ~ b == 0 -> Qeq_bool a 0 = false.
Proof.
  intros Hab Hb. destruct (Qeq_bool a 0) eqn:E; [|reflexivity].
  apply Qeq_bool_eq in E. rewrite Hab in E. contradiction.
Qed.

Lemma write_anchor_x_value v data st :
  (anchor data = SectionAnchor -> is_Some (_anchor (fields (this st)))) ->
  exists data' st',
    write_anchor_x v data st = Ok (data', st')
    /\ X (anchor_value (this st') data') = v
    /\ Y (anchor_value (this st') data') = Y (anchor_value (this st) data)
    /\ scale data' = scale data
    /\ position data' = position data
    /\ _distance data' = _distance data
    /\ rotation data' = rotation data
    /\ file data' = file data.
Proof.
  intros Hwf. unfold write_anchor_x, anchor_value.
  destruct (anchor data) as [a|] eqn:Ea.
  - eexists _, _. split; [reflexivity|]. simpl. tauto.
  - destruct (Hwf eq_refl) as [a Ha].
    eexists _, _. split; [reflexivity|]. simpl. rewrite Ea, Ha. simpl. tauto.
Qed.

(** C1. In a section that reaches ([_rotationOnly] off), for data with a
    travel distance other than 0, the hit vector takes the dimensions of the
    file, computes the true length [dimensions.x - startPoint - endPoint],
    and leaves [scale.x = distance / trueLength],
    [scale.y = max(0.4, scale.x)] and [anchor.x = startPoint / dimensions.x].
    For a file of a finite width [w] whose true length
    [w - _startPoint - _endPoint] is not 0, these are the quotient of the
    rationals, [Qmax] of 0.4 and that quotient (0.4 when the quotient is at
    most 0.4, the quotient when it is at least 0.4), and, for [w] other than
    0, the quotient of the start point and [w].  For a distance of 100, a
    width of 200 and both trim points 0 that is 0.5, 0.5 and 0. *)
Theorem calculateHitVector_reach :
  forall (host : Host) (data : Data) (st : State)
         (dimensions : vec num) (st1 : State),
    _rotationOnly (fields (this st)) = false ->
    Qeq_bool (_distance data) 0 = false ->
    _getFileDimensions host (file data) st = Ok (dimensions, st1) ->
    (anchor data = SectionAnchor -> is_Some (_anchor (fields (this st)))) ->
    let s := fields (this st) in
    let trueLength :=
      nsub (nsub (X dimensions) (Fin (_startPoint s))) (Fin (_endPoint s)) in
    exists data' st',
      reach host data st = Ok (data', st')
      /\ _calculateHitVector host data st = Ok (data', st')
      /\ _getTrueLength s dimensions = trueLength
      /\ X (scale data') = ndiv (Fin (_distance data)) trueLength
      /\ Y (scale data') = Math_max (Fin 0.4) (X (scale data'))
      /\ X (anchor_value (this st') data')
         = ndiv (Fin (_startPoint s)) (X dimensions)
      /\ (forall w : Q,
            X dimensions = Fin w ->
            let len := w - _startPoint s - _endPoint s in
            ~ len == 0 ->
            trueLength = Fin len
            /\ X (scale data') = Fin (_distance data / len)
            /\ Y (scale data') = Fin (Qmax 0.4 (_distance data / len))
            /\ (_distance data / len <= 0.4 ->
                num_eq (Y (scale data')) (Fin 0.4))
            /\ (0.4 <= _distance data / len ->
                num_eq (Y (scale data')) (Fin (_distance data / len)))
            /\ (~ w == 0 ->
                X (anchor_value (this st') data')
                = Fin (_startPoint s / w)))
      /\ (_distance data == 100 -> num_eq (X dimensions) (Fin 200) ->
          _startPoint s == 0 -> _endPoint s == 0 ->
          num_eq (X (scale data')) (Fin 0.5)
          /\ num_eq (Y (scale data')) (Fin 0.5)
          /\ num_eq (X (anchor_value (this st') data')) (Fin 0)).
Proof.
  intros host data st dimensions st1 Hro Hd Hdim Hwf s trueLength.
  pose proof (getFileDimensions_this _ _ _ _ _ Hdim) as Hthis.
  assert (Hreach : reach host data st = _calculateHitVector host data st)
    by (unfold reach; run_unfold; rewrite Hro; reflexivity).
  rewrite Hreach.
  unfold _calculateHitVector. rewrite Hd. run_unfold. rewrite Hdim.
  rewrite Hthis. fold s.
  set (d1 := set_scale _ (set_scale _ data)).
  destruct (write_anchor_x_value (ndiv (Fin (_startPoint s)) (X dimensions))
              d1 st1) as (data' & st' & Hw & Hx & _ & Hs & _).
  { rewrite Hthis. exact Hwf. }
  exists data', st'. split; [exact Hw|]. split; [exact Hw|].
  split; [reflexivity|].
  rewrite Hs, Hx. simpl. fold trueLength.
  split; [reflexivity|]. split; [reflexivity|]. split; [reflexivity|].
  split.
  - intros w Ew Hlen. unfold _getTrueLength in *. subst trueLength.
    set (len := w - _startPoint s - _endPoint s) in *.
    rewrite Ew. simpl.
    change (w + - _startPoint s + - _endPoint s) with len.
    rewrite (Qeq_bool_false len Hlen). simpl.
    split; [reflexivity|]. split; [reflexivity|]. split; [reflexivity|].
    split; [|split].
    + intros Hle. apply Q.max_l. exact Hle.
    + intros Hge. apply Q.max_r. exact Hge.
    + intros Hw0. rewrite (Qeq_bool_false w Hw0). reflexivity.
  - intros H100 H200 Hs0 He0. unfold _getTrueLength in *. subst trueLength.
    destruct (X dimensions) as [w| |]; simpl in H200; try contradiction.
    simpl.
    assert (Hlen : w + - _startPoint s + - _endPoint s == 200)
      by (rewrite H200, Hs0, He0; reflexivity).
    assert (Hw0 : Qeq_bool w 0 = false)
      by (apply (Qeq_bool_nonzero _ _ H200); discriminate).
    assert (Hl0 : Qeq_bool (w + - _startPoint s + - _endPoint s) 0 = false)
      by (apply (Qeq_bool_nonzero _ _ Hlen); discriminate).
    rewrite Hl0, Hw0. simpl.
    assert (Hsx : _distance data / (w + - _startPoint s + - _endPoint s)
                  == 0.5)
      by (rewrite H100, Hlen; reflexivity).
    split; [exact Hsx|]. split.
    + rewrite Hsx. reflexivity.
    + rewrite Hs0. reflexivity.
Qed.

(** An effect that reaches from (0,0) towards (100,0) with a video 200
    pixels wide and no trim points. *)
Definition reach_example (host : Host) : EffectSection :=
  Builder.reachTowards (LObject (Vec 100 0))
    (Builder.atLocation (LObject (Vec 0 0))
       (Builder.constructor host (FString "beam.webm"))).

Definition beam_sequence : Sequence :=
  {| cachedPositions := ∅;
     fileCache := {[ "beam.webm" := Vec (Fin 200) (Fin 100) ]} |}.

(** The same effect with a video 600 pixels wide of which the first 100 and
    the last 100 pixels are trimmed. *)
Definition trimmed_example (host : Host) : EffectSection :=
  Builder.endPoint 100 (Builder.startPoint 100 (reach_example host)).

Definition wide_beam_sequence : Sequence :=
  {| cachedPositions := ∅;
     fileCache := {[ "beam.webm" := Vec (Fin 600) (Fin 100) ]} |}.

(** Without trim points the 200 pixels stretch over 100: 0.5, 0.5 and 0.
    With the trimmed video 400 pixels stretch over 100: the x of the scale
    is 100 / (600 - 100 - 100) = 0.25, the y is held at 0.4, and the anchor
    is at 100 / 600 of the width. *)
Lemma calculateHitVector_reach_witness :
  let host := example_host (fun _ => 0) in
  (let st := start (reach_example host) beam_sequence 0 in
   exists data,
     place host 0 (initial_data (fields (this st))) st = Ok (data, st)
     /\ _distance data = 100
     /\ exists data' st',
          reach host data st = Ok (data', st')
          /\ num_eq (X (scale data')) (Fin 0.5)
          /\ num_eq (Y (scale data')) (Fin 0.5)
          /\ num_eq (X (anchor_value (this st') data')) (Fin 0))
  /\ (let st := start (trimmed_example host) wide_beam_sequence 0 in
      exists data,
        place host 0 (initial_data (fields (this st))) st = Ok (data, st)
        /\ _distance data = 100
        /\ exists data' st',
             reach host data st = Ok (data', st')
             /\ X (scale data') = Fin (100 / (600 - 100 - 100))
             /\ num_eq (X (scale data')) (Fin 0.25)
             /\ num_eq (Y (scale data')) (Fin 0.4)
             /\ X (anchor_value (this st') data') = Fin (100 / 600)).
Proof.
  intros host. split.
  - intros st. eexists. split; [vm_compute; reflexivity|].
    split; [reflexivity|].
    match goal with
    | |- exists data' st', reach _ ?d _ = _ /\ _ =>
        destruct (calculateHitVector_reach host d st
                    (Vec (Fin 200) (Fin 100)) st)
          as (data' & st' & Hrun & _ & _ & _ & _ & _ & _ & Hex);
        [reflexivity | reflexivity | reflexivity | discriminate |]
    end.
    exists data', st'. split; [exact Hrun|].
    apply Hex; reflexivity.
  - intros st. eexists. split; [vm_compute; reflexivity|].
    split; [reflexivity|].
    match goal with
    | |- exists data' st', reach _ ?d _ = _ /\ _ =>
        destruct (calculateHitVector_reach host d st
                    (Vec (Fin 600) (Fin 100)) st)
          as (data' & st' & Hrun & _ & _ & _ & _ & _ & Hq & _);
        [reflexivity | reflexivity | reflexivity | discriminate |]
    end.
    destruct (Hq 600 eq_refl) as (_ & Hx & Hy & Hfloor & _ & Ha);
      [discriminate|].
    exists data', st'. split; [exact Hrun|].
    split; [exact Hx|]. split; [rewrite Hx; reflexivity|].
    split; [apply Hfloor; discriminate|].
    apply Ha. discriminate.
Defined.

(** ** Runs that succeed

    [succeeds m st Q]: from [st] the computation [m] returns, and the value
    and the state it returns satisfy [Q]. *)

Definition succeeds {A} (m : M A) (st : State) (Q : A -> State -> Prop)
  : Prop :=
  exists a st', m st = Ok (a, st') /\ Q a st'.

Lemma succeeds_ret {A} (a : A) st (Q : A -> State -> Prop) :
  Q a st -> succeeds (mret a) st Q.
Proof. intros H. exists a, st. split; [reflexivity|exact H]. Qed.

(** Only the count of draws moves: the section, the sequence and the log of
    the probe are as before. *)
Definition only_draws (st st' : State) : Prop :=
  this st' = this st /\ sequence st' = sequence st
  /\ probed st' = probed st /\ (draws st <= draws st')%nat.

Lemma only_draws_refl st : only_draws st st.
Proof. unfold only_draws. auto. Qed.

Lemma only_draws_trans a b c :
  only_draws a b -> only_draws b c -> only_draws a c.
Proof.
  unfold only_draws. intros (-> & -> & -> & ?) (-> & -> & -> & ?).
  repeat split; lia.
Qed.

(** The state after [k] more draws. *)
Definition tick (k : nat) (st : State) : State :=
  {| this := this st; sequence := sequence st; draws := k + draws st;
     probed := probed st |}.

Lemma only_draws_tick k st : only_draws st (tick k st).
Proof. unfold only_draws, tick. simpl. repeat split; lia. Qed.

Lemma tick_0 st : tick 0 st = st.
Proof. by destruct st. Qed.

Lemma tick_tick j k st : tick j (tick k st) = tick (j + k) st.
Proof. unfold tick. simpl. f_equal. lia. Qed.

Lemma random_eq host st :
  random host st = Ok (Math_random host (draws st), tick 1 st).
Proof. reflexivity. Qed.

(** What the steps after the positions leave alone. *)
Definition same_placement (d d' : Data) : Prop :=
  position d' = position d /\ _distance d' = _distance d
  /\ rotation d' = rotation d /\ anchor d' = anchor d.

Lemma same_placement_refl d : same_placement d d.
Proof. unfold same_placement. auto. Qed.

Lemma same_placement_trans a b c :
  same_placement a b -> same_placement b c -> same_placement a c.
Proof.
  unfold same_placement. intros (-> & -> & -> & ->) (-> & -> & -> & ->). auto.
Qed.

Section Steps.

Context (host : Host).

Lemma random_rotation_eq data st :
  random_rotation host data st
  = if _randomRotation (fields (this st))
    then Ok (set_rotation
               (rotation data + Math_random host (draws st) * Math_PI) data,
             tick 1 st)
    else Ok (set_rotation (rotation data + 0) data, st).
Proof.
  unfold random_rotation. run_unfold.
  destruct (_randomRotation (fields (this st))); reflexivity.
Qed.

Lemma run_overrides_nil data st : run_overrides [] data st = Ok (data, st).
Proof. reflexivity. Qed.

Lemma pick_file_succeeds data st :
  succeeds (pick_file host data) st
    (fun d' st' =>
       only_draws st st' /\ same_placement data d' /\ scale d' = scale data
       /\ (forall f, file data = FString f ->
             file d' = FString f /\ st' = st)).
Proof.
  unfold pick_file. destruct (file data) as [f|l|] eqn:E.
  - apply succeeds_ret.
    split; [apply only_draws_refl|]. split; [apply same_placement_refl|].
    split; [reflexivity|]. intros g Hg. rewrite <- Hg. auto.
  - eexists _, _. split; [reflexivity|].
    split; [apply (only_draws_tick 1)|].
    split; [unfold same_placement; simpl; auto|].
    split; [reflexivity|]. discriminate.
  - apply succeeds_ret.
    split; [apply only_draws_refl|]. split; [apply same_placement_refl|].
    split; [reflexivity|]. discriminate.
Qed.

(** The template renders every file name. *)
Definition template_renders (s : Fields) : Prop :=
  forall m, _mustache s = Some m ->
    forall f, exists r, Handlebars_compile host f m = Ok r.

Lemma apply_mustache_succeeds data st :
  template_renders (fields (this st)) ->
  succeeds (apply_mustache host data) st
    (fun d' st' =>
       st' = st /\ same_placement data d' /\ scale d' = scale data
       /\ (_mustache (fields (this st)) = None -> d' = data)
       /\ ((exists f, file data = FString f) -> exists f, file d' = FString f)).
Proof.
  intros Ht. unfold succeeds, apply_mustache. run_unfold.
  destruct (_mustache (fields (this st))) as [m|] eqn:E.
  - destruct (Ht m E (file data)) as [r Hr].
    eexists _, _. rewrite Hr. split; [reflexivity|].
    split; [reflexivity|]. split; [unfold same_placement; simpl; auto|].
    split; [reflexivity|]. split; [discriminate|]. simpl. eauto.
  - eexists _, _. split; [reflexivity|].
    split; [reflexivity|]. split; [apply same_placement_refl|]. auto.
Qed.

Lemma normalize_grid_eq data st :
  normalize_grid host data st
  = Ok (set_scale
          (Vec (nmul (X (scale data)) (grid_ratio host (fields (this st))))
               (nmul (Y (scale data)) (grid_ratio host (fields (this st)))))
          data, st).
Proof. reflexivity. Qed.

(** No hit vector in rotation-only mode, nor for a distance of 0. *)
Lemma reach_skipped data st :
  _rotationOnly (fields (this st)) = true \/ Qeq_bool (_distance data) 0 = true ->
  reach host data st = Ok (data, st).
Proof.
  intros H. unfold reach, _calculateHitVector. run_unfold.
  destruct (_rotationOnly (fields (this st))); [reflexivity|].
  destruct H as [H|H]; [discriminate|]. rewrite H. reflexivity.
Qed.

(** The scale that [scale(...)] configured, given the draw it may use. *)
Definition scale_factor (s : Fields) (r : Q) : option Q * option Q :=
  match _scaleMin s with
  | ScaleNumber lo =>
      let v := match _scaleMax s with
               | Some hi => if Qeq_bool hi 0 then lo else uniform lo hi r
               | None => lo
               end in
      (Some v, Some v)
  | ScaleObject sx sy => (sx, sy)
  | ScaleFalse => (None, None)
  end.

(** Whether the configured scale is drawn at random. *)
Definition scale_draws (s : Fields) : nat :=
  match _scaleMin s, _scaleMax s with
  | ScaleNumber _, Some hi => if Qeq_bool hi 0 then 0 else 1
  | _, _ => 0
  end.

Lemma configured_scale_eq st :
  configured_scale host st
  = Ok (scale_factor (fields (this st)) (Math_random host (draws st)),
        tick (scale_draws (fields (this st))) st).
Proof.
  unfold configured_scale, scale_factor, scale_draws. run_unfold.
  destruct (_scaleMin (fields (this st))) as [|lo|sx sy];
    rewrite ?tick_0; try reflexivity.
  destruct (_scaleMax (fields (this st))) as [hi|]; rewrite ?tick_0;
    [|reflexivity].
  destruct (Qeq_bool hi 0); rewrite ?tick_0; reflexivity.
Qed.

Lemma apply_scale_eq data st :
  apply_scale host data st
  = let f := scale_factor (fields (this st)) (Math_random host (draws st)) in
    Ok (set_scale (Vec (nmul (X (scale data)) (Fin (default 1 (fst f))))
                       (nmul (Y (scale data)) (Fin (default 1 (snd f)))))
                  data,
        tick (scale_draws (fields (this st))) st).
Proof.
  unfold apply_scale. run_unfold. rewrite configured_scale_eq.
  destruct (scale_factor _ _). reflexivity.
Qed.

Lemma random_flip_eq flag st :
  random_flip host flag st
  = Ok (if flag then flip (Math_random host (draws st)) else 1,
        tick (if flag then 1 else 0) st).
Proof. destruct flag; simpl; rewrite ?tick_0; reflexivity. Qed.

Lemma mirror_eq data st :
  mirror host data st
  = let s := fields (this st) in
    let ix := if _randomX s then 1%nat else 0%nat in
    let iy := if _randomY s then 1%nat else 0%nat in
    let flipX := if _randomX s then flip (Math_random host (draws st)) else 1 in
    let flipY :=
      if _randomY s then flip (Math_random host (ix + draws st)) else 1 in
    Ok (set_scale (Vec (nmul (X (scale data)) (Fin flipX))
                       (nmul (Y (scale data)) (Fin flipY))) data,
        tick (iy + ix) st).
Proof.
  unfold mirror. run_unfold. rewrite random_flip_eq.
  cbv zeta. rewrite random_flip_eq. rewrite tick_tick. reflexivity.
Qed.

Lemma prepend_base_folder_eq data st :
  prepend_base_folder data st
  = Ok (set_file (FString (_baseFolder (fields (this st))
                           ++ file_to_string (file data))) data, st).
Proof. reflexivity. Qed.

(** After the base folder is put in front, the file is a string and the
    name of the run is defined. *)
Lemma getName_of_string s data f :
  file data = FString f -> exists n, _getName s data = Ok n.
Proof.
  intros E. unfold _getName, name_from_file. rewrite E.
  destruct (_name s) as [n|]; [destruct (String.eqb n "")|];
    try destruct (String.eqb f ""); eauto.
Qed.

Lemma record_position_eq rep data st n :
  _getName (fields (this st)) data = Ok n ->
  record_position rep data st
  = Ok (data,
        set_sequence
          {| cachedPositions :=
               <[(n, rep) := position data]> (cachedPositions (sequence st));
             fileCache := fileCache (sequence st) |} st).
Proof.
  intros E. unfold record_position, _insertCachedPosition. run_unfold.
  rewrite E. reflexivity.
Qed.

End Steps.

(** ** Missed positions *)

Lemma Qdiv5 (g : Q) : g / 5 == g * (1 # 5).
Proof. reflexivity. Qed.

Lemma Qdiv2 (g : Q) : g / 2 == g * (1 # 2).
Proof. reflexivity. Qed.

Lemma uniform_range (lo hi r : Q) :
  lo <= hi -> 0 <= r -> r < 1 -> lo <= uniform lo hi r /\ uniform lo hi r <= hi.
Proof.
  intros Hlh H0 H1. unfold uniform.
  assert (0 <= r * (hi - lo)) by (apply Qmult_le_0_compat; lra).
  assert (0 <= (1 - r) * (hi - lo)) by (apply Qmult_le_0_compat; lra).
  split; lra.
Qed.

Lemma flip_sign (r : Q) : flip r = 1 \/ flip r = -1.
Proof. unfold flip. destruct (Qltb r 0.5); auto. Qed.

(** The five draws of a miss, in the order the source makes them: the axis,
    the two signs, the offset along x, the offset along y. *)
Lemma calculateMissedPosition_eq host target position st :
  _calculateMissedPosition host target position true st
  = let grid := canvas_grid_size host in
    let width := location_width target * grid in
    let height := location_height target * grid in
    let draw := fun i => Math_random host (i + draws st)%nat in
    let flipX := flip (draw 1%nat) in
    let flipY := flip (draw 2%nat) in
    Ok (if Qltb (draw 0%nat) 0.5
        then Vec (X position
                  + (width / 2 + uniform (grid / 5) (grid / 2) (draw 3%nat))
                    * flipX)
                 (Y position
                  + uniform (grid / 5) (height / 2 + grid / 2) (draw 4%nat)
                    * flipY)
        else Vec (X position
                  + uniform (grid / 5) (width / 2 + grid / 2) (draw 3%nat)
                    * flipX)
                 (Y position
                  + (height / 2 + uniform (grid / 5) (grid / 2) (draw 4%nat))
                    * flipY),
        tick 5 st).
Proof.
  unfold _calculateMissedPosition, random_float_between, random, tick.
  run_unfold. change (negb true) with false. cbv beta iota zeta.
  cbn [draws this sequence probed Nat.add].
  destruct (Qltb (Math_random host (draws st)) 0.5); reflexivity.
Qed.

Lemma calculateMissedPosition_hit host target position st :
  _calculateMissedPosition host target position false st = Ok (position, st).
Proof. reflexivity. Qed.

(** C2. A miss draws the primary axis (x when the first draw is below one
    half, y otherwise) and the two signs (-1 when the second, respectively
    the third, draw is below one half, 1 otherwise).  The extents are those
    of the reference: [data.width] and [data.height] of a token or a
    template, 1 where the field is missing and for every reference without
    dimensions, times the grid size.  The primary coordinate moves by half
    the extent plus an offset between a fifth and a half of the grid size,
    with its sign; the other coordinate moves by an offset between a fifth
    of the grid size and half the other extent plus half the grid size,
    with its own sign.  On the primary axis the point is strictly outside
    the box of that extent around the position, on the side of the sign. *)
Theorem calculateMissedPosition_outside :
  forall (host : Host) (target : Location) (position : vec Q) (st : State),
    0 < canvas_grid_size host ->
    (forall n, 0 <= Math_random host n /\ Math_random host n < 1) ->
    let grid := canvas_grid_size host in
    let draw := fun i => Math_random host (i + draws st)%nat in
    exists (p : vec Q) (w h primary other signX signY : Q),
      _calculateMissedPosition host target position true st
      = Ok (p, tick 5 st)
      /\ (forall t, target = LToken t ->
            (forall v, data_width t = Some v -> w = v)
            /\ (data_width t = None -> w = 1)
            /\ (forall v, data_height t = Some v -> h = v)
            /\ (data_height t = None -> h = 1))
      /\ (forall t shape ray_end, target = LTemplate t shape ray_end ->
            (forall v, data_width t = Some v -> w = v)
            /\ (data_width t = None -> w = 1)
            /\ (forall v, data_height t = Some v -> h = v)
            /\ (data_height t = None -> h = 1))
      /\ ((forall t, target <> LToken t) ->
          (forall t shape ray_end, target <> LTemplate t shape ray_end) ->
          w = 1 /\ h = 1)
      /\ w = location_width target /\ h = location_height target
      /\ (draw 1%nat < 0.5 -> signX = -1) /\ (0.5 <= draw 1%nat -> signX = 1)
      /\ (draw 2%nat < 0.5 -> signY = -1) /\ (0.5 <= draw 2%nat -> signY = 1)
      /\ grid / 5 <= primary /\ primary <= grid / 2
      /\ (draw 0%nat < 0.5 ->
          primary = draw 3%nat * (grid / 2 - grid / 5) + grid / 5
          /\ other
             = draw 4%nat * (h * grid / 2 + grid / 2 - grid / 5) + grid / 5
          /\ (0 <= h ->
              grid / 5 <= other /\ other <= h * grid / 2 + grid / 2)
          /\ X p = X position + (w * grid / 2 + primary) * signX
          /\ Y p = Y position + other * signY
          /\ (draw 1%nat < 0.5 -> X p < X position - w * grid / 2)
          /\ (0.5 <= draw 1%nat -> X position + w * grid / 2 < X p)
          /\ (X p < X position - w * grid / 2
              \/ X position + w * grid / 2 < X p))
      /\ (0.5 <= draw 0%nat ->
          primary = draw 4%nat * (grid / 2 - grid / 5) + grid / 5
          /\ other
             = draw 3%nat * (w * grid / 2 + grid / 2 - grid / 5) + grid / 5
          /\ (0 <= w ->
              grid / 5 <= other /\ other <= w * grid / 2 + grid / 2)
          /\ X p = X position + other * signX
          /\ Y p = Y position + (h * grid / 2 + primary) * signY
          /\ (draw 2%nat < 0.5 -> Y p < Y position - h * grid / 2)
          /\ (0.5 <= draw 2%nat -> Y position + h * grid / 2 < Y p)
          /\ (Y p < Y position - h * grid / 2
              \/ Y position + h * grid / 2 < Y p)).
Proof.
  intros host target position st Hgrid Hrange grid draw.
  rewrite calculateMissedPosition_eq. subst grid draw.
  cbv beta zeta.
  set (grid := canvas_grid_size host) in *.
  set (w := location_width target). set (h := location_height target).
  destruct (Hrange (3 + draws st)%nat) as [H30 H31].
  destruct (Hrange (4 + draws st)%nat) as [H40 H41].
  pose proof (Qdiv5 grid) as G5. pose proof (Qdiv2 grid) as G2.
  pose proof (Qdiv2 (w * grid)) as W2. pose proof (Qdiv2 (h * grid)) as H2.
  assert (Hlohi : grid / 5 <= grid / 2) by lra.
  set (r0 := Math_random host (0 + draws st)).
  set (r1 := Math_random host (1 + draws st)).
  set (r2 := Math_random host (2 + draws st)).
  set (r3 := Math_random host (3 + draws st)) in *.
  set (r4 := Math_random host (4 + draws st)) in *.
  assert (Hp3 := uniform_range (grid / 5) (grid / 2) r3 Hlohi H30 H31).
  assert (Hp4 := uniform_range (grid / 5) (grid / 2) r4 Hlohi H40 H41).
  assert (Hx1 : r1 < 0.5 -> flip r1 = -1)
    by (intros H; unfold flip; rewrite Qltb_true by exact H; reflexivity).
  assert (Hx2 : 0.5 <= r1 -> flip r1 = 1)
    by (intros H; unfold flip; rewrite Qltb_false by exact H; reflexivity).
  assert (Hy1 : r2 < 0.5 -> flip r2 = -1)
    by (intros H; unfold flip; rewrite Qltb_true by exact H; reflexivity).
  assert (Hy2 : 0.5 <= r2 -> flip r2 = 1)
    by (intros H; unfold flip; rewrite Qltb_false by exact H; reflexivity).
  assert (Hext :
    (forall t, target = LToken t ->
       (forall v, data_width t = Some v -> w = v)
       /\ (data_width t = None -> w = 1)
       /\ (forall v, data_height t = Some v -> h = v)
       /\ (data_height t = None -> h = 1))
    /\ (forall t shape ray_end, target = LTemplate t shape ray_end ->
          (forall v, data_width t = Some v -> w = v)
          /\ (data_width t = None -> w = 1)
          /\ (forall v, data_height t = Some v -> h = v)
          /\ (data_height t = None -> h = 1))
    /\ ((forall t, target <> LToken t) ->
        (forall t shape ray_end, target <> LTemplate t shape ray_end) ->
        w = 1 /\ h = 1)).
  { subst w h. split; [|split].
    - intros t ->. simpl.
      split; [|split; [|split]]; intros;
        match goal with E : _ = _ |- _ => rewrite E end; reflexivity.
    - intros t shape ray_end ->. simpl.
      split; [|split; [|split]]; intros;
        match goal with E : _ = _ |- _ => rewrite E end; reflexivity.
    - intros Ht Hm. destruct target as [| | |t|t shape ray_end];
        try (split; reflexivity).
      + destruct (Ht t eq_refl).
      + destruct (Hm t shape ray_end eq_refl). }
  destruct Hext as (Ht & Hm & Ho).
  destruct (Qltb r0 0.5) eqn:Haxis.
  - exists (Vec (X position
                 + (w * grid / 2 + uniform (grid / 5) (grid / 2) r3)
                   * flip r1)
                (Y position
                 + uniform (grid / 5) (h * grid / 2 + grid / 2) r4
                   * flip r2)),
           w, h,
           (uniform (grid / 5) (grid / 2) r3),
           (uniform (grid / 5) (h * grid / 2 + grid / 2) r4),
           (flip r1), (flip r2).
    split; [reflexivity|].
    split; [exact Ht|]. split; [exact Hm|]. split; [exact Ho|].
    split; [reflexivity|]. split; [reflexivity|].
    split; [exact Hx1|]. split; [exact Hx2|].
    split; [exact Hy1|]. split; [exact Hy2|].
    split; [apply Hp3|]. split; [apply Hp3|].
    split.
    + intros _.
      split; [reflexivity|]. split; [reflexivity|].
      split; [intros Hpos; apply uniform_range; auto;
              pose proof (Qmult_le_0_compat _ _ Hpos (Qlt_le_weak _ _ Hgrid));
              lra|].
      split; [reflexivity|]. split; [reflexivity|].
      cbn [X Y].
      split; [intros H; rewrite (Hx1 H); lra|].
      split; [intros H; rewrite (Hx2 H); lra|].
      destruct (flip_sign r1) as [-> | ->]; lra.
    + intros Hge. rewrite (Qltb_false _ _ Hge) in Haxis. discriminate.
  - exists (Vec (X position
                 + uniform (grid / 5) (w * grid / 2 + grid / 2) r3
                   * flip r1)
                (Y position
                 + (h * grid / 2 + uniform (grid / 5) (grid / 2) r4)
                   * flip r2)),
           w, h,
           (uniform (grid / 5) (grid / 2) r4),
           (uniform (grid / 5) (w * grid / 2 + grid / 2) r3),
           (flip r1), (flip r2).
    split; [reflexivity|].
    split; [exact Ht|]. split; [exact Hm|]. split; [exact Ho|].
    split; [reflexivity|]. split; [reflexivity|].
    split; [exact Hx1|]. split; [exact Hx2|].
    split; [exact Hy1|]. split; [exact Hy2|].
    split; [apply Hp4|]. split; [apply Hp4|].
    split.
    + intros Hlt. rewrite (Qltb_true _ _ Hlt) in Haxis. discriminate.
    + intros _.
      split; [reflexivity|]. split; [reflexivity|].
      split; [intros Hpos; apply uniform_range; auto;
              pose proof (Qmult_le_0_compat _ _ Hpos (Qlt_le_weak _ _ Hgrid));
              lra|].
      split; [reflexivity|]. split; [reflexivity|].
      cbn [X Y].
      split; [intros H; rewrite (Hy1 H); lra|].
      split; [intros H; rewrite (Hy2 H); lra|].
      destruct (flip_sign r2) as [-> | ->]; lra.
Qed.

(** A token two grid units wide and three high around (500,500) on a grid
    of 100.  The draws of [miss_draws a] are [a] for the axis, three
    quarters and one quarter for the signs and one half for both offsets:
    the x sign is 1 and the y sign is -1. *)
Definition wide_token : Location :=
  LToken {| center := Some (Vec 500 500); placeable_x := Some 400;
            placeable_y := Some 350; data_width := Some 2;
            data_height := Some 3 |}.

Definition miss_draws (axis : Q) (n : nat) : Q :=
  match n with
  | O => axis
  | 1%nat => 3 # 4
  | 2%nat => 1 # 4
  | _ => 1 # 2
  end.

(** With x as the primary axis the x of the point is 500 + (100 + 35), past
    the edge of the token at 600, and the y is 500 - 110.  With y as the
    primary axis the y is 500 - (150 + 35), before the edge at 350, and the
    x is 500 + 85.  A point as the reference counts as one grid unit wide
    and high: the x is 500 + (50 + 35) and the y is 500 - 60. *)
Lemma calculateMissedPosition_outside_witness :
  let s := fun host => start (Builder.constructor host (FString "a.webm"))
                             empty_sequence 0 in
  (let host := example_host (miss_draws (1 # 4)) in
   exists p,
     _calculateMissedPosition host wide_token (Vec 500 500) true (s host)
     = Ok (p, tick 5 (s host))
     /\ X p == 635 /\ Y p == 390 /\ 500 + 2 * 100 / 2 < X p)
  /\ (let host := example_host (miss_draws (3 # 4)) in
      exists p,
        _calculateMissedPosition host wide_token (Vec 500 500) true (s host)
        = Ok (p, tick 5 (s host))
        /\ X p == 585 /\ Y p == 315 /\ Y p < 500 - 3 * 100 / 2)
  /\ (let host := example_host (miss_draws (1 # 4)) in
      exists p,
        _calculateMissedPosition host (LObject (Vec 500 500)) (Vec 500 500)
          true (s host)
        = Ok (p, tick 5 (s host))
        /\ X p == 585 /\ Y p == 440 /\ 500 + 1 * 100 / 2 < X p).
Proof.
  assert (Hr : forall a, 0 <= a -> a < 1 ->
               forall n, 0 <= miss_draws a n /\ miss_draws a n < 1).
  { intros a H0 H1 [|[|[|n]]]; simpl; split;
      solve [assumption | discriminate | reflexivity]. }
  intros s. split; [|split].
  - intros host.
    destruct (calculateMissedPosition_outside host wide_token (Vec 500 500)
                (s host))
      as (p & w & h & primary & other & signX & signY & Hrun & Ht & _ & _ & _
          & _ & _ & Hsx & Hsy & _ & _ & _ & Hcase & _).
    + reflexivity.
    + apply Hr; [discriminate | reflexivity].
    + destruct (Ht _ eq_refl) as (Hw & _ & Hh & _).
      specialize (Hw _ eq_refl). specialize (Hh _ eq_refl).
      destruct Hcase as (Hp & Ho & _ & HX & HY & _ & Hout & _);
        [reflexivity|].
      exists p. split; [exact Hrun|].
      split; [|split].
      * rewrite HX, Hp, Hw, Hsx by discriminate. reflexivity.
      * rewrite HY, Ho, Hh, Hsy by reflexivity. reflexivity.
      * rewrite Hw in Hout. apply Hout. discriminate.
  - intros host.
    destruct (calculateMissedPosition_outside host wide_token (Vec 500 500)
                (s host))
      as (p & w & h & primary & other & signX & signY & Hrun & Ht & _ & _ & _
          & _ & _ & Hsx & Hsy & _ & _ & _ & _ & Hcase).
    + reflexivity.
    + apply Hr; [discriminate | reflexivity].
    + destruct (Ht _ eq_refl) as (Hw & _ & Hh & _).
      specialize (Hw _ eq_refl). specialize (Hh _ eq_refl).
      destruct Hcase as (Hp & Ho & _ & HX & HY & Hout & _);
        [discriminate|].
      exists p. split; [exact Hrun|].
      split; [|split].
      * rewrite HX, Ho, Hw, Hsx by discriminate. reflexivity.
      * rewrite HY, Hp, Hh, Hsy by reflexivity. reflexivity.
      * rewrite Hh in Hout. apply Hout. reflexivity.
  - intros host.
    destruct (calculateMissedPosition_outside host (LObject (Vec 500 500))
                (Vec 500 500) (s host))
      as (p & w & h & primary & other & signX & signY & Hrun & _ & _ & Hpt
          & _ & _ & _ & Hsx & Hsy & _ & _ & _ & Hcase & _).
    + reflexivity.
    + apply Hr; [discriminate | reflexivity].
    + destruct Hpt as (Hw & Hh); [discriminate | discriminate |].
      destruct Hcase as (Hp & Ho & _ & HX & HY & _ & Hout & _);
        [reflexivity|].
      exists p. split; [exact Hrun|].
      split; [|split].
      * rewrite HX, Hp, Hw, Hsx by discriminate. reflexivity.
      * rewrite HY, Ho, Hh, Hsy by reflexivity. reflexivity.
      * rewrite Hw in Hout. apply Hout. discriminate.
Defined.

(** ** Positions *)

Ltac draws_step :=
  first
    [ apply stable_ret; solve [auto using only_draws_refl]
    | apply stable_get_this; solve [auto using only_draws_refl]
    | apply stable_lift; solve [auto using only_draws_refl]
    | apply stable_bind; [ exact only_draws_trans | | intros ? ] ].

Section Positions.

Context (host : Host).

Lemma draws_getCachedPosition n rep :
  stable only_draws (_getCachedPosition n rep).
Proof.
  intros st a st' H. unfold _getCachedPosition in H.
  destruct (cachedPositions (sequence st) !! (n, rep)); inversion H.
  apply only_draws_refl.
Qed.

Lemma draws_resolve_name rep l : stable only_draws (resolve_name rep l).
Proof.
  destruct l; simpl; try draws_step.
  - apply draws_getCachedPosition.
  - draws_step.
Qed.

Lemma draws_calculateMissedPosition target position missed :
  stable only_draws (_calculateMissedPosition host target position missed).
Proof.
  destruct missed.
  - intros st a st' H. rewrite calculateMissedPosition_eq in H.
    inversion H. apply only_draws_tick.
  - intros st a st' H. inversion H. apply only_draws_refl.
Qed.

Lemma draws_calculatePositions rep from to missed :
  stable only_draws (_calculatePositions host rep from to missed).
Proof.
  unfold _calculatePositions.
  do 2 (draws_step; [apply draws_resolve_name|]).
  draws_step; [apply draws_calculateMissedPosition|].
  draws_step; [|draws_step].
  destruct (truthy a0); [|draws_step].
  draws_step; [apply draws_calculateMissedPosition|draws_step].
Qed.

Lemma draws_place rep data : stable only_draws (place host rep data).
Proof.
  unfold place. draws_step; [draws_step|].
  destruct (truthy (_from a)); [|draws_step].
  draws_step; [apply draws_calculatePositions|].
  destruct a0 as [origin target].
  destruct (truthy (_to a)); draws_step.
Qed.

(** A reference counts as recorded unless it is a name without a position
    for the repetition. *)
Definition name_recorded (rep : nat) (l : Location) (st : State) : Prop :=
  match l with
  | LName n => is_Some (cachedPositions (sequence st) !! (n, rep))
  | _ => True
  end.

(** The reference after [resolve_name]. *)
Definition resolved (rep : nat) (l : Location) (st : State) : Location :=
  match l with
  | LName n =>
      match cachedPositions (sequence st) !! (n, rep) with
      | Some p => LObject p
      | None => l
      end
  | _ => l
  end.

Lemma resolve_name_recorded rep l st :
  name_recorded rep l st ->
  resolve_name rep l st = Ok (resolved rep l st, st).
Proof.
  destruct l as [|n|p|t|t shape b]; simpl; try reflexivity.
  intros [p Hp]. unfold _getCachedPosition. run_unfold. rewrite Hp.
  reflexivity.
Qed.

Lemma resolve_name_unrecorded rep n st :
  cachedPositions (sequence st) !! (n, rep) = None ->
  resolve_name rep (LName n) st = Throw UnresolvedNameError.
Proof.
  intros H. simpl. unfold _getCachedPosition. run_unfold. rewrite H.
  reflexivity.
Qed.

Lemma resolve_name_outcome rep l st :
  (exists l', resolve_name rep l st = Ok (l', st))
  \/ resolve_name rep l st = Throw UnresolvedNameError.
Proof.
  destruct l as [|n|p|t|t shape b]; simpl; eauto.
  unfold _getCachedPosition. run_unfold.
  destruct (cachedPositions (sequence st) !! (n, rep)); eauto.
Qed.

(** The position of a target: the far end of the ray for a cone or a ray. *)
Definition target_position (to : Location) : vec Q :=
  match to with
  | LTemplate _ shape ray_B =>
      if is_cone_or_ray shape then ray_B
      else Vec (location_x to) (location_y to)
  | _ => Vec (location_x to) (location_y to)
  end.

(** Without a miss both positions are those of the references. *)
Lemma calculatePositions_hit rep from to st :
  name_recorded rep from st -> name_recorded rep to st ->
  _calculatePositions host rep from to false st
  = Ok ((Vec (location_x (resolved rep from st))
             (location_y (resolved rep from st)),
         if truthy (resolved rep to st)
         then Some (target_position (resolved rep to st)) else None), st).
Proof.
  intros Hf Ht. unfold _calculatePositions. run_unfold.
  rewrite (resolve_name_recorded _ _ _ Hf), (resolve_name_recorded _ _ _ Ht).
  rewrite andb_false_r. rewrite calculateMissedPosition_hit.
  unfold target_position.
  destruct (resolved rep to st) as [|n|p|t|t shape b]; try reflexivity.
  destruct (truthy (LName n)); reflexivity.
Qed.

(** A name that was not recorded for the repetition stops the run. *)
Lemma calculatePositions_unrecorded rep from to missed st n :
  from = LName n \/ to = LName n ->
  cachedPositions (sequence st) !! (n, rep) = None ->
  _calculatePositions host rep from to missed st = Throw UnresolvedNameError.
Proof.
  intros Hn Hnone. unfold _calculatePositions. run_unfold.
  destruct Hn as [-> | ->].
  - rewrite (resolve_name_unrecorded _ _ _ Hnone). reflexivity.
  - destruct (resolve_name_outcome rep from st) as [[l' ->] | ->];
      [|reflexivity].
    rewrite (resolve_name_unrecorded _ _ _ Hnone). reflexivity.
Qed.

End Positions.

Section Placing.

Context (host : Host).

Lemma calculatePositions_succeeds rep from to missed st :
  name_recorded rep from st -> name_recorded rep to st ->
  exists origin target st',
    _calculatePositions host rep from to missed st
    = Ok ((origin, target), st').
Proof.
  intros Hf Ht. unfold _calculatePositions. run_unfold.
  rewrite (resolve_name_recorded _ _ _ Hf), (resolve_name_recorded _ _ _ Ht).
  destruct (negb (truthy (resolved rep to st)) && missed);
    [rewrite calculateMissedPosition_eq|rewrite calculateMissedPosition_hit];
    cbv zeta.
  all: destruct (truthy (resolved rep to st)); [|eauto].
  all: destruct missed;
    [rewrite calculateMissedPosition_eq|rewrite calculateMissedPosition_hit];
    cbv zeta; eauto.
Qed.

(** The anchor with which the data leaves the positioning step. *)
Definition placed_anchor (s : Fields) : AnchorRef :=
  match _anchor s with
  | Some _ => SectionAnchor
  | None =>
      if truthy (_from s)
      then if truthy (_to s)
           then OwnAnchor (Vec (Fin 0) (Fin 0.5))
           else OwnAnchor (Vec (Fin 0.5) (Fin 0.5))
      else OwnAnchor (Vec (Fin 0) (Fin 0))
  end.

Lemma place_result rep st data st' :
  place host rep (initial_data (fields (this st))) st = Ok (data, st') ->
  only_draws st st'
  /\ anchor data = placed_anchor (fields (this st))
  /\ scale data = Vec (Fin 1) (Fin 1)
  /\ file data = _file (fields (this st))
  /\ (truthy (_from (fields (this st))) && truthy (_to (fields (this st)))
      = false ->
      _distance data = 0 /\ rotation data = 0).
Proof.
  intros H. split; [exact (draws_place host rep _ _ _ _ H)|].
  revert H. unfold place, initial_data, placed_anchor. run_unfold.
  destruct (truthy (_from (fields (this st)))).
  - destruct (_calculatePositions _ _ _ _ _ _) as [[[origin target] st1]|e];
      [|discriminate].
    destruct (truthy (_to (fields (this st))));
      destruct (_anchor (fields (this st)));
      intros H; inversion H; subst; simpl; repeat split; tauto || discriminate.
  - destruct (_anchor (fields (this st)));
      intros H; inversion H; subst; simpl; repeat split; tauto.
Qed.

Lemma place_succeeds rep st :
  (truthy (_from (fields (this st))) = true ->
   name_recorded rep (_from (fields (this st))) st
   /\ name_recorded rep (_to (fields (this st))) st) ->
  exists data st',
    place host rep (initial_data (fields (this st))) st = Ok (data, st').
Proof.
  intros Hrec. unfold place. run_unfold.
  destruct (truthy (_from (fields (this st)))); [|eauto].
  destruct Hrec as [Hf Ht]; [reflexivity|].
  destruct (calculatePositions_succeeds rep _ _
              (_missed (fields (this st))) st Hf Ht)
    as (origin & target & st1 & ->).
  destruct (truthy (_to (fields (this st)))); eauto.
Qed.

End Placing.

(** ** Runs without overrides and without a hit vector *)

Lemma bind_eq {A B} (m : M A) (k : A -> M B) st a st' :
  m st = Ok (a, st') -> (m ≫= k) st = k a st'.
Proof. intros H. run_unfold. rewrite H. reflexivity. Qed.

(** From the data that [place] returns, a section without overrides whose
    hit vector is skipped runs to the end: the steps that follow touch the
    file, the rotation and the scale, and the position is recorded under the
    name of the run. *)
Lemma sanitizeData_after_place host rep st data st1 :
  _overrides (this st) = [] -> _postOverrides (this st) = [] ->
  place host rep (initial_data (fields (this st))) st = Ok (data, st1) ->
  _rotationOnly (fields (this st)) = true
  \/ Qeq_bool (_distance data) 0 = true ->
  template_renders host (fields (this st)) ->
  exists data' st' n,
    _sanitizeData host rep st = Ok (data', st')
    /\ position data' = position data
    /\ _distance data' = _distance data
    /\ anchor data' = anchor data
    /\ rotation data'
       = rotation data
         + (if _randomRotation (fields (this st))
            then Math_random host (draws st1) * Math_PI else 0)
    /\ this st' = this st
    /\ _getName (fields (this st)) data' = Ok n
    /\ cachedPositions (sequence st')
       = <[(n, rep) := position data]> (cachedPositions (sequence st))
    /\ fileCache (sequence st') = fileCache (sequence st)
    /\ probed st' = probed st.
Proof.
  intros Hpre Hpost Hplace Hskip Hrender.
  destruct (draws_place host rep _ _ _ _ Hplace) as (T1 & S1 & P1 & _).
  unfold _sanitizeData.
  rewrite (bind_eq _ _ st (fields (this st)) st eq_refl).
  rewrite (bind_eq _ _ _ _ _ Hplace).
  set (r := if _randomRotation (fields (this st))
            then Math_random host (draws st1) * Math_PI else 0).
  assert (exists st2,
    random_rotation host data st1
    = Ok (set_rotation (rotation data + r) data, st2)
    /\ only_draws st1 st2) as (st2 & Hrot & (T2 & S2 & P2 & _)).
  { rewrite random_rotation_eq, T1. subst r.
    destruct (_randomRotation (fields (this st)));
      eauto using only_draws_tick, only_draws_refl. }
  rewrite (bind_eq _ _ _ _ _ Hrot).
  rewrite (bind_eq _ _ st2 (_overrides (this st2)) st2 eq_refl).
  rewrite T2, T1, Hpre.
  rewrite (bind_eq _ _ _ _ _ (run_overrides_nil _ _)).
  destruct (pick_file_succeeds host (set_rotation (rotation data + r) data)
              st2) as (d3 & st3 & Hpick & (T3 & S3 & P3 & _) & Hd3 & _).
  rewrite (bind_eq _ _ _ _ _ Hpick).
  destruct (apply_mustache_succeeds host d3 st3) as
    (d4 & st4 & Hmust & -> & Hd4 & _).
  { rewrite T3, T2, T1. exact Hrender. }
  rewrite (bind_eq _ _ _ _ _ Hmust).
  rewrite (bind_eq _ _ _ _ _ (normalize_grid_eq host d4 st3)).
  pose proof (same_placement_trans _ _ _ Hd3 Hd4) as (Hp & Hdist & Hr & Ha).
  simpl in Hp, Hdist, Hr, Ha.
  match goal with
  | |- context [reach host ?d] =>
      assert (Hreach : reach host d st3 = Ok (d, st3))
        by (apply reach_skipped; rewrite T3, T2, T1; simpl; rewrite Hdist;
            exact Hskip)
  end.
  rewrite (bind_eq _ _ _ _ _ Hreach).
  rewrite (bind_eq _ _ _ _ _ (apply_scale_eq host _ st3)). cbv zeta.
  rewrite (bind_eq _ _ _ _ _ (mirror_eq host _ _)). cbv zeta.
  rewrite (bind_eq _ _ _ _ _ (prepend_base_folder_eq _ _)).
  match goal with
  | |- context [mbind _ (fun st => Ok (_postOverrides (this st), st)) ?s] =>
      rewrite (bind_eq _ _ s (_postOverrides (this s)) s eq_refl)
  end.
  simpl this. rewrite T3, T2, T1, Hpost.
  rewrite (bind_eq _ _ _ _ _ (run_overrides_nil _ _)).
  match goal with
  | |- exists _ _ _, record_position rep ?d ?s = _ /\ _ =>
      destruct (getName_of_string (fields (this st)) d _ eq_refl) as [n Hn];
      exists d, (set_sequence
                   {| cachedPositions :=
                        <[(n, rep) := position d]>
                          (cachedPositions (sequence s));
                      fileCache := fileCache (sequence s) |} s), n;
      split; [apply record_position_eq; simpl this; rewrite T3, T2, T1;
              exact Hn|]
  end.
  simpl. rewrite Hp, Hdist, Hr, Ha, T3, T2, T1, S3, S2, S1, P3, P2, P1.
  repeat split; auto.
Qed.

(** ** The anchor *)

(** C6. The anchor with which the data leaves the positioning step of
    [_sanitizeData]: an anchor set with [anchor] is the anchor of the data;
    without one, an effect with an origin and no target is anchored at
    (0.5, 0.5), an effect with an origin and a target at (0, 0.5), and an
    effect without an origin keeps the (0, 0) of the initial data.  The
    steps that follow leave that anchor to the data they return, unless an
    override or the hit vector writes it. *)
Theorem place_default_anchor :
  forall (host : Host) (rep : nat) (st : State),
    let s := fields (this st) in
    (truthy (_from s) = true ->
     name_recorded rep (_from s) st /\ name_recorded rep (_to s) st) ->
    exists data st',
      place host rep (initial_data s) st = Ok (data, st')
      /\ (forall a, _anchor s = Some a -> anchor_value (this st') data = a)
      /\ (_anchor s = None -> truthy (_from s) = true ->
          truthy (_to s) = false ->
          anchor_value (this st') data = Vec (Fin 0.5) (Fin 0.5))
      /\ (_anchor s = None -> truthy (_from s) = true ->
          truthy (_to s) = true ->
          anchor_value (this st') data = Vec (Fin 0) (Fin 0.5))
      /\ (_anchor s = None -> truthy (_from s) = false ->
          anchor_value (this st') data = Vec (Fin 0) (Fin 0))
      /\ (_overrides (this st) = [] -> _postOverrides (this st) = [] ->
          _rotationOnly s = true \/ Qeq_bool (_distance data) 0 = true ->
          template_renders host s ->
          exists data' st'',
            _sanitizeData host rep st = Ok (data', st'')
            /\ anchor_value (this st'') data'
               = anchor_value (this st') data).
Proof.
  intros host rep st s Hrec.
  destruct (place_succeeds host rep st Hrec) as (data & st' & Hplace).
  exists data, st'. split; [exact Hplace|].
  destruct (place_result host rep st data st' Hplace)
    as ((Hthis & _) & Hanchor & _).
  unfold anchor_value. rewrite Hanchor, Hthis. unfold placed_anchor.
  fold s. repeat split.
  - intros a ->. reflexivity.
  - intros -> -> ->. reflexivity.
  - intros -> -> ->. reflexivity.
  - intros -> ->. reflexivity.
  - intros Hpre Hpost Hskip Hrender.
    destruct (sanitizeData_after_place host rep st data st' Hpre Hpost
                Hplace Hskip Hrender)
      as (data' & st'' & _ & Hrun & _ & _ & Ha & _ & Hthis' & _).
    exists data', st''. split; [exact Hrun|].
    rewrite Ha, Hanchor, Hthis'. reflexivity.
Qed.

(** An effect placed on a point and rotated towards another, without an
    anchor of its own: the anchor is (0, 0.5), also in the data that
    [_sanitizeData] returns. *)
Lemma place_default_anchor_witness :
  let host := example_host (fun _ => 0) in
  let s := Builder.rotateTowards (LObject (Vec 100 0))
             (Builder.atLocation (LObject (Vec 0 0))
                (Builder.constructor host (FString "a.webm"))) in
  let st := start s empty_sequence 0 in
  exists data st',
    place host 0 (initial_data (fields s)) st = Ok (data, st')
    /\ anchor_value (this st') data = Vec (Fin 0) (Fin 0.5)
    /\ exists data' st'',
         _sanitizeData host 0 st = Ok (data', st'')
         /\ anchor_value (this st'') data' = Vec (Fin 0) (Fin 0.5).
Proof.
  intros host s st.
  destruct (place_default_anchor host 0 st)
    as (data & st' & Hplace & _ & _ & Hboth & _ & Hrun).
  - intros _. split; exact I.
  - exists data, st'. split; [exact Hplace|].
    assert (Ha : anchor_value (this st') data = Vec (Fin 0) (Fin 0.5))
      by (apply Hboth; reflexivity).
    split; [exact Ha|].
    destruct Hrun as (data' & st'' & Hrun & Ha'); try reflexivity.
    + left. reflexivity.
    + intros m Hm. discriminate Hm.
    + exists data', st''. split; [exact Hrun|]. rewrite Ha'. exact Ha.
Defined.

Lemma place_hit host rep st :
  _missed (fields (this st)) = false ->
  (truthy (_from (fields (this st))) = true ->
   name_recorded rep (_from (fields (this st))) st
   /\ name_recorded rep (_to (fields (this st))) st) ->
  exists data,
    place host rep (initial_data (fields (this st))) st = Ok (data, st)
    /\ (truthy (_from (fields (this st))) = true ->
        position data
        = Vec (location_x (resolved rep (_from (fields (this st))) st))
              (location_y (resolved rep (_from (fields (this st))) st))).
Proof.
  intros Hmiss Hrec. unfold place. run_unfold.
  destruct (truthy (_from (fields (this st)))); [|eexists; split; [eauto|]].
  - destruct Hrec as [Hf Ht]; [reflexivity|]. rewrite Hmiss.
    rewrite (calculatePositions_hit host rep _ _ st Hf Ht).
    destruct (truthy (_to (fields (this st))));
      destruct (_anchor (fields (this st))); eexists; split; eauto.
  - discriminate.
Qed.

Lemma random_rotation_range (r : Q) :
  0 <= r -> r < 1 -> 0 <= 0 + r * Math_PI /\ 0 + r * Math_PI < Math_PI.
Proof.
  intros H0 H1.
  assert (HPI : 0 < Math_PI) by reflexivity.
  assert (0 <= r * Math_PI) by (apply Qmult_le_0_compat; lra).
  assert (0 < (1 - r) * Math_PI) by (apply Qmult_lt_0_compat; lra).
  split; lra.
Qed.

(** C4, as the code has it.  A section without a target, without the
    missed flag and without overrides, whose names are recorded and whose
    template renders, is sanitized to data with distance 0 and with
    rotation 0 when random rotation is off, or the next draw of
    [Math.random] times [Math.PI], which is in [0, pi), when it is on. *)
Theorem sanitizeData_without_target :
  forall (host : Host) (rep : nat) (st : State),
    let s := fields (this st) in
    truthy (_to s) = false ->
    _missed s = false ->
    _overrides (this st) = [] -> _postOverrides (this st) = [] ->
    (forall n, 0 <= Math_random host n /\ Math_random host n < 1) ->
    (truthy (_from s) = true ->
     name_recorded rep (_from s) st /\ name_recorded rep (_to s) st) ->
    template_renders host s ->
    exists data st',
      _sanitizeData host rep st = Ok (data, st')
      /\ _distance data = 0
      /\ (_randomRotation s = false -> rotation data == 0)
      /\ (_randomRotation s = true ->
          rotation data == Math_random host (draws st) * Math_PI
          /\ 0 <= rotation data /\ rotation data < Math_PI).
Proof.
  intros host rep st s Hto Hmiss Hpre Hpost Hrange Hrec Hrender.
  destruct (place_hit host rep st Hmiss Hrec) as (data & Hplace & _).
  destruct (place_result host rep st data st Hplace)
    as (_ & _ & _ & _ & Hzero).
  destruct Hzero as [Hd Hr].
  { fold s. rewrite Hto. apply andb_false_r. }
  destruct (sanitizeData_after_place host rep st data st Hpre Hpost Hplace)
    as (data' & st' & n & Hrun & _ & Hdist & _ & Hrot & _).
  { right. rewrite Hd. reflexivity. }
  { exact Hrender. }
  exists data', st'. split; [exact Hrun|].
  rewrite Hdist, Hd. split; [reflexivity|].
  rewrite Hrot, Hr. fold s. split.
  - intros ->. reflexivity.
  - intros ->. destruct (Hrange (draws st)) as [H0 H1].
    destruct (random_rotation_range _ H0 H1) as [? ?].
    repeat split; auto. ring.
Qed.

(** An effect at a point with random rotation, on a page whose draws are
    all one quarter: the rotation is a quarter of [Math.PI]. *)
Lemma sanitizeData_without_target_witness :
  let host := example_host (fun _ => 1 # 4) in
  let s := Builder.randomRotation true
             (Builder.atLocation (LObject (Vec 3 4))
                (Builder.constructor host (FString "a.webm"))) in
  exists data st',
    _sanitizeData host 0 (start s empty_sequence 0) = Ok (data, st')
    /\ _distance data = 0
    /\ rotation data == (1 # 4) * Math_PI
    /\ rotation data < Math_PI.
Proof.
  intros host s.
  destruct (sanitizeData_without_target host 0 (start s empty_sequence 0))
    as (data & st' & Hrun & Hdist & _ & Hrot); try reflexivity.
  - intros n. split; [discriminate|reflexivity].
  - intros _. split; exact I.
  - intros m Hm. discriminate Hm.
  - exists data, st'. destruct (Hrot eq_refl) as (Hr & _ & Hlt).
    repeat split; assumption.
Defined.

(** An override may write any distance: with one that writes 5, a section
    without a target and without the missed flag is sanitized to data whose
    distance is 5. *)
Definition write_distance_5 : Override :=
  fun _ data => Ok (set_distance 5 data).

Lemma override_changes_distance :
  let host := example_host (fun _ => 1 # 4) in
  let s := Builder.addOverride write_distance_5
             (Builder.atLocation (LObject (Vec 3 4))
                (Builder.constructor host (FString "a.webm"))) in
  truthy (_to (fields s)) = false
  /\ _missed (fields s) = false
  /\ exists data st',
       _sanitizeData host 0 (start s empty_sequence 0) = Ok (data, st')
       /\ _distance data = 5
       /\ ~ _distance data == 0.
Proof.
  intros host s. split; [reflexivity|]. split; [reflexivity|].
  destruct (_sanitizeData host 0 (start s empty_sequence 0))
    as [[data st']|e] eqn:E; vm_compute in E; [|discriminate].
  exists data, st'. split; [reflexivity|].
  inversion E. split; [reflexivity|discriminate].
Qed.

(** ** Named positions *)

Lemma bind_inv {A B} (m : M A) (k : A -> M B) st b st' :
  (m ≫= k) st = Ok (b, st') ->
  exists a st1, m st = Ok (a, st1) /\ k a st1 = Ok (b, st').
Proof.
  run_unfold. intros H.
  destruct (m st) as [[a st1]|e]; [eauto|discriminate].
Qed.

Lemma record_position_inv rep data st d st' :
  record_position rep data st = Ok (d, st') ->
  d = data /\ this st' = this st
  /\ exists n,
       _getName (fields (this st)) data = Ok n
       /\ cachedPositions (sequence st')
          = <[(n, rep) := position data]> (cachedPositions (sequence st)).
Proof.
  unfold record_position, _insertCachedPosition. run_unfold.
  destruct (_getName (fields (this st)) data) as [n|e]; [|discriminate].
  intros H. inversion H. subst. simpl. eauto.
Qed.

(** Every run that returns has recorded the position of its data under the
    name of the run, for its repetition. *)
Lemma sanitizeData_records host rep st d st' :
  _sanitizeData host rep st = Ok (d, st') ->
  exists n,
    _getName (fields (this st')) d = Ok n
    /\ cachedPositions (sequence st') !! (n, rep) = Some (position d).
Proof.
  unfold _sanitizeData. intros H.
  do 14 (apply bind_inv in H; destruct H as (? & ? & _ & H)).
  apply record_position_inv in H.
  destruct H as (-> & Hthis & n & Hn & Hc).
  exists n. rewrite Hthis, Hc. split; [exact Hn|apply lookup_insert_eq].
Qed.

Lemma vec_eta {A} (p : vec A) : Vec (X p) (Y p) = p.
Proof. by destruct p. Qed.

(** C7.  A run that returns has recorded the position of its data under
    its name for its repetition.  On the sequence it leaves, that name
    resolves to exactly that position, and a later section at that name
    (no target, no miss, no overrides) is sanitized to data at that
    position.  A run whose origin is set and whose origin or target is a
    name without a position for the repetition throws
    [UnresolvedNameError]. *)
Theorem named_position_round_trip :
  forall (host : Host) (rep : nat) (stA : State) (dA : Data) (stA' : State)
         (n : string),
    _sanitizeData host rep stA = Ok (dA, stA') ->
    _getName (fields (this stA')) dA = Ok n ->
    cachedPositions (sequence stA') !! (n, rep) = Some (position dA)
    /\ (forall stB,
          sequence stB = sequence stA' ->
          resolve_name rep (LName n) stB = Ok (LObject (position dA), stB)
          /\ (_from (fields (this stB)) = LName n -> n <> "" ->
              _to (fields (this stB)) = LFalse ->
              _missed (fields (this stB)) = false ->
              _overrides (this stB) = [] -> _postOverrides (this stB) = [] ->
              template_renders host (fields (this stB)) ->
              exists dB stB',
                _sanitizeData host rep stB = Ok (dB, stB')
                /\ position dB = position dA))
    /\ (forall stC rep' m,
          truthy (_from (fields (this stC))) = true ->
          _from (fields (this stC)) = LName m
          \/ _to (fields (this stC)) = LName m ->
          cachedPositions (sequence stC) !! (m, rep') = None ->
          _sanitizeData host rep' stC = Throw UnresolvedNameError).
Proof.
  intros host rep stA dA stA' n HA Hname.
  destruct (sanitizeData_records host rep stA dA stA' HA) as (n' & Hn' & Hrec).
  rewrite Hname in Hn'. inversion Hn'. subst n'.
  split; [exact Hrec|]. split.
  - intros stB Hseq.
    assert (HB : cachedPositions (sequence stB) !! (n, rep)
                 = Some (position dA)) by (rewrite Hseq; exact Hrec).
    split.
    { simpl. unfold _getCachedPosition. run_unfold. rewrite HB.
      reflexivity. }
    intros Hfrom Hne Hto Hmiss Hpre Hpost Hrender.
    assert (Htruthy : truthy (_from (fields (this stB))) = true).
    { rewrite Hfrom. simpl.
      destruct (String.eqb_spec n ""); [congruence|reflexivity]. }
    destruct (place_hit host rep stB Hmiss) as (data & Hplace & Hpos).
    { intros _. rewrite Hfrom, Hto. simpl. rewrite HB. eauto. }
    destruct (place_result host rep stB data stB Hplace)
      as (_ & _ & _ & _ & Hzero).
    destruct Hzero as [Hd _].
    { rewrite Hto. apply andb_false_r. }
    destruct (sanitizeData_after_place host rep stB data stB Hpre Hpost
                Hplace) as (dB & stB' & _ & Hrun & Hp & _).
    { right. rewrite Hd. reflexivity. }
    { exact Hrender. }
    exists dB, stB'. split; [exact Hrun|].
    rewrite Hp, (Hpos Htruthy), Hfrom. simpl. rewrite HB. simpl.
    apply vec_eta.
  - intros stC rep' m Htruthy Hm Hnone.
    unfold _sanitizeData, place. run_unfold. rewrite Htruthy.
    rewrite (calculatePositions_unrecorded host rep' _ _ _ stC m Hm Hnone).
    reflexivity.
Qed.

(** An effect named [n] plays at (5,7) in repetition 0; a later effect at
    the name [n] is placed at (5,7) in repetition 0 and throws in
    repetition 1, for which nothing was recorded. *)
Lemma named_position_round_trip_witness :
  let host := example_host (fun _ => 0) in
  let A := Builder.name "n"
             (Builder.atLocation (LObject (Vec 5 7))
                (Builder.constructor host (FString "a.webm"))) in
  let B := Builder.atLocation (LName "n")
             (Builder.constructor host (FString "b.webm")) in
  exists dA stA',
    _sanitizeData host 0 (start A empty_sequence 0) = Ok (dA, stA')
    /\ position dA = Vec 5 7
    /\ (exists dB stB',
          _sanitizeData host 0 (start B (sequence stA') 0) = Ok (dB, stB')
          /\ position dB = Vec 5 7)
    /\ _sanitizeData host 1 (start B (sequence stA') 0)
       = Throw UnresolvedNameError.
Proof.
  intros host A B.
  destruct (_sanitizeData host 0 (start A empty_sequence 0))
    as [[dA stA']|e] eqn:HA; [|vm_compute in HA; discriminate].
  assert (Hname : _getName (fields (this stA')) dA = Ok "n")
    by (vm_compute in HA; inversion HA; reflexivity).
  assert (HposA : position dA = Vec 5 7)
    by (vm_compute in HA; inversion HA; reflexivity).
  assert (Hnone : cachedPositions (sequence stA') !! ("n", 1%nat) = None)
    by (vm_compute in HA; inversion HA; vm_compute; reflexivity).
  destruct (named_position_round_trip host 0 _ _ _ _ HA Hname)
    as (_ & HB & HC).
  exists dA, stA'. split; [reflexivity|]. split; [exact HposA|]. split.
  - destruct (HB (start B (sequence stA') 0) eq_refl) as (_ & Hrun).
    rewrite <- HposA.
    apply Hrun; try reflexivity; [discriminate|].
    intros m Hm. discriminate Hm.
  - apply (HC _ 1%nat "n"); [reflexivity | left; reflexivity | exact Hnone].
Defined.

(** ** Two runs side by side

    [related RS RA m1 m2]: from states related by [RS] the two computations
    throw the same error, or both return, with values related by [RA] and
    states related by [RS] again. *)

Definition related {A} (RS : State -> State -> Prop) (RA : A -> A -> Prop)
    (m1 m2 : M A) : Prop :=
  forall st1 st2, RS st1 st2 ->
    match m1 st1, m2 st2 with
    | Ok (a1, s1), Ok (a2, s2) => RA a1 a2 /\ RS s1 s2
    | Throw e1, Throw e2 => e1 = e2
    | _, _ => False
    end.

Lemma related_ret {A} RS (RA : A -> A -> Prop) a1 a2 :
  RA a1 a2 -> related RS RA (mret a1) (mret a2).
Proof. intros H st1 st2 HS. simpl. auto. Qed.

Lemma related_bind {A B} RS (RA : A -> A -> Prop) (RB : B -> B -> Prop)
    (m1 m2 : M A) (k1 k2 : A -> M B) :
  related RS RA m1 m2 ->
  (forall a1 a2, RA a1 a2 -> related RS RB (k1 a1) (k2 a2)) ->
  related RS RB (m1 ≫= k1) (m2 ≫= k2).
Proof.
  intros Hm Hk st1 st2 HS. specialize (Hm st1 st2 HS). run_unfold.
  destruct (m1 st1) as [[a1 s1]|e1], (m2 st2) as [[a2 s2]|e2];
    try contradiction; [|exact Hm].
  destruct Hm as [Ha Hs]. exact (Hk a1 a2 Ha s1 s2 Hs).
Qed.

Lemma related_lift {A} RS (o : outcome A) :
  related RS eq (lift o) (lift o).
Proof. intros st1 st2 HS. unfold lift. destruct o; auto. Qed.

Lemma related_mono {A} RS (RA RA' : A -> A -> Prop) m1 m2 :
  related RS RA m1 m2 -> (forall a1 a2, RA a1 a2 -> RA' a1 a2) ->
  related RS RA' m1 m2.
Proof.
  intros Hm H st1 st2 HS. specialize (Hm st1 st2 HS).
  destruct (m1 st1) as [[a1 s1]|e1], (m2 st2) as [[a2 s2]|e2]; auto.
  destruct Hm. auto.
Qed.

(** Two sections that differ at most in [_gridSize]. *)
Definition same_but_grid (f1 f2 : Fields) : Prop :=
  with_gridSize 0 f1 = with_gridSize 0 f2.

Lemma same_but_grid_fields f1 f2 :
  same_but_grid f1 f2 ->
  _baseFolder f1 = _baseFolder f2 /\ _file f1 = _file f2
  /\ _from f1 = _from f2 /\ _to f1 = _to f2
  /\ _scaleMin f1 = _scaleMin f2 /\ _scaleMax f1 = _scaleMax f2
  /\ _anchor f1 = _anchor f2 /\ _randomRotation f1 = _randomRotation f2
  /\ _rotationOnly f1 = _rotationOnly f2 /\ _missed f1 = _missed f2
  /\ _startPoint f1 = _startPoint f2 /\ _endPoint f1 = _endPoint f2
  /\ _mustache f1 = _mustache f2 /\ _JB2A f1 = _JB2A f2
  /\ _randomX f1 = _randomX f2 /\ _randomY f1 = _randomY f2
  /\ _playbackRate f1 = _playbackRate f2 /\ _name f1 = _name f2
  /\ _fadeIn f1 = _fadeIn f2 /\ _fadeOut f1 = _fadeOut f2.
Proof.
  intros E. unfold same_but_grid in E.
  repeat split;
    match goal with
    | |- ?p f1 = ?p f2 => exact (f_equal p E)
    end.
Qed.

Lemma same_but_grid_eq f1 f2 :
  same_but_grid f1 f2 -> _gridSize f1 = _gridSize f2 -> f1 = f2.
Proof.
  intros E G. destruct f1, f2. unfold same_but_grid in E. simpl in *.
  inversion E. subst. reflexivity.
Qed.

(** All of the data but the scale is the same. *)
Definition same_but_scale (d1 d2 : Data) : Prop :=
  set_scale (Vec NaN NaN) d1 = set_scale (Vec NaN NaN) d2.

Lemma same_but_scale_fields d1 d2 :
  same_but_scale d1 d2 ->
  file d1 = file d2 /\ position d1 = position d2 /\ anchor d1 = anchor d2
  /\ rotation d1 = rotation d2 /\ _distance d1 = _distance d2.
Proof.
  intros E. unfold same_but_scale in E.
  repeat split;
    match goal with
    | |- ?p d1 = ?p d2 => exact (f_equal p E)
    end.
Qed.

Lemma same_but_scale_eq d1 d2 :
  same_but_scale d1 d2 -> scale d1 = scale d2 -> d1 = d2.
Proof.
  intros E S. destruct d1, d2. unfold same_but_scale in E. simpl in *.
  inversion E. subst. reflexivity.
Qed.

Section TwoRuns.

(** Two pages [h1] and [h2], the repetition, the references and the mode of
    the section, a relation [G] between the two grid sizes of the section
    and a relation [R] between the two scales. *)
Context (h1 h2 : Host) (rep : nat) (from to : Location) (ro : bool).
Context (G : Q -> Q -> Prop) (R : num -> num -> Prop).

Hypothesis page_grid : canvas_grid_size h1 = canvas_grid_size h2.
Hypothesis page_distance :
  forall a b, Ray_distance h1 a b = Ray_distance h2 a b.
Hypothesis page_angle : forall a b, Ray_angle h1 a b = Ray_angle h2 a b.
Hypothesis page_random : forall n, Math_random h1 n = Math_random h2 n.
Hypothesis page_template :
  forall f m, Handlebars_compile h1 f m = Handlebars_compile h2 f m.
Hypothesis R_times :
  forall a b q, R a b -> R (nmul a (Fin q)) (nmul b (Fin q)).
Hypothesis R_grid :
  forall a c1 c2, G c1 c2 ->
    R (nmul a (ndiv (Fin (canvas_grid_size h1)) (Fin c1)))
      (nmul a (ndiv (Fin (canvas_grid_size h2)) (Fin c2))).

Definition fields_alike (f1 f2 : Fields) : Prop :=
  same_but_grid f1 f2 /\ G (_gridSize f1) (_gridSize f2)
  /\ _from f1 = from /\ _to f1 = to /\ _rotationOnly f1 = ro.

(** The two states have the same section up to the grid size and no
    overrides, are at the same draw, hold the same dimensions, hold the same
    positions for the names the section refers to, and their probes agree
    wherever the cache has no dimensions. *)
Definition alike (st1 st2 : State) : Prop :=
  fields_alike (fields (this st1)) (fields (this st2))
  /\ _overrides (this st1) = [] /\ _overrides (this st2) = []
  /\ _postOverrides (this st1) = [] /\ _postOverrides (this st2) = []
  /\ draws st1 = draws st2
  /\ fileCache (sequence st1) = fileCache (sequence st2)
  /\ (forall n, from = LName n \/ to = LName n ->
        cachedPositions (sequence st1) !! (n, rep)
        = cachedPositions (sequence st2) !! (n, rep))
  /\ (forall path, fileCache (sequence st1) !! path = None ->
        lib_getDimensions h1 path = lib_getDimensions h2 path).

Lemma alike_tick k st1 st2 : alike st1 st2 -> alike (tick k st1) (tick k st2).
Proof.
  unfold alike. simpl. intros (? & ? & ? & ? & ? & -> & ?). tauto.
Qed.

Lemma rel_get_this : related alike fields_alike get_this get_this.
Proof. intros st1 st2 HS. simpl. split; [apply HS|exact HS]. Qed.

Lemma rel_random : related alike eq (random h1) (random h2).
Proof.
  intros st1 st2 HS. rewrite !random_eq. split; [|by apply alike_tick].
  destruct HS as (_ & _ & _ & _ & _ & -> & _). apply page_random.
Qed.

Lemma rel_random_float_between lo hi :
  related alike eq (random_float_between h1 lo hi)
    (random_float_between h2 lo hi).
Proof.
  unfold random_float_between.
  eapply related_bind; [apply rel_random|].
  intros a1 a2 ->. by apply related_ret.
Qed.

Lemma rel_random_array_element l :
  related alike eq (random_array_element h1 l) (random_array_element h2 l).
Proof.
  unfold random_array_element.
  eapply related_bind; [apply rel_random|].
  intros a1 a2 ->. by apply related_ret.
Qed.

Lemma rel_getCachedPosition n :
  from = LName n \/ to = LName n ->
  related alike eq (_getCachedPosition n rep) (_getCachedPosition n rep).
Proof.
  intros Hn st1 st2 HS. unfold _getCachedPosition.
  destruct HS as (HF & Hrest).
  destruct Hrest as (? & ? & ? & ? & ? & ? & Hpos & ?).
  rewrite (Hpos n Hn).
  destruct (cachedPositions (sequence st2) !! (n, rep)); [|reflexivity].
  split; [reflexivity|]. unfold alike. tauto.
Qed.

Lemma rel_resolve_name l :
  l = from \/ l = to ->
  related alike eq (resolve_name rep l) (resolve_name rep l).
Proof.
  intros Hl. destruct l as [|n|p|t|t shape b]; simpl;
    try (by apply related_ret).
  eapply related_bind.
  - apply rel_getCachedPosition. destruct Hl as [<- | <-]; auto.
  - intros a1 a2 ->. by apply related_ret.
Qed.

Lemma rel_calculateMissedPosition target position missed :
  related alike eq (_calculateMissedPosition h1 target position missed)
    (_calculateMissedPosition h2 target position missed).
Proof.
  unfold _calculateMissedPosition. rewrite page_grid.
  destruct (negb missed); [by apply related_ret|].
  do 3 (eapply related_bind; [apply rel_random|]; intros ? ? ->).
  destruct (Qltb _ _);
    do 2 (eapply related_bind; [apply rel_random_float_between|];
          intros ? ? ->);
    by apply related_ret.
Qed.

Lemma rel_calculatePositions missed :
  related alike eq (_calculatePositions h1 rep from to missed)
    (_calculatePositions h2 rep from to missed).
Proof.
  unfold _calculatePositions.
  eapply related_bind; [apply rel_resolve_name; auto|]. intros ? f ->.
  eapply related_bind; [apply rel_resolve_name; auto|]. intros ? t ->.
  eapply related_bind; [apply rel_calculateMissedPosition|]. intros ? o ->.
  eapply related_bind with (RA := eq).
  - destruct (truthy t); [|by apply related_ret].
    eapply related_bind; [apply rel_calculateMissedPosition|].
    intros ? ? ->. by apply related_ret.
  - intros ? ? ->. by apply related_ret.
Qed.

Lemma rel_place data :
  related alike eq (place h1 rep data) (place h2 rep data).
Proof.
  unfold place. eapply related_bind; [apply rel_get_this|].
  intros f1 f2 (Hsame & _ & Hfrom & Hto & _).
  destruct (same_but_grid_fields _ _ Hsame)
    as (_ & _ & <- & <- & _ & _ & <- & _ & _ & <- & _).
  rewrite Hfrom, Hto.
  destruct (truthy from); [|by apply related_ret].
  eapply related_bind; [apply rel_calculatePositions|].
  intros ? [origin target] ->.
  rewrite !page_distance, !page_angle.
  destruct (truthy to); by apply related_ret.
Qed.

Lemma rel_random_rotation data :
  related alike eq (random_rotation h1 data) (random_rotation h2 data).
Proof.
  unfold random_rotation. eapply related_bind; [apply rel_get_this|].
  intros f1 f2 (Hsame & _).
  destruct (same_but_grid_fields _ _ Hsame)
    as (_ & _ & _ & _ & _ & _ & _ & <- & _).
  eapply related_bind with (RA := eq).
  - destruct (_randomRotation f1); [|by apply related_ret].
    eapply related_bind; [apply rel_random|].
    intros ? ? ->. by apply related_ret.
  - intros ? ? ->. by apply related_ret.
Qed.

Lemma rel_pick_file data :
  related alike eq (pick_file h1 data) (pick_file h2 data).
Proof.
  unfold pick_file. destruct (file data); try (by apply related_ret).
  eapply related_bind; [apply rel_random_array_element|].
  intros ? ? ->. by apply related_ret.
Qed.

Lemma rel_apply_mustache data :
  related alike eq (apply_mustache h1 data) (apply_mustache h2 data).
Proof.
  unfold apply_mustache. eapply related_bind; [apply rel_get_this|].
  intros f1 f2 (Hsame & _).
  destruct (same_but_grid_fields _ _ Hsame)
    as (_ & _ & _ & _ & _ & _ & _ & _ & _ & _ & _ & _ & <- & _).
  destruct (_mustache f1) as [m|]; [|by apply related_ret].
  rewrite page_template.
  eapply related_bind; [apply related_lift|].
  intros ? ? ->. by apply related_ret.
Qed.

(** The data of the two runs: the same but for the scale, and the scales
    related by [R] on both axes. *)
Definition scaled_alike (d1 d2 : Data) : Prop :=
  same_but_scale d1 d2
  /\ R (X (scale d1)) (X (scale d2)) /\ R (Y (scale d1)) (Y (scale d2)).

Lemma rel_normalize_grid data :
  related alike scaled_alike (normalize_grid h1 data) (normalize_grid h2 data).
Proof.
  unfold normalize_grid. eapply related_bind; [apply rel_get_this|].
  intros f1 f2 (_ & HG & _). apply related_ret.
  split; [reflexivity|]. simpl. unfold grid_ratio. auto.
Qed.

Lemma alike_after_probe path c st1 st2 :
  alike st1 st2 -> alike (after_probe path c st1) (after_probe path c st2).
Proof.
  unfold alike. simpl.
  intros (HF & ? & ? & ? & ? & ? & Hfc & ? & Hprobe). rewrite Hfc.
  split; [exact HF|]. repeat split; auto.
  intros path' Hnone. apply Hprobe. rewrite Hfc.
  apply lookup_insert_None in Hnone. tauto.
Qed.

Lemma rel_getFileDimensions inFile :
  related alike eq (_getFileDimensions h1 inFile) (_getFileDimensions h2 inFile).
Proof.
  intros st1 st2 HS.
  pose proof HS as ((Hsame & _) & _ & _ & _ & _ & _ & Hfc & _ & Hprobe).
  destruct (same_but_grid_fields _ _ Hsame)
    as (Hbase & _ & _ & _ & _ & _ & _ & _ & _ & _ & _ & _ & _ & HJ & _).
  destruct (if _JB2A (fields (this st1))
            then dimensions_in_name
                   (_baseFolder (fields (this st1)) ++ file_to_string inFile)
            else None) as [d|] eqn:E.
  - assert (HJ1 : _JB2A (fields (this st1)) = true)
      by (destruct (_JB2A (fields (this st1))); [reflexivity|discriminate]).
    rewrite HJ1 in E.
    rewrite (getFileDimensions_from_name h1 inFile st1 d HJ1 E).
    rewrite (getFileDimensions_from_name h2 inFile st2 d).
    + auto.
    + rewrite <- HJ. exact HJ1.
    + rewrite <- Hbase. exact E.
  - rewrite (getFileDimensions_fall_through h1 inFile st1 E).
    rewrite (getFileDimensions_fall_through h2 inFile st2)
      by (rewrite <- HJ, <- Hbase; exact E).
    cbv zeta. rewrite <- Hbase, <- Hfc.
    destruct (fileCache (sequence st1) !! _) as [c|] eqn:Ec; [auto|].
    rewrite <- (Hprobe _ Ec).
    destruct (lib_getDimensions h1 _) as [c|e]; [|reflexivity].
    split; [reflexivity|]. by apply alike_after_probe.
Qed.

Lemma rel_write_anchor_x v data :
  related alike (fun a1 a2 => a1 = a2 /\ _distance a1 = _distance data)
    (write_anchor_x v data) (write_anchor_x v data).
Proof.
  unfold write_anchor_x. destruct (anchor data) as [a|].
  - by apply related_ret.
  - intros st1 st2 HS. split; [auto|].
    destruct HS as ((Hsame & HG & Hfrom & Hto & Hro) & Hrest).
    destruct (same_but_grid_fields _ _ Hsame)
      as (_ & _ & _ & _ & _ & _ & Ha & _).
    unfold alike, fields_alike. simpl. rewrite <- Ha.
    split; [|exact Hrest].
    repeat split; auto.
    unfold same_but_grid in *.
    destruct (fields (this st1)), (fields (this st2)). simpl in *.
    inversion Hsame. subst. reflexivity.
Qed.

(** Whether the hit vector applies to the data. *)
Definition hit (d : Data) : bool :=
  negb ro && negb (Qeq_bool (_distance d) 0).

(** After the hit vector: where it applied, the two scales are the same;
    where it did not, they are still related by [R]. *)
Definition reached (d1 d2 : Data) : Prop :=
  same_but_scale d1 d2
  /\ if hit d1 then scale d1 = scale d2
     else R (X (scale d1)) (X (scale d2)) /\ R (Y (scale d1)) (Y (scale d2)).

Lemma rel_reach d1 d2 :
  scaled_alike d1 d2 -> related alike reached (reach h1 d1) (reach h2 d2).
Proof.
  intros (Hsame & HR). pose proof (same_but_scale_fields _ _ Hsame)
    as (Hfile & _ & _ & _ & Hdist).
  unfold reach. eapply related_bind; [apply rel_get_this|].
  intros f1 f2 (Hf & _ & _ & _ & Hro).
  destruct (same_but_grid_fields _ _ Hf)
    as (_ & _ & _ & _ & _ & _ & _ & _ & Hro2 & _ & Hstart & _).
  rewrite <- Hro2, Hro. unfold reached, hit. destruct ro; cbn [negb andb].
  { apply related_ret. auto. }
  unfold _calculateHitVector. rewrite <- Hdist.
  destruct (Qeq_bool (_distance d1) 0) eqn:Ed; cbn [negb andb].
  { apply related_ret. rewrite Ed. auto. }
  rewrite <- Hfile.
  eapply related_bind; [apply rel_getFileDimensions|]. intros ? dims ->.
  eapply related_bind; [apply rel_get_this|].
  intros g1 g2 (Hg & _).
  destruct (same_but_grid_fields _ _ Hg)
    as (_ & _ & _ & _ & _ & _ & _ & _ & _ & _ & Hs & He & _).
  unfold _getTrueLength. rewrite <- Hs, <- He.
  match goal with
  | |- related _ _ (write_anchor_x ?v ?a) (write_anchor_x ?v ?b) =>
      assert (Hab : a = b) by (apply same_but_scale_eq; [exact Hsame|reflexivity]);
      rewrite <- Hab;
      eapply related_mono; [apply rel_write_anchor_x|]
  end.
  intros a1 a2 (-> & Ha). cbn [_distance set_scale] in Ha.
  split; [reflexivity|]. rewrite Ha, Ed. reflexivity.
Qed.

Lemma reached_scaled d1 d2 (q1 q2 : Q) :
  reached d1 d2 ->
  reached (set_scale (Vec (nmul (X (scale d1)) (Fin q1))
                          (nmul (Y (scale d1)) (Fin q2))) d1)
          (set_scale (Vec (nmul (X (scale d2)) (Fin q1))
                          (nmul (Y (scale d2)) (Fin q2))) d2).
Proof.
  intros (Hsame & HR). split; [exact Hsame|]. unfold hit in *. simpl.
  destruct (negb ro && negb (Qeq_bool (_distance d1) 0)).
  - rewrite HR. reflexivity.
  - destruct HR. auto.
Qed.

Lemma rel_configured_scale :
  related alike eq (configured_scale h1) (configured_scale h2).
Proof.
  unfold configured_scale. eapply related_bind; [apply rel_get_this|].
  intros f1 f2 (Hf & _).
  destruct (same_but_grid_fields _ _ Hf) as (_ & _ & _ & _ & <- & <- & _).
  destruct (_scaleMin f1) as [|lo|sx sy]; try (by apply related_ret).
  eapply related_bind with (RA := eq).
  - destruct (_scaleMax f1) as [hi|]; [|by apply related_ret].
    destruct (Qeq_bool hi 0); [by apply related_ret|].
    apply rel_random_float_between.
  - intros ? ? ->. by apply related_ret.
Qed.

Lemma rel_apply_scale d1 d2 :
  reached d1 d2 -> related alike reached (apply_scale h1 d1) (apply_scale h2 d2).
Proof.
  intros Hd. unfold apply_scale.
  eapply related_bind; [apply rel_configured_scale|].
  intros ? [sx sy] ->. apply related_ret. by apply reached_scaled.
Qed.

Lemma rel_random_flip flag :
  related alike eq (random_flip h1 flag) (random_flip h2 flag).
Proof.
  destruct flag; simpl; [|by apply related_ret].
  eapply related_bind; [apply rel_random|].
  intros ? ? ->. by apply related_ret.
Qed.

Lemma rel_mirror d1 d2 :
  reached d1 d2 -> related alike reached (mirror h1 d1) (mirror h2 d2).
Proof.
  intros (Hsame & HR). unfold mirror.
  eapply related_bind; [apply rel_get_this|].
  intros f1 f2 (Hf & _).
  destruct (same_but_grid_fields _ _ Hf)
    as (_ & _ & _ & _ & _ & _ & _ & _ & _ & _ & _ & _ & _ & _ & <- & <- & _).
  eapply related_bind; [apply rel_random_flip|]. intros ? fx ->.
  eapply related_bind; [apply rel_random_flip|]. intros ? fy ->.
  apply related_ret. split; [exact Hsame|]. unfold hit in *. simpl.
  destruct (negb ro && negb (Qeq_bool (_distance d1) 0)).
  - rewrite HR. reflexivity.
  - destruct HR. auto.
Qed.

Lemma rel_prepend_base_folder d1 d2 :
  reached d1 d2 ->
  related alike reached (prepend_base_folder d1) (prepend_base_folder d2).
Proof.
  intros (Hsame & HR). unfold prepend_base_folder.
  eapply related_bind; [apply rel_get_this|].
  intros f1 f2 (Hf & _).
  destruct (same_but_grid_fields _ _ Hf) as (<- & _).
  pose proof (same_but_scale_fields _ _ Hsame) as (<- & _).
  apply related_ret. split; [|exact HR].
  unfold same_but_scale in *. destruct d1, d2. simpl in *.
  inversion Hsame. subst. reflexivity.
Qed.

Lemma rel_record_position d1 d2 :
  reached d1 d2 ->
  related alike reached (record_position rep d1) (record_position rep d2).
Proof.
  intros Hd st1 st2 HS. pose proof Hd as (Hsame & _).
  pose proof (same_but_scale_fields _ _ Hsame) as (Hfile & Hpos & _).
  pose proof HS as (HF & ? & ? & ? & ? & ? & Hfc & Hnames & Hprobe).
  pose proof HF as (Hf & _).
  destruct (same_but_grid_fields _ _ Hf)
    as (_ & _ & _ & _ & _ & _ & _ & _ & _ & _ & _ & _ & _ & _ & _ & _ & _
        & Hname & _).
  assert (Hn : _getName (fields (this st2)) d2
               = _getName (fields (this st1)) d1)
    by (unfold _getName; rewrite Hname, Hfile; reflexivity).
  unfold record_position, _insertCachedPosition. run_unfold. rewrite Hn.
  destruct (_getName (fields (this st1)) d1) as [n|e]; [|reflexivity].
  split; [exact Hd|]. unfold alike. simpl. rewrite Hpos.
  split; [exact HF|]. repeat split; auto.
  intros m Hm. destruct (decide ((n, rep) = (m, rep))) as [<- | Hne].
  - rewrite !lookup_insert_eq. reflexivity.
  - rewrite !lookup_insert_ne by exact Hne. exact (Hnames m Hm).
Qed.

Lemma initial_data_alike f1 f2 :
  same_but_grid f1 f2 -> initial_data f1 = initial_data f2.
Proof.
  intros Hf. destruct (same_but_grid_fields _ _ Hf)
    as (_ & Hfile & _ & _ & _ & _ & Ha & _ & _ & _ & _ & _ & _ & _ & _ & _
        & Hp & _ & Hi & Ho).
  unfold initial_data. rewrite Hfile, Ha, Hp, Hi, Ho. reflexivity.
Qed.

(** The two runs of [_sanitizeData] from states that are alike. *)
Lemma rel_sanitizeData :
  related alike reached (_sanitizeData h1 rep) (_sanitizeData h2 rep).
Proof.
  unfold _sanitizeData. eapply related_bind; [apply rel_get_this|].
  intros f1 f2 (Hf & _). rewrite (initial_data_alike _ _ Hf).
  eapply related_bind; [apply rel_place|]. intros ? d ->.
  eapply related_bind; [apply rel_random_rotation|]. intros ? d0 ->.
  eapply related_bind with (RA := fun l1 l2 => l1 = [] /\ l2 = []).
  { intros st1 st2 HS. simpl. split; [|exact HS].
    destruct HS as (_ & ? & ? & _). auto. }
  intros ? ? [-> ->].
  eapply related_bind with (RA := eq); [by apply related_ret|].
  intros ? d1 ->.
  eapply related_bind; [apply rel_pick_file|]. intros ? d2 ->.
  eapply related_bind; [apply rel_apply_mustache|]. intros ? d3 ->.
  eapply related_bind; [apply rel_normalize_grid|]. intros a1 a2 Ha.
  eapply related_bind; [apply (rel_reach _ _ Ha)|]. intros b1 b2 Hb.
  eapply related_bind; [apply (rel_apply_scale _ _ Hb)|]. intros c1 c2 Hc.
  eapply related_bind; [apply (rel_mirror _ _ Hc)|]. intros e1 e2 He.
  eapply related_bind; [apply (rel_prepend_base_folder _ _ He)|].
  intros g1 g2 Hg.
  eapply related_bind with (RA := fun l1 l2 => l1 = [] /\ l2 = []).
  { intros st1 st2 HS. simpl. split; [|exact HS].
    destruct HS as (_ & _ & _ & ? & ? & _). auto. }
  intros ? ? [-> ->].
  eapply related_bind with (RA := reached); [by apply related_ret|].
  intros k1 k2 Hk. apply (rel_record_position _ _ Hk).
Qed.

End TwoRuns.

(** ** Determinism *)

(** C8. Two runs of [_sanitizeData] for the same section without
    overrides and the same repetition, at the same draw of the same random
    source, on pages with the same grid, rays and templates, with the same
    positions for the names the section refers to and the same cache of
    dimensions, the probes agreeing wherever that cache has nothing (so that
    for a cached file the probe does not matter): both throw the same
    error, or both return the same data with the same anchor. *)
Theorem sanitizeData_deterministic :
  forall (h1 h2 : Host) (rep : nat) (st1 st2 : State),
    canvas_grid_size h1 = canvas_grid_size h2 ->
    (forall a b, Ray_distance h1 a b = Ray_distance h2 a b) ->
    (forall a b, Ray_angle h1 a b = Ray_angle h2 a b) ->
    (forall n, Math_random h1 n = Math_random h2 n) ->
    (forall f m, Handlebars_compile h1 f m = Handlebars_compile h2 f m) ->
    this st1 = this st2 ->
    _overrides (this st1) = [] -> _postOverrides (this st1) = [] ->
    draws st1 = draws st2 ->
    fileCache (sequence st1) = fileCache (sequence st2) ->
    (forall n,
       _from (fields (this st1)) = LName n
       \/ _to (fields (this st1)) = LName n ->
       cachedPositions (sequence st1) !! (n, rep)
       = cachedPositions (sequence st2) !! (n, rep)) ->
    (forall path, fileCache (sequence st1) !! path = None ->
       lib_getDimensions h1 path = lib_getDimensions h2 path) ->
    match _sanitizeData h1 rep st1, _sanitizeData h2 rep st2 with
    | Ok (d1, s1), Ok (d2, s2) =>
        d1 = d2 /\ anchor_value (this s1) d1 = anchor_value (this s2) d2
    | Throw e1, Throw e2 => e1 = e2
    | _, _ => False
    end.
Proof.
  intros h1 h2 rep st1 st2 Hgrid Hdist Hangle Hrandom Htemplate Hthis Hpre
    Hpost Hdraws Hfc Hnames Hprobe.
  pose proof (rel_sanitizeData h1 h2 rep (_from (fields (this st1)))
                (_to (fields (this st1)))
                (_rotationOnly (fields (this st1))) eq eq
                Hgrid Hdist Hangle Hrandom Htemplate) as Hrel.
  unfold related in Hrel. specialize (Hrel ltac:(congruence)).
  specialize (Hrel ltac:(intros a c1 c2 ->; rewrite Hgrid; reflexivity)).
  specialize (Hrel st1 st2).
  destruct (_sanitizeData h1 rep st1) as [[d1 s1]|e1],
           (_sanitizeData h2 rep st2) as [[d2 s2]|e2].
  - destruct Hrel as ((Hsame & Hscale) & (Hf & HG & _) & _).
    { unfold alike, fields_alike. rewrite <- Hthis.
      repeat split; auto. }
    assert (Hd : d1 = d2).
    { apply same_but_scale_eq; [exact Hsame|].
      destruct (hit _ d1); [exact Hscale|].
      destruct Hscale as [HX HY].
      destruct (scale d1), (scale d2). simpl in *. congruence. }
    split; [exact Hd|]. subst d2. unfold anchor_value.
    rewrite (same_but_grid_eq _ _ Hf HG). reflexivity.
  - apply Hrel. unfold alike, fields_alike. rewrite <- Hthis.
    repeat split; auto.
  - apply Hrel. unfold alike, fields_alike. rewrite <- Hthis.
    repeat split; auto.
  - apply Hrel. unfold alike, fields_alike. rewrite <- Hthis.
    repeat split; auto.
Qed.

(** The reaching effect of the examples on two pages that differ in what
    the probe finds for the cached video, from two states that differ in
    the log of the probe and in a position recorded for another repetition:
    the two runs return the same data. *)
Definition other_probe_host (draw : nat -> Q) : Host :=
  {| canvas_grid_size := 100;
     Ray_distance := axis_distance;
     Ray_angle := fun _ _ => 0;
     Math_random := draw;
     Handlebars_compile := fun f _ => Ok (file_to_string f);
     lib_getDimensions :=
       fun path =>
         if String.eqb path "beam.webm" then Throw AssetMeasurementError
         else Ok (Vec (Fin 400) (Fin 200)) |}.

Definition other_beam_sequence : Sequence :=
  {| cachedPositions := {[ ("other", 1%nat) := Vec 1 2 ]};
     fileCache := {[ "beam.webm" := Vec (Fin 200) (Fin 100) ]} |}.

Lemma sanitizeData_deterministic_witness :
  let h1 := example_host (fun _ => 1 # 4) in
  let h2 := other_probe_host (fun _ => 1 # 4) in
  let st1 := start (reach_example h1) beam_sequence 0 in
  let st2 :=
    {| this := reach_example h1; sequence := other_beam_sequence;
       draws := 0; probed := ["old.webm"] |} in
  exists d s1 s2,
    _sanitizeData h1 0 st1 = Ok (d, s1)
    /\ _sanitizeData h2 0 st2 = Ok (d, s2).
Proof.
  intros h1 h2 st1 st2.
  pose proof (sanitizeData_deterministic h1 h2 0 st1 st2) as H.
  assert (E1 : exists d s1, _sanitizeData h1 0 st1 = Ok (d, s1))
    by (vm_compute; eauto).
  destruct E1 as (d1 & s1 & E1). rewrite E1 in H.
  destruct (_sanitizeData h2 0 st2) as [[d2 s2]|e2].
  - destruct H as [-> _]; try reflexivity.
    + intros n [Hn | Hn]; discriminate Hn.
    + intros path Hpath. simpl.
      destruct (String.eqb_spec path "beam.webm") as [-> | _];
        [|reflexivity].
      vm_compute in Hpath. discriminate Hpath.
    + eauto.
  - exfalso. apply H; try reflexivity.
    + intros n [Hn | Hn]; discriminate Hn.
    + intros path Hpath. simpl.
      destruct (String.eqb_spec path "beam.webm") as [-> | _];
        [|reflexivity].
      vm_compute in Hpath. discriminate Hpath.
Defined.

(** ** Grid size *)

(** [b] is half of [a]; half of an infinity is that infinity, and NaN
    stays NaN. *)
Definition half_of (a b : num) : Prop :=
  match a, b with
  | Fin p, Fin q => q == p / 2
  | Inf s, Inf t => s = t
  | NaN, NaN => True
  | _, _ => False
  end.

Lemma half_of_times (a b : num) (q : Q) :
  half_of a b -> half_of (nmul a (Fin q)) (nmul b (Fin q)).
Proof.
  destruct a as [p|s|], b as [r|t|]; simpl; try contradiction.
  - intros H. rewrite H. field.
  - intros ->. destruct (Qeq_bool q 0); simpl; auto.
  - auto.
Qed.

Lemma Qeq_bool_half (k1 k2 : Q) :
  k2 == k1 / 2 -> Qeq_bool k2 0 = Qeq_bool k1 0.
Proof.
  intros H. pose proof (Qdiv2 k1) as D.
  destruct (Qeq_bool k1 0) eqn:E1.
  - apply Qeq_bool_iff. apply Qeq_bool_iff in E1.
    rewrite H, E1. reflexivity.
  - destruct (Qeq_bool k2 0) eqn:E2; [|reflexivity].
    apply Qeq_bool_iff in E2.
    assert (k1 == 0) by lra.
    apply Qeq_bool_iff in H0. congruence.
Qed.

Lemma Qltb_half (k1 k2 : Q) : k2 == k1 / 2 -> Qltb k2 0 = Qltb k1 0.
Proof.
  intros H. pose proof (Qdiv2 k1) as D. unfold Qltb.
  destruct (Qle_bool 0 k1) eqn:E1.
  - apply Qle_bool_iff in E1.
    assert (E2 : 0 <= k2) by lra. apply Qle_bool_iff in E2.
    rewrite E2. reflexivity.
  - destruct (Qle_bool 0 k2) eqn:E2; [|reflexivity].
    apply Qle_bool_iff in E2.
    assert (E3 : 0 <= k1) by lra. apply Qle_bool_iff in E3. congruence.
Qed.

(** Twice the grid size of the section, half the factor of the grid. *)
Definition doubled (c1 c2 : Q) : Prop := ~ c1 == 0 /\ c2 == 2 * c1.

Lemma half_of_grid (g : Q) (a : num) (c1 c2 : Q) :
  doubled c1 c2 ->
  half_of (nmul a (ndiv (Fin g) (Fin c1))) (nmul a (ndiv (Fin g) (Fin c2))).
Proof.
  intros [Hc1 Hc2].
  assert (Hc2' : ~ c2 == 0) by (rewrite Hc2; lra).
  assert (E1 : Qeq_bool c1 0 = false)
    by (destruct (Qeq_bool c1 0) eqn:E; [apply Qeq_bool_iff in E|]; tauto).
  assert (E2 : Qeq_bool c2 0 = false)
    by (destruct (Qeq_bool c2 0) eqn:E; [apply Qeq_bool_iff in E|]; tauto).
  unfold ndiv. rewrite E1, E2.
  assert (Hk : g / c2 == g / c1 / 2) by (rewrite Hc2; field; exact Hc1).
  destruct a as [p|s|]; simpl; auto.
  - rewrite Hk. field. exact Hc1.
  - rewrite (Qeq_bool_half _ _ Hk), (Qltb_half _ _ Hk).
    destruct (Qeq_bool (g / c1) 0); simpl; auto.
Qed.

(** C5, as the code has it.  The normalization step multiplies both axes
    of the scale by [canvas.grid.size / _gridSize].  For a section without
    overrides and a grid size [c] other than 0, the runs with grid size [c]
    and with grid size [2 * c] throw the same error or both return, with
    data that differ in the scale only: where the hit vector applies (a
    section that reaches, with a distance other than 0) the two scales are
    the same, and everywhere else both axes of the second are half those
    of the first. *)
Theorem gridSize_doubled_halves_scale :
  forall (host : Host) (rep : nat) (st : State) (c : Q),
    ~ c == 0 ->
    _overrides (this st) = [] -> _postOverrides (this st) = [] ->
    let st1 := set_this (Builder.gridSize c (this st)) st in
    let st2 := set_this (Builder.gridSize (2 * c) (this st)) st in
    (forall data,
       normalize_grid host data st1
       = Ok (set_scale
               (Vec (nmul (X (scale data))
                          (ndiv (Fin (canvas_grid_size host)) (Fin c)))
                    (nmul (Y (scale data))
                          (ndiv (Fin (canvas_grid_size host)) (Fin c))))
               data, st1))
    /\ match _sanitizeData host rep st1, _sanitizeData host rep st2 with
       | Ok (d1, _), Ok (d2, _) =>
           same_but_scale d1 d2
           /\ if negb (_rotationOnly (fields (this st)))
                 && negb (Qeq_bool (_distance d1) 0)
              then scale d1 = scale d2
              else half_of (X (scale d1)) (X (scale d2))
                   /\ half_of (Y (scale d1)) (Y (scale d2))
       | Throw e1, Throw e2 => e1 = e2
       | _, _ => False
       end.
Proof.
  intros host rep st c Hc Hpre Hpost st1 st2. split; [reflexivity|].
  pose proof (rel_sanitizeData host host rep (_from (fields (this st)))
                (_to (fields (this st)))
                (_rotationOnly (fields (this st))) doubled half_of
                eq_refl (fun _ _ => eq_refl) (fun _ _ => eq_refl)
                (fun _ => eq_refl) (fun _ _ => eq_refl)
                half_of_times (half_of_grid (canvas_grid_size host))
                st1 st2) as Hrel.
  assert (Halike : alike host host rep (_from (fields (this st)))
                     (_to (fields (this st)))
                     (_rotationOnly (fields (this st))) doubled st1 st2).
  { unfold alike, fields_alike, doubled. simpl. repeat split; auto. }
  specialize (Hrel Halike).
  destruct (_sanitizeData host rep st1) as [[d1 s1]|e1],
           (_sanitizeData host rep st2) as [[d2 s2]|e2]; try exact Hrel.
  destruct Hrel as [Hreached _]. exact Hreached.
Qed.

(** An effect rotated towards a point, on a scene grid of 100: with grid
    size 100 the scale is 1 by 1, with grid size 200 it is 0.5 by 0.5. *)
Lemma gridSize_doubled_halves_scale_witness :
  let host := example_host (fun _ => 0) in
  let s := Builder.rotateTowards (LObject (Vec 100 0))
             (Builder.atLocation (LObject (Vec 0 0))
                (Builder.constructor host (FString "a.webm"))) in
  let st := start s empty_sequence 0 in
  exists d1 s1 d2 s2,
    _sanitizeData host 0 (set_this (Builder.gridSize 100 s) st) = Ok (d1, s1)
    /\ _sanitizeData host 0 (set_this (Builder.gridSize (2 * 100) s) st)
       = Ok (d2, s2)
    /\ vec_eq (scale d1) (Vec (Fin 1) (Fin 1))
    /\ half_of (X (scale d1)) (X (scale d2))
    /\ half_of (Y (scale d1)) (Y (scale d2)).
Proof.
  intros host s st.
  destruct (gridSize_doubled_halves_scale host 0 st 100) as [_ H];
    try reflexivity; [discriminate|].
  assert (E1 : exists d1 s1,
             _sanitizeData host 0 (set_this (Builder.gridSize 100 s) st)
             = Ok (d1, s1) /\ vec_eq (scale d1) (Vec (Fin 1) (Fin 1)))
    by (eexists _, _; split; [vm_compute; reflexivity|];
        split; vm_compute; reflexivity).
  destruct E1 as (d1 & s1 & E1 & Hone).
  change (this st) with s in H. rewrite E1 in H.
  destruct (_sanitizeData host 0 (set_this (Builder.gridSize (2 * 100) s) st))
    as [[d2 s2]|e2]; [|contradiction].
  exists d1, s1, d2, s2. destruct H as [_ H]. simpl in H.
  split; [exact E1|]. split; [reflexivity|]. split; [exact Hone|exact H].
Defined.

(** An override may write any scale. *)
Definition write_scale_1 : Override :=
  fun _ data => Ok (set_scale (Vec (Fin 1) (Fin 1)) data).

(** For the reaching effect of the examples the hit vector writes the
    scale: with grid size 100 and with grid size 200 the scale is 0.5 by
    0.5, so doubling the grid size has not halved it.  Nor does it for an
    effect whose last override writes the scale. *)
Lemma reach_scale_ignores_gridSize :
  let host := example_host (fun _ => 0) in
  let st1 := start (Builder.gridSize 100 (reach_example host))
                   beam_sequence 0 in
  let st2 := start (Builder.gridSize 200 (reach_example host))
                   beam_sequence 0 in
  let o := Builder.addPostOverride write_scale_1
             (Builder.constructor host (FString "a.webm")) in
  (exists d1 s1 d2 s2,
     _sanitizeData host 0 st1 = Ok (d1, s1)
     /\ _sanitizeData host 0 st2 = Ok (d2, s2)
     /\ vec_eq (scale d1) (Vec (Fin 0.5) (Fin 0.5))
     /\ vec_eq (scale d2) (Vec (Fin 0.5) (Fin 0.5))
     /\ ~ half_of (X (scale d1)) (X (scale d2))
     /\ ~ half_of (Y (scale d1)) (Y (scale d2)))
  /\ (exists d1 s1 d2 s2,
        _sanitizeData host 0 (start (Builder.gridSize 100 o) empty_sequence 0)
        = Ok (d1, s1)
        /\ _sanitizeData host 0
             (start (Builder.gridSize 200 o) empty_sequence 0)
           = Ok (d2, s2)
        /\ scale d1 = Vec (Fin 1) (Fin 1)
        /\ scale d2 = Vec (Fin 1) (Fin 1)
        /\ ~ half_of (X (scale d1)) (X (scale d2))).
Proof.
  intros host st1 st2 o. split.
  - eexists _, _, _, _.
    split; [vm_compute; reflexivity|]. split; [vm_compute; reflexivity|].
    repeat split; try (vm_compute; reflexivity); vm_compute; discriminate.
  - eexists _, _, _, _.
    split; [vm_compute; reflexivity|]. split; [vm_compute; reflexivity|].
    repeat split; vm_compute; discriminate.
Qed.

(** * Further properties of the run *)

(** ** The cache of dimensions *)

(** What a call of [_getFileDimensions] that returns has done: nothing to
    the state, when the name or the cache had the dimensions, or one call
    of the probe for a path that the cache did not have. *)
Lemma getFileDimensions_effect host inFile st d st' :
  _getFileDimensions host inFile st = Ok (d, st') ->
  let p := _baseFolder (fields (this st)) ++ file_to_string inFile in
  st' = st
  /\ ((_JB2A (fields (this st)) = true /\ dimensions_in_name p = Some d)
      \/ fileCache (sequence st) !! p = Some d)
  \/ (if _JB2A (fields (this st)) then dimensions_in_name p else None) = None
     /\ fileCache (sequence st) !! p = None
     /\ lib_getDimensions host p = Ok d
     /\ st' = after_probe p d st.
Proof.
  intros H p.
  destruct (if _JB2A (fields (this st)) then dimensions_in_name p else None)
    as [d0|] eqn:E.
  - assert (HJ : _JB2A (fields (this st)) = true)
      by (destruct (_JB2A (fields (this st))); [reflexivity|discriminate]).
    rewrite HJ in E.
    rewrite (getFileDimensions_from_name host inFile st d0 HJ E) in H.
    inversion H; subst. left. auto.
  - rewrite (getFileDimensions_fall_through host inFile st E) in H.
    cbv zeta in H. fold p in H.
    destruct (fileCache (sequence st) !! p) as [c|] eqn:Ec.
    + inversion H; subst. left. auto.
    + destruct (lib_getDimensions host p) as [c|e]; [|discriminate].
      inversion H; subst. right. auto.
Qed.

(** X1. A call of [_getFileDimensions] that returns can be repeated: the
    second call for the same file returns the same dimensions and leaves
    the state as it is, so it does not probe.  The first call has probed at
    most once, and only for a path that the cache did not have; what the
    probe found is in the cache afterwards. *)
Theorem getFileDimensions_twice :
  forall (host : Host) (inFile : FileVal) (st : State) (d : vec num)
         (st' : State),
    _getFileDimensions host inFile st = Ok (d, st') ->
    let p := _baseFolder (fields (this st)) ++ file_to_string inFile in
    _getFileDimensions host inFile st' = Ok (d, st')
    /\ (probed st' = probed st
        \/ probed st' = p :: probed st
           /\ fileCache (sequence st) !! p = None
           /\ lib_getDimensions host p = Ok d
           /\ fileCache (sequence st') !! p = Some d).
Proof.
  intros host inFile st d st' H p.
  destruct (getFileDimensions_effect host inFile st d st' H)
    as [[-> _] | (E & Hnone & Hprobe & ->)].
  - split; [exact H|]. left. reflexivity.
  - fold p in E, Hnone, Hprobe. split.
    + rewrite getFileDimensions_fall_through by exact E.
      cbv zeta. cbn [after_probe this sequence fileCache]. fold p.
      rewrite lookup_insert_eq. reflexivity.
    + right. cbn [after_probe probed sequence fileCache].
      rewrite lookup_insert_eq. auto.
Qed.

(** A video that is not in the cache is probed by the first call and not
    by the second. *)
Lemma getFileDimensions_twice_witness :
  let host := example_host (fun _ => 0) in
  let st := start (Builder.constructor host (FString "a.webm"))
                  empty_sequence 0 in
  exists d st',
    _getFileDimensions host (FString "a.webm") st = Ok (d, st')
    /\ probed st' = ["a.webm"]
    /\ _getFileDimensions host (FString "a.webm") st' = Ok (d, st').
Proof.
  intros host st.
  assert (E : _getFileDimensions host (FString "a.webm") st
              = Ok (Vec (Fin 400) (Fin 200),
                    after_probe "a.webm" (Vec (Fin 400) (Fin 200)) st))
    by reflexivity.
  eexists _, _. split; [exact E|]. split; [reflexivity|].
  exact (proj1 (getFileDimensions_twice host _ _ _ _ E)).
Defined.
(** ** The steps of a run, one by one *)

(** The data without its file, its scale and its anchor: the position, the
    distance, the rotation, the angle, the speed, the playback rate and the
    two fades. *)
Definition core (d : Data) : Data :=
  set_file FUndefined (set_scale (Vec NaN NaN) (set_anchor SectionAnchor d)).

Lemma core_fields d d' :
  core d' = core d ->
  position d' = position d /\ _distance d' = _distance d
  /\ rotation d' = rotation d /\ angle d' = angle d /\ speed d' = speed d
  /\ playbackRate d' = playbackRate d /\ fadeIn d' = fadeIn d
  /\ fadeOut d' = fadeOut d.
Proof.
  intros E.
  repeat split;
    match goal with
    | |- ?p d' = ?p d => exact (f_equal p E)
    end.
Qed.

(** The section without its anchor object is the section in every other
    field and in both lists of overrides. *)
Lemma configuration_fields s s' :
  configuration s' = configuration s ->
  with_anchor None (fields s') = with_anchor None (fields s)
  /\ _overrides s' = _overrides s /\ _postOverrides s' = _postOverrides s.
Proof.
  intros H. split; [exact (f_equal fields H)|].
  split; [exact (f_equal _overrides H)|exact (f_equal _postOverrides H)].
Qed.

(** The draw that the random rotation uses. *)
Definition rotation_drawn (host : Host) (st : State) : Q :=
  if _randomRotation (fields (this st))
  then Math_random host (draws st) * Math_PI else 0.

(** The signs that the mirroring draws from the state [st] on. *)
Definition mirror_x (host : Host) (st : State) : Q :=
  if _randomX (fields (this st)) then flip (Math_random host (draws st))
  else 1.

Definition mirror_y (host : Host) (st : State) : Q :=
  if _randomY (fields (this st))
  then flip (Math_random host
               ((if _randomX (fields (this st)) then 1 else 0) + draws st))
  else 1.

(** The state after the scaling and the mirroring, which draw. *)
Definition after_scaling (st : State) : State :=
  let s := fields (this st) in
  tick ((if _randomY s then 1 else 0) + (if _randomX s then 1 else 0))
       (tick (scale_draws s) st).

Lemma only_draws_after_scaling st : only_draws st (after_scaling st).
Proof.
  unfold after_scaling.
  eapply only_draws_trans; apply only_draws_tick.
Qed.

Section Frame.

Context (host : Host).

Lemma draws_random_rotation data :
  stable only_draws (random_rotation host data).
Proof.
  intros st a st' H. rewrite random_rotation_eq in H.
  destruct (_randomRotation (fields (this st))); inversion H;
    auto using only_draws_tick, only_draws_refl.
Qed.

Lemma draws_run_overrides l data : stable only_draws (run_overrides l data).
Proof.
  revert data. induction l as [|f l IH]; intros data; simpl.
  - draws_step.
  - draws_step; [draws_step|]. draws_step; [draws_step|]. apply IH.
Qed.

Lemma run_overrides_state l data st d st' :
  run_overrides l data st = Ok (d, st') -> st' = st.
Proof.
  revert data. induction l as [|f l IH]; intros data; simpl.
  - intros H; by inversion H.
  - run_unfold. destruct (f (fields (this st)) data) as [d1|e];
      [apply IH|discriminate].
Qed.

Lemma pick_file_inv data st d st' :
  pick_file host data st = Ok (d, st') ->
  only_draws st st' /\ core d = core data /\ anchor d = anchor data
  /\ scale d = scale data
  /\ (forall f, file data = FString f -> d = data /\ st' = st).
Proof.
  intros H. unfold pick_file in H. destruct (file data) as [f|l|] eqn:Ef.
  - inversion H; subst. repeat split; auto using only_draws_refl.
  - unfold random_array_element in H. run_unfold. rewrite random_eq in H.
    inversion H; subst. split; [apply only_draws_tick|].
    repeat split; auto; discriminate.
  - inversion H; subst. repeat split; auto using only_draws_refl.
Qed.

Lemma apply_mustache_inv data st d st' :
  apply_mustache host data st = Ok (d, st') ->
  st' = st /\ core d = core data /\ anchor d = anchor data
  /\ scale d = scale data
  /\ (_mustache (fields (this st)) = None -> d = data)
  /\ (forall m, _mustache (fields (this st)) = Some m ->
        exists r, Handlebars_compile host (file data) m = Ok r
                  /\ file d = FString r).
Proof.
  unfold apply_mustache. run_unfold.
  destruct (_mustache (fields (this st))) as [m|].
  - destruct (Handlebars_compile host (file data) m) as [r|e] eqn:E;
      intros H; inversion H; subst.
    do 4 (split; [reflexivity|]). split; [discriminate|].
    intros m' Hm. inversion Hm; subst m'. eauto.
  - intros H; inversion H; subst. repeat split; auto. discriminate.
Qed.

Lemma write_anchor_x_inv v data st d st' :
  write_anchor_x v data st = Ok (d, st') ->
  draws st' = draws st /\ sequence st' = sequence st
  /\ probed st' = probed st
  /\ configuration (this st') = configuration (this st)
  /\ core d = core data /\ file d = file data /\ scale d = scale data
  /\ match anchor data with
     | OwnAnchor a => this st' = this st /\ anchor d = OwnAnchor (Vec v (Y a))
     | SectionAnchor =>
         anchor d = SectionAnchor
         /\ forall a, _anchor (fields (this st)) = Some a ->
              _anchor (fields (this st')) = Some (Vec v (Y a))
     end.
Proof.
  intros H. pose proof (keeps_write_anchor_x v data st d st' H) as Hconf.
  unfold write_anchor_x in H. destruct (anchor data) as [a|] eqn:Ea.
  - inversion H; subst. repeat split; auto.
  - inversion H; subst. cbn. repeat split; auto.
    intros a ->. reflexivity.
Qed.

(** What the hit vector does to the state: the dimensions are taken, and
    the anchor is written. *)
Lemma calculateHitVector_inv data st d st' :
  _calculateHitVector host data st = Ok (d, st') ->
  Qeq_bool (_distance data) 0 = false ->
  exists dims st1,
    _getFileDimensions host (file data) st = Ok (dims, st1)
    /\ write_anchor_x
         (ndiv (Fin (_startPoint (fields (this st)))) (X dims))
         (set_scale
            (Vec (ndiv (Fin (_distance data))
                       (_getTrueLength (fields (this st)) dims))
                 (Math_max (Fin 0.4)
                    (ndiv (Fin (_distance data))
                          (_getTrueLength (fields (this st)) dims))))
            data) st1
       = Ok (d, st').
Proof.
  intros H Hd. unfold _calculateHitVector in H. rewrite Hd in H.
  apply bind_inv in H as (dims & st1 & Hdims & H).
  exists dims, st1. split; [exact Hdims|].
  rewrite <- (getFileDimensions_this _ _ _ _ _ Hdims).
  exact H.
Qed.

(** [reach] skips the hit vector, or takes the dimensions and writes the
    scale and the anchor. *)
Lemma reach_inv data st d st' :
  reach host data st = Ok (d, st') ->
  (_rotationOnly (fields (this st)) = true
   \/ Qeq_bool (_distance data) 0 = true) /\ d = data /\ st' = st
  \/ _rotationOnly (fields (this st)) = false
     /\ Qeq_bool (_distance data) 0 = false
     /\ exists dims st1,
          _getFileDimensions host (file data) st = Ok (dims, st1)
          /\ write_anchor_x
               (ndiv (Fin (_startPoint (fields (this st)))) (X dims))
               (set_scale
                  (Vec (ndiv (Fin (_distance data))
                             (_getTrueLength (fields (this st)) dims))
                       (Math_max (Fin 0.4)
                          (ndiv (Fin (_distance data))
                                (_getTrueLength (fields (this st)) dims))))
                  data) st1
             = Ok (d, st').
Proof.
  intros H.
  destruct (_rotationOnly (fields (this st))) eqn:Ero;
    [|destruct (Qeq_bool (_distance data) 0) eqn:Ed].
  1,2: rewrite reach_skipped in H by auto; inversion H; subst; auto.
  right. split; [reflexivity|]. split; [reflexivity|].
  apply calculateHitVector_inv; [|exact Ed].
  unfold reach in H. run_unfold. rewrite Ero in H. exact H.
Qed.

(** What [reach] does to the state: nothing to the draws and to the
    positions; at most one path probed and cached, the path of the file of
    the data; of the section only the anchor object written. *)
Lemma reach_state data st d st' :
  reach host data st = Ok (d, st') ->
  let p := _baseFolder (fields (this st)) ++ file_to_string (file data) in
  core d = core data /\ file d = file data
  /\ draws st' = draws st
  /\ cachedPositions (sequence st') = cachedPositions (sequence st)
  /\ configuration (this st') = configuration (this st)
  /\ (fileCache (sequence st') = fileCache (sequence st)
      /\ probed st' = probed st
      \/ _rotationOnly (fields (this st)) = false
         /\ Qeq_bool (_distance data) 0 = false
         /\ fileCache (sequence st) !! p = None
         /\ exists c,
              lib_getDimensions host p = Ok c
              /\ fileCache (sequence st')
                 = <[p := c]> (fileCache (sequence st))
              /\ probed st' = p :: probed st)
  /\ (_rotationOnly (fields (this st)) = true
      \/ (exists a, anchor data = OwnAnchor a) -> this st' = this st).
Proof.
  intros H p.
  destruct (reach_inv _ _ _ _ H)
    as [(_ & -> & ->) | (Ero & Ed & dims & st1 & Hdims & Hw)].
  { repeat split; auto. }
  apply write_anchor_x_inv in Hw
    as (Wd & Ws & Wp & Wc & Wcore & Wfile & _ & Wa).
  cbn [anchor set_scale] in Wa.
  split; [exact Wcore|]. split; [exact Wfile|].
  rewrite Wd, Ws, Wp, Wc.
  destruct (getFileDimensions_effect host _ _ _ _ Hdims)
    as [[-> _] | (_ & Hnone & Hprobe & ->)].
  - do 4 (split; [auto|]).
    intros [Hro | [a Ha]]; [congruence|].
    rewrite Ha in Wa. apply Wa.
  - fold p in Hnone, Hprobe |- *.
    cbn [after_probe draws sequence cachedPositions fileCache this probed].
    do 3 (split; [reflexivity|]). split; [right; eauto 10|].
    intros [Hro | [a Ha]]; [congruence|].
    rewrite Ha in Wa. apply Wa.
Qed.

(** The data on which the hit vector is called in a run without overrides,
    from the data [d0] and the state [st0] that [place] returned. *)
Definition prepared (st0 : State) (d0 d1 : Data) : Prop :=
  let s := fields (this st0) in
  core d1 = core (set_rotation (rotation d0 + rotation_drawn host st0) d0)
  /\ anchor d1 = anchor d0
  /\ scale d1 = Vec (nmul (X (scale d0)) (grid_ratio host s))
                    (nmul (Y (scale d0)) (grid_ratio host s))
  /\ (forall f, file d0 = FString f -> _mustache s = None ->
        file d1 = FString f)
  /\ (forall f m, file d0 = FString f -> _mustache s = Some m ->
        exists r, Handlebars_compile host (FString f) m = Ok r
                  /\ file d1 = FString r).

(** The data that a run without post overrides returns, from the data [d2]
    and the state [st2] that the hit vector left. *)
Definition finished (st2 : State) (d2 d : Data) : Prop :=
  let s := fields (this st2) in
  let f := scale_factor s (Math_random host (draws st2)) in
  let st := tick (scale_draws s) st2 in
  core d = core d2 /\ anchor d = anchor d2
  /\ file d = FString (_baseFolder s ++ file_to_string (file d2))
  /\ scale d
     = Vec (nmul (nmul (X (scale d2)) (Fin (default 1 (fst f))))
                 (Fin (mirror_x host st)))
           (nmul (nmul (Y (scale d2)) (Fin (default 1 (snd f))))
                 (Fin (mirror_y host st))).

(** A run that returns, taken apart: the positions, the steps up to the
    hit vector, the hit vector, the steps after it, and the record of the
    position.  Only the draws move outside the hit vector and the record. *)
Lemma sanitizeData_phases rep st d st' :
  _sanitizeData host rep st = Ok (d, st') ->
  exists d0 st0 d1 st1 d2 st2 st3,
    place host rep (initial_data (fields (this st))) st = Ok (d0, st0)
    /\ only_draws st0 st1
    /\ (_overrides (this st) = [] -> prepared st0 d0 d1)
    /\ reach host d1 st1 = Ok (d2, st2)
    /\ st3 = after_scaling st2
    /\ (_postOverrides (this st) = [] -> finished st2 d2 d)
    /\ record_position rep d st3 = Ok (d, st').
Proof.
  intros H. unfold _sanitizeData in H.
  apply bind_inv in H as (s & sa & Hs & H). inversion Hs; subst s sa.
  apply bind_inv in H as (d0 & st0 & Hplace & H).
  apply bind_inv in H as (d0r & st0r & Hrot & H).
  apply bind_inv in H as (pre & stp & Hpre & H). inversion Hpre; subst pre stp.
  apply bind_inv in H as (dA & stA & HA & H).
  apply bind_inv in H as (dB & stB & HB & H).
  apply bind_inv in H as (dC & stC & HC & H).
  apply bind_inv in H as (d1 & st1 & HD & H).
  apply bind_inv in H as (d2 & st2 & Hreach & H).
  apply bind_inv in H as (dE & stE & HE & H).
  apply bind_inv in H as (dF & stF & HF & H).
  apply bind_inv in H as (dG & stG & HG & H).
  apply bind_inv in H as (post & stq & Hpost & H).
  inversion Hpost; subst post stq.
  apply bind_inv in H as (dH & st3 & HH & H).
  pose proof (record_position_inv _ _ _ _ _ H) as (<- & _).
  exists d0, st0, d1, st1, d2, st2, st3.
  pose proof (draws_place host rep _ _ _ _ Hplace) as P0.
  pose proof (draws_random_rotation _ _ _ _ Hrot) as P1.
  pose proof (draws_run_overrides _ _ _ _ _ HA) as P2.
  pose proof (pick_file_inv _ _ _ _ HB)
    as (P3 & Bcore & Banchor & Bscale & Bfile).
  pose proof (apply_mustache_inv _ _ _ _ HC)
    as (-> & Ccore & Canchor & Cscale & Cfile & Crender).
  rewrite normalize_grid_eq in HD. inversion HD; subst d1 st1. clear HD.
  rewrite apply_scale_eq in HE. cbv zeta in HE. inversion HE; subst dE stE.
  clear HE.
  rewrite mirror_eq in HF. cbv zeta in HF. inversion HF; subst dF stF.
  clear HF.
  rewrite prepend_base_folder_eq in HG. inversion HG; subst dG stG. clear HG.
  pose proof (run_overrides_state _ _ _ _ _ HH) as P4.
  split; [exact Hplace|].
  split; [eauto using only_draws_trans|].
  split.
  { intros Hnone.
    assert (T0 : this st0 = this st) by apply P0.
    assert (T1 : this st0r = this st0) by apply P1.
    rewrite T1, T0, Hnone in HA. inversion HA; subst dA stA. clear HA.
    assert (Hd0r : d0r = set_rotation (rotation d0 + rotation_drawn host st0)
                           d0).
    { rewrite random_rotation_eq in Hrot. unfold rotation_drawn.
      destruct (_randomRotation (fields (this st0))); by inversion Hrot. }
    assert (T3 : this stB = this st0) by (destruct P3 as [-> _]; exact T1).
    unfold prepared. cbn [scale anchor file set_scale].
    split; [|split; [|split; [|split]]].
    - rewrite <- Hd0r. change (core dC = core d0r). rewrite Ccore.
      exact Bcore.
    - rewrite Canchor, Banchor, Hd0r. reflexivity.
    - rewrite T3, Cscale, Bscale, Hd0r. reflexivity.
    - intros f Hf Hm. rewrite Cfile by (rewrite T3; exact Hm).
      destruct (Bfile f) as [-> _]; rewrite Hd0r; exact Hf.
    - intros f m Hf Hm. rewrite <- T3 in Hm.
      destruct (Crender m Hm) as (r & Hr & Hfile).
      assert (HdB : file dB = FString f)
        by (destruct (Bfile f) as [-> _]; rewrite Hd0r; exact Hf).
      rewrite HdB in Hr. eauto. }
  split; [exact Hreach|].
  split; [exact P4|].
  split; [|exact H].
  intros Hnone.
  assert (T2 : _postOverrides (this st2) = _postOverrides (this st)).
  { pose proof (reach_state _ _ _ _ Hreach) as (_ & _ & _ & _ & Hconf & _).
    apply configuration_fields in Hconf as (_ & _ & ->).
    destruct P3 as [-> _]. destruct P2 as [-> _]. destruct P1 as [-> _].
    destruct P0 as [-> _]. reflexivity. }
  cbn [this tick] in HH. rewrite T2, Hnone in HH.
  inversion HH; subst d st3. clear HH.
  unfold finished, mirror_x, mirror_y.
  cbn [this tick draws scale anchor file set_scale set_file].
  repeat split.
Qed.

(** The name of a run depends on the section through [_name] only. *)
Lemma getName_configuration s s' data :
  configuration s' = configuration s ->
  _getName (fields s') data = _getName (fields s) data.
Proof.
  intros H. apply configuration_fields in H as (H & _).
  assert (E : _name (fields s') = _name (fields s))
    by exact (f_equal _name H).
  unfold _getName. rewrite E. reflexivity.
Qed.

(** What a run that returns has done to the state. *)
Lemma sanitizeData_state rep st d st' :
  _sanitizeData host rep st = Ok (d, st') ->
  (draws st <= draws st')%nat
  /\ (exists n,
        _getName (fields (this st)) d = Ok n
        /\ cachedPositions (sequence st')
           = <[(n, rep) := position d]> (cachedPositions (sequence st)))
  /\ (fileCache (sequence st') = fileCache (sequence st)
      /\ probed st' = probed st
      \/ _rotationOnly (fields (this st)) = false
         /\ exists p c,
              fileCache (sequence st) !! p = None
              /\ lib_getDimensions host p = Ok c
              /\ fileCache (sequence st')
                 = <[p := c]> (fileCache (sequence st))
              /\ probed st' = p :: probed st
              /\ (_postOverrides (this st) = [] ->
                  file d = FString p
                  /\ Qeq_bool (_distance d) 0 = false))
  /\ (_rotationOnly (fields (this st)) = true -> this st' = this st).
Proof.
  intros H.
  destruct (sanitizeData_phases _ _ _ _ H)
    as (d0 & st0 & d1 & st1 & d2 & st2 & st3 & Hplace & P1 & _ & Hreach
        & E3 & Hfin & Hrec).
  pose proof (draws_place host rep _ _ _ _ Hplace) as P0.
  pose proof (only_draws_trans _ _ _ P0 P1) as (T1 & S1 & B1 & D1).
  pose proof (only_draws_after_scaling st2) as P3. rewrite <- E3 in P3.
  destruct P3 as (T3 & S3 & B3 & D3). clear E3.
  destruct (reach_state _ _ _ _ Hreach)
    as (Rcore & Rfile & Rd & Rpos & Rconf & Rcache & Rthis).
  cbv zeta in Rcache.
  unfold record_position, _insertCachedPosition in Hrec. run_unfold.
  destruct (_getName (fields (this st3)) d) as [n|e] eqn:Hn; [|discriminate].
  inversion Hrec; subst st'. clear Hrec.
  cbn [set_sequence draws sequence cachedPositions fileCache this probed].
  rewrite T3, getName_configuration with (s := this st1) in Hn
    by exact Rconf.
  rewrite T1 in Hn.
  split; [lia|]. split.
  { exists n. split; [exact Hn|]. rewrite S3, Rpos, S1. reflexivity. }
  rewrite S3, B3, T3. rewrite T1 in Rcache, Rthis. rewrite S1, B1 in Rcache.
  split.
  - destruct Rcache as [Hsame | (Ero & Ed & Hnone & c & Hprobe & Hc & Hp)];
      [left; exact Hsame|].
    right. split; [exact Ero|]. eexists _, c.
    do 4 (split; [eassumption|]).
    intros Hpost. destruct (Hfin Hpost) as (Fcore & _ & Ffile & _).
    split.
    + rewrite Ffile, Rfile.
      apply configuration_fields in Rconf as (Rconf & _).
      assert (E : _baseFolder (fields (this st2))
                  = _baseFolder (fields (this st1)))
        by exact (f_equal _baseFolder Rconf).
      rewrite E, T1. reflexivity.
    + apply core_fields in Fcore as (_ & -> & _).
      apply core_fields in Rcore as (_ & -> & _). exact Ed.
  - intros Hro. apply Rthis. auto.
Qed.

End Frame.
(** ** What a run does to the sequence and to the section *)

(** X2. A run of [_sanitizeData] that returns, whatever data its overrides
    return, has changed the recorded positions in one place only: the
    position of the data it returns is recorded under the name of the run
    for the repetition of the run, and every position recorded under
    another name or for another repetition is as it was. *)
Theorem sanitizeData_records_one_position :
  forall (host : Host) (rep : nat) (st : State) (d : Data) (st' : State),
    _sanitizeData host rep st = Ok (d, st') ->
    exists n,
      _getName (fields (this st)) d = Ok n
      /\ cachedPositions (sequence st')
         = <[(n, rep) := position d]> (cachedPositions (sequence st))
      /\ (forall m r, (m, r) <> (n, rep) ->
            cachedPositions (sequence st') !! (m, r)
            = cachedPositions (sequence st) !! (m, r)).
Proof.
  intros host rep st d st' H.
  destruct (sanitizeData_state host rep st d st' H)
    as (_ & (n & Hn & Hc) & _).
  exists n. split; [exact Hn|]. split; [exact Hc|].
  intros m r Hne. rewrite Hc. apply lookup_insert_ne. congruence.
Qed.

(** An effect named [n] with an override, run for repetition 0 on a
    sequence that holds a position for the name [other] and repetition 1:
    the run records (5,7) under [n] and leaves the other position alone. *)
Lemma sanitizeData_records_one_position_witness :
  let host := example_host (fun _ => 0) in
  let s := Builder.addOverride write_distance_5
             (Builder.name "n"
                (Builder.atLocation (LObject (Vec 5 7))
                   (Builder.constructor host (FString "a.webm")))) in
  exists d st',
    _sanitizeData host 0 (start s other_beam_sequence 0) = Ok (d, st')
    /\ cachedPositions (sequence st') !! ("n", 0%nat) = Some (Vec 5 7)
    /\ cachedPositions (sequence st') !! ("other", 1%nat) = Some (Vec 1 2).
Proof.
  intros host s.
  assert (E : exists d st',
             _sanitizeData host 0 (start s other_beam_sequence 0)
             = Ok (d, st') /\ position d = Vec 5 7)
    by (eexists _, _; split; [vm_compute; reflexivity|reflexivity]).
  destruct E as (d & st' & E & Hpos).
  destruct (sanitizeData_records_one_position host 0 _ d st' E)
    as (n & Hn & Hc & Hother).
  assert (n = "n") as -> by (vm_compute in Hn; congruence).
  exists d, st'. split; [exact E|]. split.
  - rewrite Hc, Hpos. apply lookup_insert_eq.
  - rewrite Hother by discriminate. vm_compute. reflexivity.
Defined.

(** X3. A run of [_sanitizeData] of a section without overrides and post
    overrides that returns has called the probe at most once.  Either the
    cache of dimensions and the log of the probe are as they were; or the
    section reaches, the distance of the data is not 0, the file of the
    data is a path that the cache did not hold, that path and no other was
    probed, and what the probe found is in the cache under that path. *)
Theorem sanitizeData_probes_at_most_once :
  forall (host : Host) (rep : nat) (st : State) (d : Data) (st' : State),
    _overrides (this st) = [] ->
    _postOverrides (this st) = [] ->
    _sanitizeData host rep st = Ok (d, st') ->
    fileCache (sequence st') = fileCache (sequence st)
    /\ probed st' = probed st
    \/ _rotationOnly (fields (this st)) = false
       /\ Qeq_bool (_distance d) 0 = false
       /\ exists p c,
            file d = FString p
            /\ fileCache (sequence st) !! p = None
            /\ lib_getDimensions host p = Ok c
            /\ fileCache (sequence st') = <[p := c]> (fileCache (sequence st))
            /\ probed st' = p :: probed st.
Proof.
  intros host rep st d st' _ Hpost H.
  destruct (sanitizeData_state host rep st d st' H) as (_ & _ & Hc & _).
  destruct Hc as [Hc | (Hro & p & c & Hnone & Hprobe & Hcache & Hlog & Hd)].
  - left. exact Hc.
  - right. destruct (Hd Hpost) as [Hfile Hdist].
    split; [exact Hro|]. split; [exact Hdist|].
    exists p, c. auto.
Qed.

(** The reaching effect of the examples on a sequence without dimensions:
    the run probes [beam.webm], once. *)
Lemma sanitizeData_probes_at_most_once_witness :
  let host := example_host (fun _ => 0) in
  exists d st',
    _sanitizeData host 0 (start (reach_example host) empty_sequence 0)
    = Ok (d, st')
    /\ probed st' = ["beam.webm"]
    /\ fileCache (sequence st') !! "beam.webm" = Some (Vec (Fin 400) (Fin 200)).
Proof.
  intros host.
  assert (E : exists d st',
             _sanitizeData host 0 (start (reach_example host) empty_sequence 0)
             = Ok (d, st')
             /\ file d = FString "beam.webm" /\ probed st' = ["beam.webm"])
    by (eexists _, _; split; [vm_compute; reflexivity|];
        split; reflexivity).
  destruct E as (d & st' & E & Hfile & Hlog).
  exists d, st'. split; [exact E|]. split; [exact Hlog|].
  destruct (sanitizeData_probes_at_most_once host 0
              (start (reach_example host) empty_sequence 0) d st'
              eq_refl eq_refl E)
    as [[_ Hp] | (_ & _ & p & c & Hf & _ & Hprobe & Hc & Hp)].
  - rewrite Hlog in Hp. discriminate Hp.
  - rewrite Hfile in Hf.
    inversion Hf; subst p. inversion Hprobe; subst c.
    rewrite Hc. apply lookup_insert_eq.
Defined.

(** X4. A new section is in rotation-only mode, [rotateTowards] switches the
    mode on and [reachTowards] switches it off.  A run of a section in
    rotation-only mode without overrides and post overrides that returns
    has not measured the video and has not written the section: the
    section, the cache of dimensions and the log of the probe are as they
    were. *)
Theorem rotation_only_run_measures_nothing :
  forall (host : Host),
    (forall inFile,
       _rotationOnly (fields (Builder.constructor host inFile)) = true)
    /\ (forall inLocation s,
          _rotationOnly (fields (Builder.rotateTowards inLocation s)) = true)
    /\ (forall inLocation s,
          _rotationOnly (fields (Builder.reachTowards inLocation s)) = false)
    /\ (forall (rep : nat) (st : State) (d : Data) (st' : State),
          _rotationOnly (fields (this st)) = true ->
          _overrides (this st) = [] ->
          _postOverrides (this st) = [] ->
          _sanitizeData host rep st = Ok (d, st') ->
          this st' = this st
          /\ fileCache (sequence st') = fileCache (sequence st)
          /\ probed st' = probed st).
Proof.
  intros host. do 3 (split; [reflexivity|]).
  intros rep st d st' Hro _ _ H.
  destruct (sanitizeData_state host rep st d st' H) as (_ & _ & Hc & Hthis).
  split; [exact (Hthis Hro)|].
  destruct Hc as [Hc | (Hno & _)]; [exact Hc|congruence].
Qed.

(** An effect with an anchor of its own, rotated towards a point on a page
    whose probe fails: the run returns, nothing was probed, and the anchor
    of the section is the one that was set. *)
Lemma rotation_only_run_measures_nothing_witness :
  let host := other_probe_host (fun _ => 0) in
  let s := Builder.center
             (Builder.rotateTowards (LObject (Vec 100 0))
                (Builder.atLocation (LObject (Vec 0 0))
                   (Builder.constructor host (FString "beam.webm")))) in
  _rotationOnly (fields s) = true
  /\ exists d st',
       _sanitizeData host 0 (start s empty_sequence 0) = Ok (d, st')
       /\ this st' = s /\ probed st' = [].
Proof.
  intros host s. split; [reflexivity|].
  assert (E : exists d st',
             _sanitizeData host 0 (start s empty_sequence 0) = Ok (d, st'))
    by (eexists _, _; vm_compute; reflexivity).
  destruct E as (d & st' & E).
  destruct (rotation_only_run_measures_nothing host)
    as (_ & _ & _ & Hrun).
  destruct (Hrun 0%nat (start s empty_sequence 0) d st'
              eq_refl eq_refl eq_refl E)
    as (Hthis & _ & Hp).
  exists d, st'. split; [exact E|]. split; [exact Hthis|exact Hp].
Defined.

(** ** Where the effect is placed *)

Section Placed.

Context (host : Host).

Lemma resolve_name_inv rep l st l' st' :
  resolve_name rep l st = Ok (l', st') ->
  name_recorded rep l st /\ l' = resolved rep l st /\ st' = st.
Proof.
  destruct l as [|n|p|t|t shape b]; simpl;
    try (intros H; inversion H; subst; solve [auto]).
  unfold _getCachedPosition. run_unfold.
  destruct (cachedPositions (sequence st) !! (n, rep)) as [p|];
    [|discriminate].
  intros H; inversion H; subst. eauto.
Qed.

(** A reference that counts as set still does once its name is resolved. *)
Lemma truthy_resolved rep l st :
  truthy l = true -> name_recorded rep l st ->
  truthy (resolved rep l st) = true.
Proof.
  destruct l as [|n|p|t|t shape b]; simpl; auto.
  intros _ [p ->]. reflexivity.
Qed.

(** The two positions that [_calculatePositions] returns: with a target
    the origin is where its reference is and the miss applies to the
    target; without one the miss applies to the origin. *)
Lemma calculatePositions_inv rep from to missed st origin target st' :
  _calculatePositions host rep from to missed st
  = Ok ((origin, target), st') ->
  let from' := resolved rep from st in
  let to' := resolved rep to st in
  name_recorded rep from st /\ name_recorded rep to st
  /\ if truthy to'
     then origin = Vec (location_x from') (location_y from')
          /\ exists p,
               target = Some p
               /\ _calculateMissedPosition host to' (target_position to')
                    missed st = Ok (p, st')
     else target = None
          /\ _calculateMissedPosition host from'
               (Vec (location_x from') (location_y from')) missed st
             = Ok (origin, st').
Proof.
  intros H from' to'. unfold _calculatePositions in H.
  apply bind_inv in H as (f & st1 & Hf & H).
  apply resolve_name_inv in Hf as (Rf & -> & ->).
  apply bind_inv in H as (t & st1 & Ht & H).
  apply resolve_name_inv in Ht as (Rt & -> & ->).
  fold from' to' in H. split; [exact Rf|]. split; [exact Rt|].
  apply bind_inv in H as (o & st1 & Ho & H).
  apply bind_inv in H as (tp & st2 & Htp & H).
  inversion H; subst o tp st2. clear H.
  destruct (truthy to') eqn:Et.
  - cbn [negb andb] in Ho. rewrite calculateMissedPosition_hit in Ho.
    inversion Ho; subst origin st1.
    split; [reflexivity|].
    apply bind_inv in Htp as (p & st2 & Hp & H).
    inversion H; subst target st2.
    exists p. split; [reflexivity|].
    unfold target_position. destruct to'; exact Hp.
  - cbn [negb andb] in Ho. inversion Htp; subst target st1.
    split; [reflexivity|exact Ho].
Qed.

(** What [place] writes: the position, and with a target the distance and
    the rotation of the ray from the origin to the target. *)
Lemma place_inv rep data st d0 st0 :
  place host rep data st = Ok (d0, st0) ->
  let s := fields (this st) in
  file d0 = file data /\ scale d0 = scale data /\ angle d0 = angle data
  /\ speed d0 = speed data /\ playbackRate d0 = playbackRate data
  /\ fadeIn d0 = fadeIn data /\ fadeOut d0 = fadeOut data
  /\ if truthy (_from s)
     then exists origin target,
            _calculatePositions host rep (_from s) (_to s) (_missed s) st
            = Ok ((origin, target), st0)
            /\ position d0 = origin
            /\ if truthy (_to s)
               then _distance d0 = Ray_distance host origin target
                    /\ rotation d0 = Ray_angle host origin target
               else _distance d0 = _distance data
                    /\ rotation d0 = rotation data
     else d0 = data /\ st0 = st.
Proof.
  intros H s. unfold place in H. run_unfold. fold s in H.
  destruct (truthy (_from s)).
  - destruct (_calculatePositions host rep (_from s) (_to s) (_missed s) st)
      as [[[origin target] st1]|e]; [|discriminate].
    destruct (truthy (_to s)); destruct (_anchor s);
      inversion H; subst; cbn; repeat split; eauto 10.
  - inversion H; subst. repeat split; auto.
Qed.

End Placed.
(** ** Runs without overrides *)

Lemma initial_data_fields (s : Fields) :
  file (initial_data s) = _file s
  /\ position (initial_data s) = Vec 0 0
  /\ scale (initial_data s) = Vec (Fin 1) (Fin 1)
  /\ angle (initial_data s) = 0 /\ rotation (initial_data s) = 0
  /\ speed (initial_data s) = 0
  /\ playbackRate (initial_data s) = _playbackRate s
  /\ _distance (initial_data s) = 0
  /\ fadeIn (initial_data s) = _fadeIn s
  /\ fadeOut (initial_data s) = _fadeOut s.
Proof. unfold initial_data. destruct (_anchor s); repeat split. Qed.

(** A run without overrides that returns, taken apart: after [place] only
    the random rotation changes the position, the distance, the rotation,
    the angle, the speed, the playback rate and the fades. *)
Lemma sanitizeData_plain host rep st d st' :
  _overrides (this st) = [] -> _postOverrides (this st) = [] ->
  _sanitizeData host rep st = Ok (d, st') ->
  exists d0 st0 d1 st1 d2 st2,
    place host rep (initial_data (fields (this st))) st = Ok (d0, st0)
    /\ only_draws st st0 /\ only_draws st0 st1
    /\ prepared host st0 d0 d1
    /\ reach host d1 st1 = Ok (d2, st2)
    /\ finished host st2 d2 d
    /\ core d = core (set_rotation (rotation d0 + rotation_drawn host st0) d0)
    /\ this st' = this st2
    /\ fileCache (sequence st') = fileCache (sequence st2)
    /\ probed st' = probed st2.
Proof.
  intros Hpre Hpost H.
  destruct (sanitizeData_phases host _ _ _ _ H)
    as (d0 & st0 & d1 & st1 & d2 & st2 & st3 & Hplace & P1 & Hprep & Hreach
        & E3 & Hfin & Hrec).
  pose proof (only_draws_after_scaling st2) as P3. rewrite <- E3 in P3.
  destruct P3 as (T3 & S3 & B3 & _). clear E3.
  specialize (Hprep Hpre). specialize (Hfin Hpost).
  exists d0, st0, d1, st1, d2, st2.
  split; [exact Hplace|].
  split; [exact (draws_place host rep _ _ _ _ Hplace)|].
  split; [exact P1|]. split; [exact Hprep|]. split; [exact Hreach|].
  split; [exact Hfin|].
  split.
  { destruct Hfin as (-> & _). destruct Hprep as (<- & _).
    apply (reach_state host _ _ _ _ Hreach). }
  unfold record_position, _insertCachedPosition in Hrec. run_unfold.
  destruct (_getName (fields (this st3)) d); [|discriminate].
  inversion Hrec; subst st'. cbn. rewrite T3, S3, B3. auto.
Qed.

(** X5. In a section that reaches and has an anchor of its own (set with
    [anchor] or [center]), a run without overrides that returns data with
    a distance other than 0 has overwritten the x of that anchor, in the
    section itself: the data shares the anchor object of the section, and
    after the run the section holds [_startPoint / dimensions.x] as x and
    the y that was set.  The dimensions are those written in the path of
    the data, with [_JB2A] on, or those that the cache holds for that path
    after the run. *)
Theorem reach_overwrites_configured_anchor :
  forall (host : Host) (rep : nat) (st : State) (d : Data) (st' : State)
         (a : vec num),
    _overrides (this st) = [] -> _postOverrides (this st) = [] ->
    _rotationOnly (fields (this st)) = false ->
    _anchor (fields (this st)) = Some a ->
    _sanitizeData host rep st = Ok (d, st') ->
    Qeq_bool (_distance d) 0 = false ->
    exists p dims,
      file d = FString p
      /\ (_JB2A (fields (this st)) = true /\ dimensions_in_name p = Some dims
          \/ fileCache (sequence st') !! p = Some dims)
      /\ anchor d = SectionAnchor
      /\ _anchor (fields (this st'))
         = Some (Vec (ndiv (Fin (_startPoint (fields (this st)))) (X dims))
                     (Y a)).
Proof.
  intros host rep st d st' a Hpre Hpost Hro Ha H Hd.
  destruct (sanitizeData_plain host rep st d st' Hpre Hpost H)
    as (d0 & st0 & d1 & st1 & d2 & st2 & Hplace & P0 & P1 & Hprep & Hreach
        & Hfin & Hcore & T' & C' & _).
  pose proof (only_draws_trans _ _ _ P0 P1) as (T1 & S1 & _).
  destruct (place_result host rep st d0 st0 Hplace) as (_ & A0 & _).
  unfold placed_anchor in A0. rewrite Ha in A0.
  destruct Hprep as (Pcore & A1 & _). rewrite A0 in A1.
  destruct Hfin as (Fcore & A2 & Ffile & _).
  assert (Hd1 : Qeq_bool (_distance d1) 0 = false).
  { apply core_fields in Hcore as (_ & Hx & _).
    apply core_fields in Pcore as (_ & Hy & _).
    rewrite Hy, <- Hx. exact Hd. }
  destruct (reach_inv host _ _ _ _ Hreach)
    as [([?|?] & _) | (_ & _ & dims & sm & Hdims & Hw)]; try congruence.
  pose proof (getFileDimensions_this _ _ _ _ _ Hdims) as Tm.
  pose proof (write_anchor_x_inv _ _ _ _ _ Hw)
    as (_ & Ws & _ & Wconf & _ & Wfile & _ & Wa).
  cbn [anchor set_scale file] in Wa, Wfile. rewrite A1 in Wa.
  destruct Wa as (Wa & Wanchor).
  specialize (Wanchor a). rewrite Tm, T1 in Wanchor.
  specialize (Wanchor Ha).
  assert (Hbase : _baseFolder (fields (this st2))
                  = _baseFolder (fields (this st))).
  { apply configuration_fields in Wconf as (E & _).
    rewrite Tm, T1 in E. exact (f_equal _baseFolder E). }
  exists (_baseFolder (fields (this st)) ++ file_to_string (file d1)), dims.
  split; [rewrite Ffile, Hbase, Wfile; reflexivity|].
  split.
  { rewrite C', Ws.
    destruct (getFileDimensions_effect host _ _ _ _ Hdims)
      as [(E1 & Hwhere) | (_ & _ & _ & E1)]; rewrite E1.
    - rewrite T1 in Hwhere. exact Hwhere.
    - right. cbn [after_probe sequence fileCache]. rewrite T1.
      apply lookup_insert_eq. }
  split; [rewrite A2; exact Wa|].
  rewrite T'. exact Wanchor.
Qed.

(** The reaching effect of the examples, centred and with a start point of
    50, for a video 200 wide: the run leaves 50/200 in the x of the anchor
    of the section, where 0.5 had been set. *)
Lemma reach_overwrites_configured_anchor_witness :
  let host := example_host (fun _ => 0) in
  let s := Builder.center (Builder.startPoint 50 (reach_example host)) in
  _anchor (fields s) = Some (Vec (Fin 0.5) (Fin 0.5))
  /\ exists d st' v,
       _sanitizeData host 0 (start s beam_sequence 0) = Ok (d, st')
       /\ _anchor (fields (this st')) = Some v
       /\ vec_eq v (Vec (Fin 0.25) (Fin 0.5)).
Proof.
  intros host s. split; [reflexivity|].
  assert (E : exists d st',
             _sanitizeData host 0 (start s beam_sequence 0) = Ok (d, st')
             /\ file d = FString "beam.webm"
             /\ Qeq_bool (_distance d) 0 = false
             /\ fileCache (sequence st') !! "beam.webm"
                = Some (Vec (Fin 200) (Fin 100)))
    by (eexists _, _; split; [vm_compute; reflexivity|];
        repeat split; vm_compute; reflexivity).
  destruct E as (d & st' & E & Hfile & Hd & Hcache).
  destruct (reach_overwrites_configured_anchor host 0
              (start s beam_sequence 0) d st'
              (Vec (Fin 0.5) (Fin 0.5)) eq_refl eq_refl eq_refl eq_refl E Hd)
    as (p & dims & Hp & Hdims & _ & Hanchor).
  rewrite Hfile in Hp. inversion Hp; subst p.
  destruct Hdims as [[HJ _] | Hdims]; [discriminate HJ|].
  rewrite Hcache in Hdims. inversion Hdims; subst dims.
  exists d, st'. eexists. split; [exact E|]. split; [exact Hanchor|].
  split; vm_compute; reflexivity.
Defined.
(** X6. The playback rate and the two fades that the builder was given
    are those of the data: a run without overrides, for a section on which
    [playbackRate], [fadeIn] and [fadeOut] were called last, returns data
    with these three values, and with an angle and a speed of 0. *)
Theorem timing_reaches_the_data :
  forall (host : Host) (rep : nat) (st : State) (s : EffectSection)
         (r i o : Q) (d : Data) (st' : State),
    this st = Builder.fadeOut o (Builder.fadeIn i (Builder.playbackRate r s)) ->
    _overrides s = [] -> _postOverrides s = [] ->
    _sanitizeData host rep st = Ok (d, st') ->
    playbackRate d = r /\ fadeIn d = i /\ fadeOut d = o
    /\ angle d = 0 /\ speed d = 0.
Proof.
  intros host rep st s r i o d st' Hthis Hpre Hpost H.
  destruct (sanitizeData_plain host rep st d st') as
    (d0 & st0 & d1 & st1 & d2 & st2 & Hplace & _ & _ & _ & _ & _ & Hcore & _);
    [rewrite Hthis; exact Hpre | rewrite Hthis; exact Hpost | exact H |].
  apply core_fields in Hcore as (_ & _ & _ & -> & -> & -> & -> & ->).
  cbn [set_rotation playbackRate fadeIn fadeOut angle speed].
  destruct (place_inv host rep _ _ _ _ Hplace)
    as (_ & _ & -> & -> & -> & -> & -> & _).
  destruct (initial_data_fields (fields (this st)))
    as (_ & _ & _ & -> & _ & -> & -> & _ & -> & ->).
  rewrite Hthis. repeat split.
Qed.

(** An effect played at half the rate, fading in over 500 and out over 250
    milliseconds. *)
Lemma timing_reaches_the_data_witness :
  let host := example_host (fun _ => 0) in
  let s := Builder.fadeOut 250
             (Builder.fadeIn 500
                (Builder.playbackRate 0.5
                   (Builder.constructor host (FString "a.webm")))) in
  exists d st',
    _sanitizeData host 0 (start s empty_sequence 0) = Ok (d, st')
    /\ playbackRate d = 0.5 /\ fadeIn d = 500 /\ fadeOut d = 250.
Proof.
  intros host s.
  assert (E : exists d st',
             _sanitizeData host 0 (start s empty_sequence 0) = Ok (d, st'))
    by (eexists _, _; vm_compute; reflexivity).
  destruct E as (d & st' & E).
  destruct (timing_reaches_the_data host 0 (start s empty_sequence 0)
              (Builder.constructor host (FString "a.webm")) 0.5 500 250
              d st' eq_refl eq_refl eq_refl E)
    as (Hr & Hi & Ho & _).
  exists d, st'. auto.
Defined.

(** X7. Without an origin nothing is placed.  A section whose [_from] is
    not set (no [atLocation], or the empty string as a name), without
    overrides and with a template that renders, is sanitized to data at
    (0,0) with distance 0 and no rotation but the random one, whatever
    target and whatever missed flag it has: the target is not looked up,
    so a target name without a position does not stop the run, and a miss
    draws nothing.  The anchor is the one set with [anchor], or (0,0). *)
Theorem no_origin_ignores_target :
  forall (host : Host) (rep : nat) (st : State),
    let s := fields (this st) in
    truthy (_from s) = false ->
    _overrides (this st) = [] -> _postOverrides (this st) = [] ->
    template_renders host s ->
    exists d st',
      _sanitizeData host rep st = Ok (d, st')
      /\ position d = Vec 0 0 /\ _distance d = 0
      /\ rotation d
         = 0 + (if _randomRotation s
                then Math_random host (draws st) * Math_PI else 0)
      /\ anchor_value (this st') d
         = default (Vec (Fin 0) (Fin 0)) (_anchor s)
      /\ probed st' = probed st.
Proof.
  intros host rep st s Hfrom Hpre Hpost Hrender.
  assert (Hplace : place host rep (initial_data s) st
                   = Ok (initial_data s, st)).
  { unfold place. run_unfold. fold s. rewrite Hfrom. reflexivity. }
  destruct (initial_data_fields s)
    as (_ & Hp & _ & _ & Hr & _ & _ & Hd & _).
  destruct (sanitizeData_after_place host rep st _ st Hpre Hpost Hplace)
    as (d & st' & n & Hrun & Ep & Ed & Ha & Er & Hthis & _ & _ & _ & Hlog).
  { right. fold s. rewrite Hd. reflexivity. }
  { exact Hrender. }
  exists d, st'. rewrite Ep, Ed, Er. fold s. rewrite Hp, Hd, Hr.
  do 4 (split; [auto|]). split; [|exact Hlog].
  unfold anchor_value. rewrite Ha, Hthis. fold s. unfold initial_data.
  destruct (_anchor s); reflexivity.
Qed.

(** An effect that is to reach, missing, towards a name that nothing has
    recorded, and that has no origin: the run returns data at (0,0). *)
Lemma no_origin_ignores_target_witness :
  let host := example_host (fun _ => 1 # 4) in
  let s := Builder.missed true
             (Builder.reachTowards (LName "nowhere")
                (Builder.constructor host (FString "a.webm"))) in
  exists d st',
    _sanitizeData host 0 (start s empty_sequence 0) = Ok (d, st')
    /\ position d = Vec 0 0 /\ _distance d = 0 /\ draws st' = 0%nat.
Proof.
  intros host s.
  destruct (no_origin_ignores_target host 0 (start s empty_sequence 0))
    as (d & st' & E & Hp & Hd & _); try reflexivity.
  - intros m Hm. discriminate Hm.
  - exists d, st'. split; [exact E|]. split; [exact Hp|].
    split; [exact Hd|].
    assert (E' : exists d' st'',
               _sanitizeData host 0 (start s empty_sequence 0)
               = Ok (d', st'') /\ draws st'' = 0%nat)
      by (eexists _, _; split; [vm_compute; reflexivity|reflexivity]).
    destruct E' as (d' & st'' & E' & Hdraws).
    rewrite E in E'. inversion E'; subst. exact Hdraws.
Defined.

(** The position of a reference, from what it holds: a point is its own
    position, a token or a template is at its centre, or at its x and y
    (0 for one it does not have) when it has no centre. *)
Lemma position_of_reference (l : Location) :
  (forall q, l = LObject q -> Vec (location_x l) (location_y l) = q)
  /\ (forall t c,
        l = LToken t \/ (exists shape b, l = LTemplate t shape b) ->
        center t = Some c -> Vec (location_x l) (location_y l) = c)
  /\ (forall t,
        l = LToken t \/ (exists shape b, l = LTemplate t shape b) ->
        center t = None ->
        Vec (location_x l) (location_y l)
        = Vec (default 0 (placeable_x t)) (default 0 (placeable_y t))).
Proof.
  split; [|split].
  - intros [x y] ->. reflexivity.
  - intros t [x y] [-> | (shape & b & ->)] E; simpl; rewrite E; reflexivity.
  - intros t [-> | (shape & b & ->)] E; simpl; rewrite E; reflexivity.
Qed.

(** The point aimed at: the far end of the ray for a cone or a ray
    template, the position of the reference otherwise. *)
Lemma target_position_cases (l : Location) :
  (forall t shape b,
     l = LTemplate t shape b -> shape = "cone" \/ shape = "ray" ->
     target_position l = b)
  /\ (forall t shape b,
        l = LTemplate t shape b -> shape <> "cone" -> shape <> "ray" ->
        target_position l = Vec (location_x l) (location_y l))
  /\ ((forall t shape b, l <> LTemplate t shape b) ->
      target_position l = Vec (location_x l) (location_y l)).
Proof.
  split; [|split].
  - intros t shape b -> [-> | ->]; reflexivity.
  - intros t shape b -> Hc Hr. unfold target_position, is_cone_or_ray.
    destruct (String.eqb_spec shape "cone"); [contradiction|].
    destruct (String.eqb_spec shape "ray"); [contradiction|].
    reflexivity.
  - intros H. destruct l as [| | | |t shape b]; try reflexivity.
    destruct (H t shape b eq_refl).
Qed.

(** X8. With a target the effect stays on its origin and aims at the
    target.  A run without overrides that returns, for a section with an
    origin and a target, leaves the data at the position of the origin (its
    centre, else its x and y), with the distance and the angle of the ray
    from there to the point aimed at, plus the random rotation.  The point
    aimed at is the position of the target (for a cone or a ray template,
    the far end of its ray), or with the missed flag the point that the
    miss draws around it; the origin is not moved by the miss.  The
    positions are those the references hold: a point is its own position,
    a token or a template is at its centre, or at its x and y where it has
    no centre. *)
Theorem target_keeps_origin_in_place :
  forall (host : Host) (rep : nat) (st : State) (d : Data) (st' : State),
    let s := fields (this st) in
    let origin := resolved rep (_from s) st in
    let target := resolved rep (_to s) st in
    _overrides (this st) = [] -> _postOverrides (this st) = [] ->
    truthy (_from s) = true -> truthy (_to s) = true ->
    _sanitizeData host rep st = Ok (d, st') ->
    exists p st1,
      _calculateMissedPosition host target (target_position target)
        (_missed s) st = Ok (p, st1)
      /\ position d = Vec (location_x origin) (location_y origin)
      /\ _distance d = Ray_distance host (position d) (Some p)
      /\ rotation d
         = Ray_angle host (position d) (Some p) + rotation_drawn host st1
      /\ (_missed s = false -> p = target_position target /\ st1 = st)
      /\ (_missed s = true -> st1 = tick 5 st)
      /\ (forall q, origin = LObject q -> position d = q)
      /\ (forall t c,
            origin = LToken t
            \/ (exists shape b, origin = LTemplate t shape b) ->
            center t = Some c -> position d = c)
      /\ (forall t,
            origin = LToken t
            \/ (exists shape b, origin = LTemplate t shape b) ->
            center t = None ->
            position d
            = Vec (default 0 (placeable_x t)) (default 0 (placeable_y t)))
      /\ (_missed s = false ->
          (forall q, target = LObject q -> p = q)
          /\ (forall t c, target = LToken t -> center t = Some c -> p = c)
          /\ (forall t shape b,
                target = LTemplate t shape b ->
                (shape = "cone" \/ shape = "ray" -> p = b)
                /\ (shape <> "cone" -> shape <> "ray" ->
                    forall c, center t = Some c -> p = c))).
Proof.
  intros host rep st d st' s origin target Hpre Hpost Hfrom Hto H.
  destruct (sanitizeData_plain host rep st d st' Hpre Hpost H)
    as (d0 & st0 & d1 & st1 & d2 & st2 & Hplace & _ & _ & _ & _ & _ & Hcore
        & _).
  apply core_fields in Hcore as (-> & -> & -> & _).
  cbn [set_rotation position _distance rotation].
  destruct (place_inv host rep _ _ _ _ Hplace)
    as (_ & _ & _ & _ & _ & _ & _ & Hp).
  cbv zeta in Hp. fold s in Hp. rewrite Hfrom, Hto in Hp.
  destruct Hp as (o & t & Hcalc & -> & -> & ->).
  destruct (calculatePositions_inv host rep _ _ _ _ _ _ _ Hcalc)
    as (Rf & Rt & Hcase).
  cbv zeta in Hcase. fold origin target in Hcase.
  assert (Ht : truthy target = true) by (apply truthy_resolved; assumption).
  rewrite Ht in Hcase. destruct Hcase as (-> & p & -> & Hmiss).
  assert (Hhit : _missed s = false -> p = target_position target /\ st0 = st).
  { intros Hm. rewrite Hm, calculateMissedPosition_hit in Hmiss.
    inversion Hmiss; auto. }
  destruct (position_of_reference origin) as (Opoint & Ocentre & Oxy).
  destruct (position_of_reference target) as (Tpoint & Tcentre & _).
  destruct (target_position_cases target) as (Tray & Tother & Tplain).
  exists p, st0. split; [exact Hmiss|].
  do 3 (split; [reflexivity|]).
  split; [exact Hhit|]. split.
  { intros Hm. rewrite Hm, calculateMissedPosition_eq in Hmiss.
    cbv zeta in Hmiss. inversion Hmiss; auto. }
  split; [exact Opoint|]. split; [exact Ocentre|]. split; [exact Oxy|].
  intros Hm. destruct (Hhit Hm) as [-> _]. split; [|split].
  - intros q E. rewrite Tplain by (intros; rewrite E; discriminate).
    apply Tpoint. exact E.
  - intros tk c E Hc. rewrite Tplain by (intros; rewrite E; discriminate).
    apply (Tcentre tk); [left; exact E|exact Hc].
  - intros tk shape b E. split.
    + intros Hs. apply (Tray tk shape b E Hs).
    + intros Hc Hr c Hcen. rewrite (Tother tk shape b E Hc Hr).
      apply (Tcentre tk); [right; eauto|exact Hcen].
Qed.

(** A token with its centre at (500,500) and a cone whose ray ends at
    (700,500). *)
Definition token_at_500 : Location :=
  LToken {| center := Some (Vec 500 500); placeable_x := Some 450;
            placeable_y := Some 450; data_width := Some 1;
            data_height := Some 1 |}.

Definition cone_to_700 : Location :=
  LTemplate {| center := Some (Vec 600 500); placeable_x := Some 600;
               placeable_y := Some 500; data_width := None;
               data_height := None |} "cone" (Vec 700 500).

(** The reaching effect of the examples with the missed flag, on a page
    whose draws are all one quarter: the data stays at (0,0), and the miss
    has drawn five times.  An effect that reaches from the token to the
    cone is at the centre of the token and as long as the way to the far
    end of the cone. *)
Lemma target_keeps_origin_in_place_witness :
  let host := example_host (fun _ => 1 # 4) in
  (let s := Builder.missed true (reach_example host) in
   exists d st',
     _sanitizeData host 0 (start s beam_sequence 0) = Ok (d, st')
     /\ position d = Vec 0 0
     /\ draws st' = 5%nat)
  /\ (let s := Builder.reachTowards cone_to_700
                 (Builder.atLocation token_at_500
                    (Builder.constructor host (FString "beam.webm"))) in
      exists d st',
        _sanitizeData host 0 (start s beam_sequence 0) = Ok (d, st')
        /\ position d = Vec 500 500
        /\ _distance d == 200).
Proof.
  intros host. split.
  - intros s.
    assert (E : exists d st',
               _sanitizeData host 0 (start s beam_sequence 0) = Ok (d, st')
               /\ draws st' = 5%nat)
      by (eexists _, _; split; [vm_compute; reflexivity|reflexivity]).
    destruct E as (d & st' & E & Hdraws).
    destruct (target_keeps_origin_in_place host 0 (start s beam_sequence 0)
                d st' eq_refl eq_refl eq_refl eq_refl E)
      as (p & st1 & _ & Hp & _).
    exists d, st'. split; [exact E|]. split; [exact Hp|exact Hdraws].
  - intros s.
    assert (E : exists d st',
               _sanitizeData host 0 (start s beam_sequence 0) = Ok (d, st'))
      by (eexists _, _; vm_compute; reflexivity).
    destruct E as (d & st' & E).
    destruct (target_keeps_origin_in_place host 0 (start s beam_sequence 0)
                d st' eq_refl eq_refl eq_refl eq_refl E)
      as (p & st1 & _ & _ & Hd & _ & _ & _ & _ & Hc & _ & Hto).
    destruct (Hto eq_refl) as (_ & _ & Hray).
    destruct (Hray _ _ _ eq_refl) as (Hb & _).
    exists d, st'. split; [exact E|].
    assert (Hpos : position d = Vec 500 500)
      by (apply (Hc _ _ (or_introl eq_refl) eq_refl)).
    split; [exact Hpos|].
    rewrite Hd, Hpos, (Hb (or_introl eq_refl)). reflexivity.
Defined.

(** X9. Without a target a miss moves the effect itself.  A run without
    overrides that returns, for a section with an origin, no target and
    the missed flag, leaves the data at the point that the miss draws
    around the origin, with five draws, with distance 0 and no rotation
    but the random one. *)
Theorem miss_without_target_moves_origin :
  forall (host : Host) (rep : nat) (st : State) (d : Data) (st' : State),
    let s := fields (this st) in
    let origin := resolved rep (_from s) st in
    _overrides (this st) = [] -> _postOverrides (this st) = [] ->
    truthy (_from s) = true -> _to s = LFalse -> _missed s = true ->
    _sanitizeData host rep st = Ok (d, st') ->
    _calculateMissedPosition host origin
      (Vec (location_x origin) (location_y origin)) true st
    = Ok (position d, tick 5 st)
    /\ _distance d = 0
    /\ rotation d = 0 + rotation_drawn host (tick 5 st).
Proof.
  intros host rep st d st' s origin Hpre Hpost Hfrom Hto Hmiss H.
  destruct (sanitizeData_plain host rep st d st' Hpre Hpost H)
    as (d0 & st0 & d1 & st1 & d2 & st2 & Hplace & _ & _ & _ & _ & _ & Hcore
        & _).
  apply core_fields in Hcore as (-> & -> & -> & _).
  cbn [set_rotation position _distance rotation].
  destruct (place_inv host rep _ _ _ _ Hplace)
    as (_ & _ & _ & _ & _ & _ & _ & Hp).
  cbv zeta in Hp. fold s in Hp. rewrite Hfrom, Hto in Hp. cbn [truthy] in Hp.
  destruct Hp as (o & t & Hcalc & -> & -> & ->).
  destruct (initial_data_fields s) as (_ & _ & _ & _ & -> & _ & _ & -> & _).
  destruct (calculatePositions_inv host rep _ _ _ _ _ _ _ Hcalc)
    as (_ & _ & Hcase).
  cbv zeta in Hcase. fold origin in Hcase. cbn [resolved truthy] in Hcase.
  destruct Hcase as (-> & Hm). rewrite Hmiss in Hm.
  pose proof Hm as Hm'. rewrite calculateMissedPosition_eq in Hm'.
  cbv zeta in Hm'. inversion Hm'; subst st0. 
  split; [|split; reflexivity].
  rewrite Hm. rewrite <- H1. reflexivity.
Qed.

(** A missed effect at (500,500) without a target, on a page whose draws
    are all one quarter: it is played to the left of (500,500). *)
Lemma miss_without_target_moves_origin_witness :
  let host := example_host (fun _ => 1 # 4) in
  let s := Builder.missed true
             (Builder.atLocation (LObject (Vec 500 500))
                (Builder.constructor host (FString "a.webm"))) in
  exists d st',
    _sanitizeData host 0 (start s empty_sequence 0) = Ok (d, st')
    /\ X (position d) < 500 /\ _distance d = 0.
Proof.
  intros host s.
  assert (E : exists d st',
             _sanitizeData host 0 (start s empty_sequence 0) = Ok (d, st')
             /\ X (position d) < 500)
    by (eexists _, _; split; [vm_compute; reflexivity|reflexivity]).
  destruct E as (d & st' & E & Hx).
  destruct (miss_without_target_moves_origin host 0
              (start s empty_sequence 0) d st'
              eq_refl eq_refl eq_refl eq_refl eq_refl E)
    as (_ & Hd & _).
  exists d, st'. auto.
Defined.
(** ** The hit vector at the edges *)

Lemma write_anchor_x_returns v data st :
  exists d st', write_anchor_x v data st = Ok (d, st').
Proof. unfold write_anchor_x. destruct (anchor data); eauto. Qed.

(** X10. The hit vector raises no error for a video that the trim points
    use up.  For data with a distance above 0 and dimensions of a finite
    width [w], [_calculateHitVector] returns; when the true length
    [w - _startPoint - _endPoint] is 0 both axes of the scale are
    [Infinity]; when it is below 0 the x of the scale is below 0 and the
    y is 0.4; when it is above 0 the x is the distance divided by it and
    the y is at least 0.4 and at least the x. *)
Theorem hit_vector_degenerate_length :
  forall (host : Host) (data : Data) (st : State) (w : Q) (h : num)
         (st1 : State),
    0 < _distance data ->
    _getFileDimensions host (file data) st = Ok (Vec (Fin w) h, st1) ->
    let s := fields (this st) in
    let len := w + - _startPoint s + - _endPoint s in
    exists data' st',
      _calculateHitVector host data st = Ok (data', st')
      /\ (len == 0 -> scale data' = Vec (Inf false) (Inf false))
      /\ (~ len == 0 ->
          scale data'
          = Vec (Fin (_distance data / len))
                (Fin (Qmax 0.4 (_distance data / len))))
      /\ (len < 0 ->
          _distance data / len < 0 /\ Qmax 0.4 (_distance data / len) == 0.4)
      /\ (0 < len ->
          0 < _distance data / len
          /\ 0.4 <= Qmax 0.4 (_distance data / len)
          /\ _distance data / len <= Qmax 0.4 (_distance data / len)).
Proof.
  intros host data st w h st1 Hpos Hdims s len.
  assert (Hd : Qeq_bool (_distance data) 0 = false)
    by (apply Qeq_bool_false; lra).
  unfold _calculateHitVector. rewrite Hd.
  rewrite (bind_eq _ _ _ _ _ Hdims).
  rewrite (bind_eq _ _ st1 (fields (this st1)) st1 eq_refl).
  rewrite (getFileDimensions_this _ _ _ _ _ Hdims). fold s.
  match goal with
  | |- exists _ _, write_anchor_x ?v ?d ?st = _ /\ _ =>
      destruct (write_anchor_x_returns v d st) as (data' & st' & Hw);
      pose proof (write_anchor_x_inv _ _ _ _ _ Hw)
        as (_ & _ & _ & _ & _ & _ & Hscale & _)
  end.
  exists data', st'. split; [exact Hw|]. rewrite Hscale.
  cbn [scale set_scale X Y _getTrueLength nsub nadd nneg]. fold len.
  unfold ndiv.
  split; [|split; [|split]].
  - intros H0. apply Qeq_bool_iff in H0. rewrite H0, Hd.
    rewrite Qltb_false by lra. reflexivity.
  - intros H0. rewrite (Qeq_bool_false _ H0). reflexivity.
  - intros Hneg.
    assert (Hq : _distance data / len < 0).
    { assert (E : _distance data / len * len == _distance data)
        by (field; lra).
      destruct (Qlt_le_dec (_distance data / len) 0) as [|Hge]; [assumption|].
      assert (0 <= _distance data / len * - len)
        by (apply Qmult_le_0_compat; lra).
      lra. }
    split; [exact Hq|]. apply Q.max_l. lra.
  - intros Hlen.
    assert (Hq : 0 < _distance data / len).
    { apply Qlt_shift_div_l; lra. }
    split; [exact Hq|]. split; [apply Q.le_max_l|apply Q.le_max_r].
Qed.

(** A video 400 wide with the trim points of [JB2A(true)], 200 and 200:
    at a distance of 100 the scale is infinite on both axes. *)
Lemma hit_vector_degenerate_length_witness :
  let host := example_host (fun _ => 0) in
  let s :=
    Builder.JB2A host true (Builder.constructor host (FString "a.webm")) in
  let st := start s empty_sequence 0 in
  let data := set_distance 100 (initial_data (fields s)) in
  exists data' st',
    _calculateHitVector host data st = Ok (data', st')
    /\ scale data' = Vec (Inf false) (Inf false).
Proof.
  intros host s st data.
  destruct (hit_vector_degenerate_length host data st 400 (Fin 200)
              (after_probe "a.webm" (Vec (Fin 400) (Fin 200)) st))
    as (data' & st' & Hrun & Hzero & _).
  - reflexivity.
  - reflexivity.
  - exists data', st'. split; [exact Hrun|]. apply Hzero. reflexivity.
Defined.

(** ** Overrides *)

Lemma run_overrides_app l1 l2 data st :
  run_overrides (l1 ++ l2) data st
  = match run_overrides l1 data st with
    | Ok (d, _) => run_overrides l2 d st
    | Throw e => Throw e
    end.
Proof.
  revert data. induction l1 as [|f l1 IH]; intros data; simpl.
  - reflexivity.
  - run_unfold. destruct (f (fields (this st)) data) as [d1|e];
      [apply IH|reflexivity].
Qed.

(** X11. Overrides run in the order in which they were added, each on the
    data that the one before returned.  After [addOverride f] the list of
    overrides runs as before and then [f] runs on the result, with the
    section as its first argument; when an earlier override throws, [f]
    does not run and that error is the outcome.  The same holds for
    [addPostOverride] and the list of post overrides, and neither method
    touches the other list or the fields. *)
Theorem addOverride_runs_last :
  forall (f : Override) (s : EffectSection) (data : Data) (st : State),
    run_overrides (_overrides (Builder.addOverride f s)) data st
    = match run_overrides (_overrides s) data st with
      | Ok (d, _) =>
          match f (fields (this st)) d with
          | Ok d' => Ok (d', st)
          | Throw e => Throw e
          end
      | Throw e => Throw e
      end
    /\ run_overrides (_postOverrides (Builder.addPostOverride f s)) data st
       = match run_overrides (_postOverrides s) data st with
         | Ok (d, _) =>
             match f (fields (this st)) d with
             | Ok d' => Ok (d', st)
             | Throw e => Throw e
             end
         | Throw e => Throw e
         end
    /\ _postOverrides (Builder.addOverride f s) = _postOverrides s
    /\ _overrides (Builder.addPostOverride f s) = _overrides s
    /\ fields (Builder.addOverride f s) = fields s
    /\ fields (Builder.addPostOverride f s) = fields s.
Proof.
  intros f s data st.
  split; [|split; [|repeat split]].
  - cbn [Builder.addOverride _overrides]. rewrite run_overrides_app.
    destruct (run_overrides (_overrides s) data st) as [[d st1]|e];
      [|reflexivity].
    simpl. run_unfold. destruct (f (fields (this st)) d); reflexivity.
  - cbn [Builder.addPostOverride _postOverrides]. rewrite run_overrides_app.
    destruct (run_overrides (_postOverrides s) data st) as [[d st1]|e];
      [|reflexivity].
    simpl. run_unfold. destruct (f (fields (this st)) d); reflexivity.
Qed.
(** ** Names and folders *)

(** Whether the character occurs in the string. *)
Fixpoint occurs (c : ascii) (s : string) : bool :=
  match s with
  | EmptyString => false
  | String a r => Ascii.eqb a c || occurs c r
  end.

Lemma split_not_nil c s : split c s <> [].
Proof.
  destruct s as [|a r]; simpl; [discriminate|].
  destruct (Ascii.eqb a c); [discriminate|].
  destruct (split c r); discriminate.
Qed.

(** A string without the separator is one piece. *)
Lemma split_without c s : occurs c s = false -> split c s = [s].
Proof.
  induction s as [|a r IH]; simpl; [reflexivity|].
  destruct (Ascii.eqb a c); [discriminate|].
  intros H. rewrite (IH H). reflexivity.
Qed.

(** Splitting distributes over a separator. *)
Lemma split_app c a b :
  split c (a ++ String c b) = (split c a ++ split c b)%list.
Proof.
  induction a as [|x a IH]; simpl.
  - rewrite Ascii.eqb_refl. reflexivity.
  - destruct (Ascii.eqb x c); [rewrite IH; reflexivity|].
    rewrite IH. pose proof (split_not_nil c a) as Hne.
    destruct (split c a) as [|h t]; [contradiction|]. reflexivity.
Qed.

Lemma last_app_not_nil {A} (l1 l2 : list A) (d : A) :
  l2 <> [] -> List.last (l1 ++ l2)%list d = List.last l2 d.
Proof.
  intros H. induction l1 as [|x l1 IH]; [reflexivity|].
  simpl. destruct (l1 ++ l2)%list eqn:E; [|exact IH].
  apply app_eq_nil in E as [_ ->]. contradiction.
Qed.

Lemma append_assoc (a b c : string) : (a ++ b) ++ c = a ++ (b ++ c).
Proof.
  induction a as [|x a IH]; [reflexivity|].
  change (String x ((a ++ b) ++ c) = String x (a ++ (b ++ c))).
  f_equal. exact IH.
Qed.

Lemma append_empty (a : string) : a ++ "" = a.
Proof.
  induction a as [|x a IH]; [reflexivity|].
  change (String x (a ++ "") = String x a). f_equal. exact IH.
Qed.

(** The path of a file [base] with or without a folder in front and with
    or without extensions behind. *)
Definition path_of (folder : option string) (base : string)
    (extensions : option string) : string :=
  from_option (fun d => d ++ "/") "" folder
  ++ base ++ from_option (fun e => "." ++ e) "" extensions.

Lemma last_segment folder base extensions :
  occurs "/" base = false ->
  from_option (occurs "/") false extensions = false ->
  List.last (split "/" (path_of folder base extensions)) ""
  = base ++ from_option (fun e => "." ++ e) "" extensions.
Proof.
  intros Hb He.
  assert (Hrest : split "/" (base ++ from_option (fun e => "." ++ e) ""
                                      extensions)
                  = [base ++ from_option (fun e => "." ++ e) "" extensions]).
  { apply split_without. clear -Hb He.
    induction base as [|a r IH]; simpl in *.
    - destruct extensions as [e|]; simpl in *; [exact He|reflexivity].
    - destruct (Ascii.eqb a "/"); [discriminate|]. apply IH. exact Hb. }
  unfold path_of. destruct folder as [d|]; simpl.
  - rewrite append_assoc.
    set (rest := base ++ from_option (fun e => "." ++ e) "" extensions) in *.
    change (List.last (split "/" (d ++ String "/" rest)) "" = rest).
    rewrite split_app, last_app_not_nil by apply split_not_nil.
    rewrite Hrest. reflexivity.
  - set (rest := base ++ from_option (fun e => "." ++ e) "" extensions) in *.
    change (List.last (split "/" rest) "" = rest).
    rewrite Hrest. reflexivity.
Qed.

Lemma first_piece base extensions :
  occurs "." base = false ->
  head (split "." (base ++ from_option (fun e => "." ++ e) "" extensions))
  = Some base.
Proof.
  intros Hb. destruct extensions as [e|]; simpl.
  - change (head (split "." (base ++ String "." e)) = Some base).
    rewrite split_app, (split_without _ _ Hb). reflexivity.
  - rewrite append_empty, (split_without _ _ Hb). reflexivity.
Qed.

(** X12. An effect without a name of its own is recorded under the base
    name of its file: what is left of the path after the last slash and
    before the first dot that follows, so that the folders and every
    extension are dropped.  A name set with [name] is used instead, unless
    it is the empty string; and the empty path gives the name ["-1"]. *)
Theorem getName_is_the_base_name :
  forall (s : Fields) (data : Data) (folder : option string) (base : string)
         (extensions : option string),
    occurs "/" base = false -> occurs "." base = false ->
    from_option (occurs "/") false extensions = false ->
    file data = FString (path_of folder base extensions) ->
    _getName s data
    = Ok match _name s with
         | Some n => if String.eqb n "" then
                       if String.eqb (path_of folder base extensions) ""
                       then "-1" else base
                     else n
         | None => if String.eqb (path_of folder base extensions) ""
                   then "-1" else base
         end.
Proof.
  intros s data folder base extensions Hs Hd He Hfile.
  assert (Hname : name_from_file (file data)
                  = Ok (if String.eqb (path_of folder base extensions) ""
                        then "-1" else base)).
  { rewrite Hfile. unfold name_from_file.
    destruct (String.eqb (path_of folder base extensions) "");
      [reflexivity|].
    rewrite (last_segment _ _ _ Hs He), (first_piece _ _ Hd). reflexivity. }
  unfold _getName. rewrite Hname.
  destruct (_name s) as [n|]; [|reflexivity].
  destruct (String.eqb n ""); reflexivity.
Qed.

(** The file [modules/jb2a/fire.01.webm] is recorded as [fire]. *)
Lemma getName_is_the_base_name_witness :
  let host := example_host (fun _ => 0) in
  let s := Builder.constructor host (FString "modules/jb2a/fire.01.webm") in
  _getName (fields s) (initial_data (fields s)) = Ok "fire".
Proof.
  intros host s.
  exact (getName_is_the_base_name (fields s) (initial_data (fields s))
           (Some "modules/jb2a") "fire" (Some "01.webm")
           eq_refl eq_refl eq_refl eq_refl).
Defined.
Lemma endsWith_append_slash (s : string) : endsWith (s ++ "/") "/" = true.
Proof.
  induction s as [|a r IH]; [reflexivity|].
  change (String.eqb (String a (r ++ "/")) "/" || endsWith (r ++ "/") "/"
          = true).
  rewrite IH. apply orb_true_r.
Qed.

(** Without a backslash [replace] changes nothing; otherwise it changes
    the first one. *)
Lemma replace_backslash_none (s : string) :
  occurs (ascii_of_nat 92) s = false -> replace backslash "/" s = s.
Proof.
  induction s as [|a r IH]; [reflexivity|].
  intros H. simpl in H. apply orb_false_elim in H as [Ha Hr].
  unfold backslash in *. cbn [replace strip_prefix].
  rewrite Ascii.eqb_sym, Ha. f_equal. exact (IH Hr).
Qed.

Lemma replace_backslash_first (a c : string) :
  occurs (ascii_of_nat 92) a = false ->
  replace backslash "/" (a ++ backslash ++ c) = a ++ "/" ++ c.
Proof.
  induction a as [|x a IH]; intros H.
  - change (replace backslash "/" (String (ascii_of_nat 92) c)
            = String "/" c).
    unfold backslash. cbn [replace strip_prefix].
    rewrite Ascii.eqb_refl. reflexivity.
  - simpl in H. apply orb_false_elim in H as [Hx Ha].
    change (replace backslash "/" (String x (a ++ backslash ++ c))
            = String x (a ++ "/" ++ c)).
    unfold backslash at 1. cbn [replace strip_prefix].
    rewrite Ascii.eqb_sym, Hx. f_equal. exact (IH Ha).
Qed.

(** The file of the data in a run without overrides and without a
    template: the base folder and the file of the section. *)
Lemma sanitizeData_file host rep st d st' f :
  _overrides (this st) = [] -> _postOverrides (this st) = [] ->
  _file (fields (this st)) = FString f ->
  _mustache (fields (this st)) = None ->
  _sanitizeData host rep st = Ok (d, st') ->
  file d = FString (_baseFolder (fields (this st)) ++ f).
Proof.
  intros Hpre Hpost Hfile Hm H.
  destruct (sanitizeData_plain host rep st d st' Hpre Hpost H)
    as (d0 & st0 & d1 & st1 & d2 & st2 & Hplace & (T0 & _) & (T1 & _)
        & (_ & _ & _ & Pfile & _) & Hreach & (_ & _ & Ffile & _) & _).
  destruct (place_inv host rep _ _ _ _ Hplace) as (F0 & _).
  destruct (initial_data_fields (fields (this st))) as (I0 & _).
  rewrite I0, Hfile in F0.
  specialize (Pfile f F0). rewrite T0 in Pfile. specialize (Pfile Hm).
  destruct (reach_state host _ _ _ _ Hreach) as (_ & Rfile & _ & _ & Rconf & _).
  apply configuration_fields in Rconf as (Rconf & _).
  assert (E : _baseFolder (fields (this st2)) = _baseFolder (fields (this st1)))
    by exact (f_equal _baseFolder Rconf).
  rewrite Ffile, E, Rfile, Pfile, T1, T0. reflexivity.
Qed.

(** X13. The folder that [baseFolder] stores always ends with a slash.
    An argument without a backslash is stored as it is, with a slash
    added unless it ends with one; of the backslashes of an argument only
    the first is turned into a slash.  In a run without overrides and
    without a template the file of the data is the stored folder followed
    by the file of the section. *)
Theorem baseFolder_ends_with_a_slash :
  forall (b : string) (s : EffectSection),
    let folder := _baseFolder (fields (Builder.baseFolder b s)) in
    endsWith folder "/" = true
    /\ (occurs (ascii_of_nat 92) b = false ->
        folder = if endsWith b "/" then b else b ++ "/")
    /\ (forall a c,
          occurs (ascii_of_nat 92) a = false -> b = a ++ backslash ++ c ->
          folder = if endsWith (a ++ "/" ++ c) "/" then a ++ "/" ++ c
                   else (a ++ "/" ++ c) ++ "/")
    /\ (forall host rep st f d st',
          this st = Builder.baseFolder b s ->
          _file (fields s) = FString f -> _mustache (fields s) = None ->
          _overrides s = [] -> _postOverrides s = [] ->
          _sanitizeData host rep st = Ok (d, st') ->
          file d = FString (folder ++ f)).
Proof.
  intros b s folder.
  assert (Hfolder : folder
                    = if negb (endsWith (replace backslash "/" b) "/")
                      then replace backslash "/" b ++ "/"
                      else replace backslash "/" b) by reflexivity.
  split; [|split; [|split]].
  - rewrite Hfolder.
    destruct (endsWith (replace backslash "/" b) "/") eqn:E;
      cbn [negb]; [exact E|apply endsWith_append_slash].
  - intros Hb. rewrite Hfolder, (replace_backslash_none _ Hb).
    destruct (endsWith b "/"); reflexivity.
  - intros a c Ha ->. rewrite Hfolder, (replace_backslash_first _ _ Ha).
    destruct (endsWith (a ++ "/" ++ c) "/"); reflexivity.
  - intros host rep st f d st' Hthis Hfile Hm Hpre Hpost H.
    rewrite (sanitizeData_file host rep st d st' f); rewrite ?Hthis; auto.
Qed.

(** The folder [modules\jb2a\fire], written with backslashes: the first
    becomes a slash, the second stays, and the file of the data starts
    with the folder. *)
Lemma baseFolder_ends_with_a_slash_witness :
  let host := example_host (fun _ => 0) in
  let b := "modules" ++ backslash ++ "jb2a" ++ backslash ++ "fire" in
  let s := Builder.baseFolder b
             (Builder.constructor host (FString "a.webm")) in
  _baseFolder (fields s) = "modules/jb2a" ++ backslash ++ "fire/"
  /\ exists d st',
       _sanitizeData host 0 (start s empty_sequence 0) = Ok (d, st')
       /\ file d = FString ("modules/jb2a" ++ backslash ++ "fire/a.webm").
Proof.
  intros host b s. split; [reflexivity|].
  assert (E : exists d st',
             _sanitizeData host 0 (start s empty_sequence 0) = Ok (d, st'))
    by (eexists _, _; vm_compute; reflexivity).
  destruct E as (d & st' & E). exists d, st'. split; [exact E|].
  destruct (baseFolder_ends_with_a_slash b
              (Builder.constructor host (FString "a.webm")))
    as (_ & _ & _ & Hfile).
  exact (Hfile host 0%nat (start s empty_sequence 0) "a.webm" d st'
           eq_refl eq_refl eq_refl eq_refl eq_refl E).
Defined.

(** ** The configured scale *)

(** X14. [scale(lo, hi)] with two numbers scales both axes by one and
    the same factor.  The method accepts the arguments; in the section it
    returns, the scaling step multiplies both axes of the scale by the
    value that one draw of [Math.random] selects between [lo] and [hi],
    and that value is in the interval when [lo <= hi] and the draw is in
    [0, 1).  A maximum of 0 counts as no maximum: the factor is [lo] and
    nothing is drawn, as for [scale(lo)]. *)
Theorem scale_draws_one_factor_for_both_axes :
  forall (host : Host) (lo : Q) (hi : option Q) (s : EffectSection)
         (data : Data) (st : State),
    this st = update (with_scale (ScaleNumber lo) hi) s ->
    let drawn := match hi with
                 | Some h => negb (Qeq_bool h 0)
                 | None => false
                 end in
    let v := if drawn
             then uniform lo (default 0 hi) (Math_random host (draws st))
             else lo in
    Builder.scale (Some (ScaleNumber lo)) hi s = inr (this st)
    /\ apply_scale host data st
       = Ok (set_scale (Vec (nmul (X (scale data)) (Fin v))
                            (nmul (Y (scale data)) (Fin v))) data,
             tick (if drawn then 1 else 0) st)
    /\ (forall h, hi = Some h -> lo <= h ->
          0 <= Math_random host (draws st) < 1 -> lo <= v /\ v <= h).
Proof.
  intros host lo hi s data st Hthis drawn v.
  split; [rewrite Hthis; reflexivity|].
  split.
  - rewrite apply_scale_eq. cbv zeta.
    unfold scale_factor, scale_draws. rewrite Hthis.
    cbn [update set_fields fields with_scale _scaleMin _scaleMax].
    subst v drawn. destruct hi as [h|]; [|reflexivity].
    cbn [default]. destruct (Qeq_bool h 0); reflexivity.
  - intros h -> Hle [H0 H1]. subst v drawn. cbn [default].
    destruct (Qeq_bool h 0) eqn:E; cbn [negb].
    + split; [lra|exact Hle].
    + apply uniform_range; assumption.
Qed.

(** A scale between 1 and 3 on a page whose draws are all one quarter:
    both axes are multiplied by 1.5. *)
Lemma scale_draws_one_factor_for_both_axes_witness :
  let host := example_host (fun _ => 1 # 4) in
  let s := update (with_scale (ScaleNumber 1) (Some 3))
             (Builder.constructor host (FString "a.webm")) in
  let st := start s empty_sequence 0 in
  exists d st',
    apply_scale host (initial_data (fields s)) st = Ok (d, st')
    /\ vec_eq (scale d) (Vec (Fin 1.5) (Fin 1.5))
    /\ draws st' = 1%nat.
Proof.
  intros host s st.
  destruct (scale_draws_one_factor_for_both_axes host 1 (Some 3)
              (Builder.constructor host (FString "a.webm"))
              (initial_data (fields s)) st eq_refl) as (_ & Hrun & _).
  eexists _, _. split; [exact Hrun|].
  split; [split; vm_compute; reflexivity|reflexivity].
Defined.

(** X15. What [scale] rejects and what it takes per axis.  Without a
    first argument the method throws; with a first argument that is not a
    number and a number other than 0 as the second it throws; with an
    object and no second argument, or 0, it accepts, and the scaling step
    then multiplies each axis by the number that the object holds for it,
    or by 1 where it holds none, without a draw. *)
Theorem scale_per_axis_and_rejections :
  forall (host : Host) (s : EffectSection) (sx sy : option Q),
    (forall hi, exists message, Builder.scale None hi s = inl message)
    /\ (forall lo h, Builder.is_number lo = false -> ~ h == 0 ->
          exists message, Builder.scale (Some lo) (Some h) s = inl message)
    /\ (forall hi data st,
          hi = None \/ hi = Some 0 ->
          this st = update (with_scale (ScaleObject sx sy) hi) s ->
          Builder.scale (Some (ScaleObject sx sy)) hi s = inr (this st)
          /\ apply_scale host data st
             = Ok (set_scale
                     (Vec (nmul (X (scale data)) (Fin (default 1 sx)))
                          (nmul (Y (scale data)) (Fin (default 1 sy))))
                     data, st)).
Proof.
  intros host s sx sy. split; [|split].
  - intros hi. eexists. reflexivity.
  - intros lo h Hlo Hh. eexists. cbn. rewrite Hlo, (Qeq_bool_false _ Hh).
    reflexivity.
  - intros hi data st Hhi Hthis. split.
    + rewrite Hthis. destruct Hhi as [-> | ->]; reflexivity.
    + rewrite apply_scale_eq. cbv zeta. unfold scale_factor, scale_draws.
      rewrite Hthis.
      cbn [update set_fields fields with_scale _scaleMin _scaleMax fst snd].
      rewrite tick_0. reflexivity.
Qed.

(** [scale({x: 2})]: the x of the scale is doubled and the y is kept. *)
Lemma scale_per_axis_and_rejections_witness :
  let host := example_host (fun _ => 0) in
  let s := update (with_scale (ScaleObject (Some 2) None) None)
             (Builder.constructor host (FString "a.webm")) in
  let st := start s empty_sequence 0 in
  exists d,
    apply_scale host (initial_data (fields s)) st = Ok (d, st)
    /\ vec_eq (scale d) (Vec (Fin 2) (Fin 1)).
Proof.
  intros host s st.
  destruct (scale_per_axis_and_rejections host
              (Builder.constructor host (FString "a.webm")) (Some 2) None)
    as (_ & _ & H).
  destruct (H None (initial_data (fields s)) st (or_introl eq_refl) eq_refl)
    as [_ Hrun].
  eexists. split; [exact Hrun|]. split; vm_compute; reflexivity.
Defined.
(** X16. The scale of an effect that does not reach is the product of
    three factors on each axis: the grid ratio
    [canvas.grid.size / _gridSize], the configured scale of that axis (1
    where none is set) and the sign of the mirroring (1 where the flag is
    off).  For a run without overrides of a section in rotation-only mode
    the draws are made in this order from some draw [k] on: the configured
    scale, when it is random, then the mirroring of x, then that of y; and
    the run ends with the draw after those. *)
Theorem scale_of_a_rotation_only_run :
  forall (host : Host) (rep : nat) (st : State) (d : Data) (st' : State),
    let s := fields (this st) in
    _overrides (this st) = [] -> _postOverrides (this st) = [] ->
    _rotationOnly s = true ->
    _sanitizeData host rep st = Ok (d, st') ->
    exists k : nat,
      (draws st <= k)%nat
      /\ let f := scale_factor s (Math_random host k) in
         let kx := (scale_draws s + k)%nat in
         let ky := ((if _randomX s then 1 else 0) + kx)%nat in
         scale d
         = Vec (nmul (nmul (nmul (Fin 1) (grid_ratio host s))
                           (Fin (default 1 (fst f))))
                     (Fin (if _randomX s then flip (Math_random host kx)
                           else 1)))
               (nmul (nmul (nmul (Fin 1) (grid_ratio host s))
                           (Fin (default 1 (snd f))))
                     (Fin (if _randomY s then flip (Math_random host ky)
                           else 1)))
         /\ draws st' = ((if _randomY s then 1 else 0) + ky)%nat.
Proof.
  intros host rep st d st' s Hpre Hpost Hro H.
  destruct (sanitizeData_phases host _ _ _ _ H)
    as (d0 & st0 & d1 & st1 & d2 & st2 & st3 & Hplace & P1 & Hprep & Hreach
        & -> & Hfin & Hrec).
  specialize (Hprep Hpre). specialize (Hfin Hpost).
  pose proof (draws_place host rep _ _ _ _ Hplace) as P0.
  pose proof (only_draws_trans _ _ _ P0 P1) as (T1 & _ & _ & D1).
  pose proof P0 as (T0 & _).
  rewrite reach_skipped in Hreach by (left; rewrite T1; exact Hro).
  inversion Hreach; subst d2 st2. clear Hreach.
  destruct Hprep as (_ & _ & Pscale & _).
  destruct Hfin as (_ & _ & _ & Fscale).
  destruct (place_inv host rep _ _ _ _ Hplace) as (_ & S0 & _).
  destruct (initial_data_fields s) as (_ & _ & I0 & _).
  fold s in S0. rewrite I0 in S0. rewrite S0, T0 in Pscale. fold s in Pscale.
  exists (draws st1). split; [exact D1|]. cbv zeta.
  split.
  - rewrite Fscale, Pscale. unfold mirror_x, mirror_y.
    cbn [tick this draws X Y]. rewrite T1. reflexivity.
  - unfold record_position, _insertCachedPosition in Hrec. run_unfold.
    destruct (_getName _ d); [|discriminate].
    inversion Hrec; subst st'. unfold after_scaling.
    cbn [set_sequence tick this draws]. rewrite T1. fold s. lia.
Qed.

(** An effect rotated towards a point, made for a grid of 200 on a scene
    grid of 100, scaled by 2 and mirrored at random along x, on a page
    whose draws are all one quarter: the scale is -1 by 1. *)
Lemma scale_of_a_rotation_only_run_witness :
  let host := example_host (fun _ => 1 # 4) in
  let s := Builder.randomizeMirrorX true
             (update (with_scale (ScaleNumber 2) None)
                (Builder.gridSize 200
                   (Builder.rotateTowards (LObject (Vec 100 0))
                      (Builder.atLocation (LObject (Vec 0 0))
                         (Builder.constructor host (FString "a.webm")))))) in
  exists d st',
    _sanitizeData host 0 (start s empty_sequence 0) = Ok (d, st')
    /\ vec_eq (scale d) (Vec (Fin (-1)) (Fin 1)).
Proof.
  intros host s.
  assert (E : exists d st',
             _sanitizeData host 0 (start s empty_sequence 0) = Ok (d, st'))
    by (eexists _, _; vm_compute; reflexivity).
  destruct E as (d & st' & E).
  destruct (scale_of_a_rotation_only_run host 0 (start s empty_sequence 0)
              d st' eq_refl eq_refl eq_refl E) as (k & _ & Hscale & _).
  exists d, st'. split; [exact E|]. rewrite Hscale.
  split; vm_compute; reflexivity.
Defined.

(** ** Why a run fails *)

Lemma bind_throw {A B} (m : M A) (k : A -> M B) st e :
  m st = Throw e -> (m ≫= k) st = Throw e.
Proof. intros H. run_unfold. rewrite H. reflexivity. Qed.

Lemma name_recorded_or_not rep l st :
  name_recorded rep l st
  \/ exists n, l = LName n /\ cachedPositions (sequence st) !! (n, rep) = None.
Proof.
  destruct l as [|n|p|t|t shape b]; simpl; auto.
  destruct (cachedPositions (sequence st) !! (n, rep)) eqn:E; eauto.
Qed.

(** A name of the section that has no position for the repetition. *)
Definition unresolved (rep : nat) (st : State) : Prop :=
  let s := fields (this st) in
  truthy (_from s) = true
  /\ exists n, (_from s = LName n \/ _to s = LName n)
               /\ cachedPositions (sequence st) !! (n, rep) = None.

Section Failing.

Context (host : Host).

Lemma place_throws rep data st e :
  place host rep data st = Throw e ->
  e = UnresolvedNameError /\ unresolved rep st.
Proof.
  intros H. unfold place in H. run_unfold. unfold unresolved. cbv zeta.
  set (s := fields (this st)) in *.
  destruct (truthy (_from s)) eqn:Hfrom; [|discriminate].
  destruct (name_recorded_or_not rep (_from s) st) as [Rf | (n & En & Hn)].
  - destruct (name_recorded_or_not rep (_to s) st) as [Rt | (n & En & Hn)].
    + destruct (calculatePositions_succeeds host rep _ _ (_missed s) st Rf Rt)
        as (o & t & st1 & E).
      rewrite E in H. destruct (truthy (_to s)); discriminate.
    + rewrite (calculatePositions_unrecorded host rep _ _ _ st n) in H
        by auto.
      inversion H. eauto 10.
  - rewrite (calculatePositions_unrecorded host rep _ _ _ st n) in H by auto.
    inversion H. eauto 10.
Qed.

Lemma getFileDimensions_throws inFile st e :
  _getFileDimensions host inFile st = Throw e ->
  let p := _baseFolder (fields (this st)) ++ file_to_string inFile in
  fileCache (sequence st) !! p = None /\ lib_getDimensions host p = Throw e.
Proof.
  intros H p.
  destruct (if _JB2A (fields (this st)) then dimensions_in_name p else None)
    as [d0|] eqn:E.
  - assert (HJ : _JB2A (fields (this st)) = true)
      by (destruct (_JB2A (fields (this st))); [reflexivity|discriminate]).
    rewrite HJ in E.
    rewrite (getFileDimensions_from_name host inFile st d0 HJ E) in H.
    discriminate.
  - rewrite (getFileDimensions_fall_through host inFile st E) in H.
    cbv zeta in H. fold p in H.
    destruct (fileCache (sequence st) !! p); [discriminate|].
    destruct (lib_getDimensions host p); [discriminate|].
    inversion H. auto.
Qed.

Lemma reach_throws data st e :
  reach host data st = Throw e ->
  _rotationOnly (fields (this st)) = false
  /\ exists p, fileCache (sequence st) !! p = None
               /\ lib_getDimensions host p = Throw e.
Proof.
  intros H. unfold reach in H. run_unfold.
  destruct (_rotationOnly (fields (this st))); [discriminate|].
  split; [reflexivity|].
  unfold _calculateHitVector in H.
  destruct (Qeq_bool (_distance data) 0); [discriminate|].
  destruct (_getFileDimensions host (file data) st) as [[dims st1]|e1] eqn:E.
  - rewrite (bind_eq _ _ _ _ _ E) in H.
    rewrite (bind_eq _ _ st1 (fields (this st1)) st1 eq_refl) in H.
    match type of H with
    | write_anchor_x ?v ?d ?s = _ =>
        destruct (write_anchor_x_returns v d s) as (d' & st' & Hw)
    end.
    rewrite Hw in H. discriminate.
  - rewrite (bind_throw _ _ _ _ E) in H. inversion H; subst e1.
    apply getFileDimensions_throws in E. eauto.
Qed.

Lemma apply_mustache_eq data st :
  apply_mustache host data st
  = match _mustache (fields (this st)) with
    | Some m =>
        match Handlebars_compile host (file data) m with
        | Ok r => Ok (set_file (FString r) data, st)
        | Throw e => Throw e
        end
    | None => Ok (data, st)
    end.
Proof.
  unfold apply_mustache. run_unfold.
  destruct (_mustache (fields (this st))) as [m|]; [|reflexivity].
  destruct (Handlebars_compile host (file data) m); reflexivity.
Qed.

(** The outcome of a run without overrides: it returns, or it throws for
    one of three reasons. *)
Lemma sanitizeData_outcome rep st :
  _overrides (this st) = [] -> _postOverrides (this st) = [] ->
  match _sanitizeData host rep st with
  | Ok _ => True
  | Throw e =>
      e = UnresolvedNameError /\ unresolved rep st
      \/ (exists m f,
            _mustache (fields (this st)) = Some m
            /\ Handlebars_compile host f m = Throw e)
      \/ _rotationOnly (fields (this st)) = false
         /\ exists p, fileCache (sequence st) !! p = None
                      /\ lib_getDimensions host p = Throw e
  end.
Proof.
  intros Hpre Hpost. unfold _sanitizeData.
  rewrite (bind_eq _ _ st (fields (this st)) st eq_refl).
  destruct (place host rep (initial_data (fields (this st))) st)
    as [[d0 st0]|e] eqn:Hplace.
  2: { rewrite (bind_throw _ _ _ _ Hplace). left.
       exact (place_throws _ _ _ _ Hplace). }
  rewrite (bind_eq _ _ _ _ _ Hplace).
  destruct (draws_place host rep _ _ _ _ Hplace) as (T0 & S0 & _).
  destruct (random_rotation host d0 st0) as [[d1 st1]|e] eqn:Hrot.
  2: { rewrite random_rotation_eq in Hrot.
       destruct (_randomRotation _); discriminate. }
  rewrite (bind_eq _ _ _ _ _ Hrot).
  destruct (draws_random_rotation host _ _ _ _ Hrot) as (T1 & S1 & _).
  rewrite (bind_eq _ _ st1 (_overrides (this st1)) st1 eq_refl).
  rewrite T1, T0, Hpre.
  rewrite (bind_eq _ _ _ _ _ (run_overrides_nil _ _)).
  destruct (pick_file_succeeds host d1 st1)
    as (d2 & st2 & Hpick & (T2 & S2 & _) & _).
  rewrite (bind_eq _ _ _ _ _ Hpick).
  assert (Tst2 : this st2 = this st) by congruence.
  assert (Sst2 : sequence st2 = sequence st) by congruence.
  destruct (apply_mustache host d2 st2) as [[d3 st3]|e] eqn:Hm.
  2: { rewrite (bind_throw _ _ _ _ Hm). right. left.
       rewrite apply_mustache_eq, Tst2 in Hm.
       destruct (_mustache (fields (this st))) as [m|]; [|discriminate].
       exists m, (file d2). split; [reflexivity|].
       destruct (Handlebars_compile host (file d2) m); [discriminate|].
       congruence. }
  rewrite (bind_eq _ _ _ _ _ Hm).
  destruct (apply_mustache_inv host _ _ _ _ Hm) as (-> & _).
  rewrite (bind_eq _ _ _ _ _ (normalize_grid_eq host d3 st2)).
  match goal with
  | |- context [reach host ?d] =>
      destruct (reach host d st2) as [[d4 st4]|e] eqn:Hreach
  end.
  2: { rewrite (bind_throw _ _ _ _ Hreach). right. right.
       apply reach_throws in Hreach. rewrite Tst2, Sst2 in Hreach.
       exact Hreach. }
  rewrite (bind_eq _ _ _ _ _ Hreach).
  destruct (reach_state host _ _ _ _ Hreach) as (_ & _ & _ & _ & Rconf & _).
  rewrite (bind_eq _ _ _ _ _ (apply_scale_eq host _ st4)). cbv zeta.
  rewrite (bind_eq _ _ _ _ _ (mirror_eq host _ _)). cbv zeta.
  rewrite (bind_eq _ _ _ _ _ (prepend_base_folder_eq _ _)).
  match goal with
  | |- context [mbind _ (fun st => Ok (_postOverrides (this st), st)) ?s] =>
      rewrite (bind_eq _ _ s (_postOverrides (this s)) s eq_refl)
  end.
  cbn [this tick].
  apply configuration_fields in Rconf as (_ & _ & ->).
  rewrite Tst2, Hpost.
  rewrite (bind_eq _ _ _ _ _ (run_overrides_nil _ _)).
  match goal with
  | |- match record_position rep ?d ?s with _ => _ end =>
      destruct (getName_of_string (fields (this s)) d _ eq_refl) as [n Hn];
      rewrite (record_position_eq rep d s n Hn)
  end.
  exact I.
Qed.

End Failing.

(** X17. Why a run without overrides fails.  Such a run returns, or it
    throws for one of three reasons: the section has an origin, and its
    origin or its target is a name without a position for the repetition
    (the error is UnresolvedNameError); or the template of [setMustache]
    threw the error; or the section reaches and the probe threw the error
    for a path that the cache of dimensions does not hold.  So with the
    names recorded, a template that renders and, for a section that
    reaches, a probe that answers for every path the cache does not hold,
    the run returns. *)
Theorem sanitizeData_fails_for_three_reasons :
  forall (host : Host) (rep : nat) (st : State),
    let s := fields (this st) in
    _overrides (this st) = [] -> _postOverrides (this st) = [] ->
    match _sanitizeData host rep st with
    | Ok _ => True
    | Throw e =>
        e = UnresolvedNameError /\ unresolved rep st
        \/ (exists m f,
              _mustache s = Some m /\ Handlebars_compile host f m = Throw e)
        \/ _rotationOnly s = false
           /\ exists p, fileCache (sequence st) !! p = None
                        /\ lib_getDimensions host p = Throw e
    end
    /\ ((truthy (_from s) = true ->
         name_recorded rep (_from s) st /\ name_recorded rep (_to s) st) ->
        template_renders host s ->
        (_rotationOnly s = false ->
         forall p, fileCache (sequence st) !! p = None ->
           exists c, lib_getDimensions host p = Ok c) ->
        exists d st', _sanitizeData host rep st = Ok (d, st')).
Proof.
  intros host rep st s Hpre Hpost.
  pose proof (sanitizeData_outcome host rep st Hpre Hpost) as H.
  split; [exact H|].
  intros Hnames Hrender Hprobe.
  destruct (_sanitizeData host rep st) as [[d st']|e]; [eauto|].
  exfalso. destruct H as [(_ & Hfrom & n & Hn & Hnone) | [Hm | Hp]].
  - destruct (Hnames Hfrom) as [Rf Rt].
    destruct Hn as [En | En]; fold s in En.
    + rewrite En in Rf. simpl in Rf. rewrite Hnone in Rf.
      destruct Rf; discriminate.
    + rewrite En in Rt. simpl in Rt. rewrite Hnone in Rt.
      destruct Rt; discriminate.
  - destruct Hm as (m & f & Em & Hf).
    destruct (Hrender m Em f) as [r Hr]. congruence.
  - destruct Hp as (Hro & p & Hnone & Hf).
    destruct (Hprobe Hro p Hnone) as [c Hc]. congruence.
Qed.

(** The reaching effect of the examples on a page whose probe fails for
    [beam.webm], on a sequence without dimensions: the run throws the
    error of the probe; with the dimensions in the cache it returns. *)
Lemma sanitizeData_fails_for_three_reasons_witness :
  let host := other_probe_host (fun _ => 0) in
  _sanitizeData host 0 (start (reach_example host) empty_sequence 0)
  = Throw AssetMeasurementError
  /\ exists d st',
       _sanitizeData host 0 (start (reach_example host) beam_sequence 0)
       = Ok (d, st').
Proof.
  intros host. split; [vm_compute; reflexivity|].
  destruct (sanitizeData_fails_for_three_reasons host 0
              (start (reach_example host) beam_sequence 0)
              eq_refl eq_refl) as [_ Hreturns].
  apply Hreturns.
  - intros _. split; exact I.
  - intros m Hm. discriminate Hm.
  - intros _ p Hnone. simpl.
    destruct (String.eqb_spec p "beam.webm") as [-> | _]; [|eauto].
    vm_compute in Hnone. discriminate Hnone.
Defined.

(** ** The template *)

(** X18. The template of [setMustache] renders the file as it was given
    to [file], and the base folder is put in front of what it renders.  A
    run without overrides that returns, for a section whose file is a
    string [f] and on which [setMustache m] was called last, has rendered
    [f] with [m] to some [r], and the file of its data is the base folder
    followed by [r]. *)
Theorem mustache_renders_the_file_before_the_folder :
  forall (host : Host) (rep : nat) (st : State) (s : EffectSection)
         (m : gmap string string) (f : string) (d : Data) (st' : State),
    this st = Builder.setMustache (Some m) s ->
    _file (fields s) = FString f ->
    _overrides s = [] -> _postOverrides s = [] ->
    _sanitizeData host rep st = Ok (d, st') ->
    exists r,
      Handlebars_compile host (FString f) m = Ok r
      /\ file d = FString (_baseFolder (fields s) ++ r).
Proof.
  intros host rep st s m f d st' Hthis Hfile Hpre Hpost H.
  destruct (sanitizeData_plain host rep st d st') as
    (d0 & st0 & d1 & st1 & d2 & st2 & Hplace & (T0 & _) & (T1 & _)
     & (_ & _ & _ & _ & Prender) & Hreach & (_ & _ & Ffile & _) & _);
    [rewrite Hthis; exact Hpre | rewrite Hthis; exact Hpost | exact H |].
  destruct (place_inv host rep _ _ _ _ Hplace) as (F0 & _).
  destruct (initial_data_fields (fields (this st))) as (I0 & _).
  rewrite I0, Hthis in F0.
  cbn [Builder.setMustache update set_fields fields with_mustache _file]
    in F0.
  rewrite Hfile in F0.
  destruct (Prender f m F0) as (r & Hr & Hd1).
  { rewrite T0, Hthis. reflexivity. }
  exists r. split; [exact Hr|].
  destruct (reach_state host _ _ _ _ Hreach) as (_ & Rfile & _ & _ & Rconf & _).
  apply configuration_fields in Rconf as (Rconf & _).
  assert (E : _baseFolder (fields (this st2)) = _baseFolder (fields (this st1)))
    by exact (f_equal _baseFolder Rconf).
  rewrite Ffile, E, Rfile, Hd1, T1, T0, Hthis. reflexivity.
Qed.

(** A page whose template renders the value of [name] followed by
    [.webm], whatever the file. *)
Definition naming_host : Host :=
  {| canvas_grid_size := 100;
     Ray_distance := axis_distance;
     Ray_angle := fun _ _ => 0;
     Math_random := fun _ => 0;
     Handlebars_compile :=
       fun _ m => Ok (default "" (m !! "name") ++ ".webm");
     lib_getDimensions := fun _ => Ok (Vec (Fin 400) (Fin 200)) |}.

(** The file [{{name}}.webm] in the folder [effects], with [fire] for
    [name]: the data has the file [effects/fire.webm]. *)
Lemma mustache_renders_the_file_before_the_folder_witness :
  let host := naming_host in
  let s0 := Builder.baseFolder "effects"
              (Builder.constructor host (FString "{{name}}.webm")) in
  let s := Builder.setMustache (Some {[ "name" := "fire" ]}) s0 in
  exists d st',
    _sanitizeData host 0 (start s empty_sequence 0) = Ok (d, st')
    /\ file d = FString "effects/fire.webm".
Proof.
  intros host s0 s.
  assert (E : exists d st',
             _sanitizeData host 0 (start s empty_sequence 0) = Ok (d, st'))
    by (eexists _, _; vm_compute; reflexivity).
  destruct E as (d & st' & E).
  destruct (mustache_renders_the_file_before_the_folder host 0
              (start s empty_sequence 0) s0 {[ "name" := "fire" ]}
              "{{name}}.webm" d st' eq_refl eq_refl eq_refl eq_refl E)
    as (r & Hr & Hfile).
  assert (r = "fire.webm") as ->
    by (vm_compute in Hr; inversion Hr; reflexivity).
  exists d, st'. split; [exact E|exact Hfile].
Defined.

(** ** Where [atLocation] puts the effect *)

(** X19. [_validateLocation] turns every argument into a reference that
    counts as set, except the empty string: a value that is no token, no
    template and no string becomes the point of its [x] and [y], with 0
    for a coordinate it does not have (so [undefined] becomes (0,0)); a
    value with the [_id] of a token of the canvas becomes that token.  An
    effect placed with [atLocation] on such a point or token, without a
    target, a miss or overrides, is played at that point, or at the centre
    of that token (at its x and y where it has no centre). *)
Theorem atLocation_places_the_effect :
  forall (canvas_tokens_get : string -> option Placeable)
         (inLocation : Builder.LocationArg),
    let l := Builder._validateLocation canvas_tokens_get inLocation in
    (truthy l = false <-> l = LName "")
    /\ (forall x y,
          Builder.arg_kind inLocation = Builder.KOther x y ->
          (forall id, Builder.arg_id inLocation = Some id ->
             id = "" \/ canvas_tokens_get id = None) ->
          l = LObject (Vec (default 0 x) (default 0 y)))
    /\ (forall id t,
          Builder.arg_id inLocation = Some id -> id <> "" ->
          canvas_tokens_get id = Some t -> l = LToken t)
    /\ (forall host rep st s d st',
          (forall n, l <> LName n) ->
          this st = Builder.atLocation l s ->
          _to (fields s) = LFalse -> _missed (fields s) = false ->
          _overrides s = [] -> _postOverrides s = [] ->
          _sanitizeData host rep st = Ok (d, st') ->
          position d = Vec (location_x l) (location_y l)
          /\ (forall p, l = LObject p -> position d = p)
          /\ (forall t c,
                l = LToken t \/ (exists shape b, l = LTemplate t shape b) ->
                center t = Some c -> position d = c)
          /\ (forall t,
                l = LToken t \/ (exists shape b, l = LTemplate t shape b) ->
                center t = None ->
                position d
                = Vec (default 0 (placeable_x t))
                      (default 0 (placeable_y t)))).
Proof.
  intros g a l.
  assert (Htruthy : truthy l = false <-> l = LName "").
  { split.
    + destruct l as [|n|p|t|t shape b] eqn:E; simpl; try discriminate.
      * exfalso. subst l. unfold Builder._validateLocation in E.
        destruct (match Builder.arg_id a with
                  | Some id =>
                      if negb (String.eqb id "")
                      then match g id with
                           | Some t => Builder.KToken t
                           | None => Builder.arg_kind a
                           end
                      else Builder.arg_kind a
                  | None => Builder.arg_kind a
                  end); discriminate.
      * destruct (String.eqb_spec n ""); [congruence|discriminate].
    + intros ->. reflexivity. }
  split; [exact Htruthy|]. split; [|split].
  - intros x y Hk Hid. subst l. unfold Builder._validateLocation.
    destruct (Builder.arg_id a) as [id|]; [|rewrite Hk; reflexivity].
    destruct (Hid id eq_refl) as [-> | Hnone].
    + cbn. rewrite Hk. reflexivity.
    + rewrite Hnone. destruct (negb (String.eqb id "")); rewrite Hk;
        reflexivity.
  - intros id t Hid Hne Hg. subst l. unfold Builder._validateLocation.
    rewrite Hid, Hg. destruct (String.eqb_spec id ""); [contradiction|].
    reflexivity.
  - intros host rep st s d st' Hname Hthis Hto Hmiss Hpre Hpost H.
    assert (Hpos : position d = Vec (location_x l) (location_y l));
      [|rewrite Hpos; split; [reflexivity|apply position_of_reference]].
    destruct (sanitizeData_plain host rep st d st') as
      (d0 & st0 & d1 & st1 & d2 & st2 & Hplace & _ & _ & _ & _ & _ & Hcore
       & _);
      [rewrite Hthis; exact Hpre | rewrite Hthis; exact Hpost | exact H |].
    apply core_fields in Hcore as (-> & _). cbn [set_rotation position].
    destruct (place_inv host rep _ _ _ _ Hplace)
      as (_ & _ & _ & _ & _ & _ & _ & Hp).
    cbv zeta in Hp. rewrite Hthis in Hp.
    cbn [Builder.atLocation update set_fields fields with_from _from _to
         _missed] in Hp.
    rewrite Hto, Hmiss in Hp.
    assert (Hl : resolved rep l st = l)
      by (destruct l; try reflexivity; exfalso; eapply Hname; reflexivity).
    destruct (truthy l) eqn:Ht.
    + destruct Hp as (o & t & Hcalc & -> & _).
      destruct (calculatePositions_inv host rep _ _ _ _ _ _ _ Hcalc)
        as (_ & _ & Hcase).
      cbv zeta in Hcase. cbn [resolved truthy] in Hcase. rewrite Hl in Hcase.
      destruct Hcase as (_ & Hm).
      rewrite calculateMissedPosition_hit in Hm. inversion Hm. reflexivity.
    + exfalso. exact (Hname _ (proj1 Htruthy eq_refl)).
Qed.

(** [atLocation({x: 300})], an object without [y]: the effect is played
    at (300,0).  [atLocation] of a value with the id of the token of the
    canvas: the effect is played at the centre of the token. *)
Lemma atLocation_places_the_effect_witness :
  let host := example_host (fun _ => 0) in
  (let arg := {| Builder.arg_id := None;
                 Builder.arg_kind := Builder.KOther (Some 300) None |} in
   let s := Builder.atLocation
              (Builder._validateLocation (fun _ => None) arg)
              (Builder.constructor host (FString "a.webm")) in
   exists d st',
     _sanitizeData host 0 (start s empty_sequence 0) = Ok (d, st')
     /\ position d = Vec 300 0)
  /\ (let tokens := fun id : string =>
                      if String.eqb id "tok"
                      then Some {| center := Some (Vec 500 500);
                                   placeable_x := Some 450;
                                   placeable_y := Some 450;
                                   data_width := Some 1;
                                   data_height := Some 1 |}
                      else None in
      let arg := {| Builder.arg_id := Some "tok";
                    Builder.arg_kind := Builder.KOther None None |} in
      let s := Builder.atLocation (Builder._validateLocation tokens arg)
                 (Builder.constructor host (FString "a.webm")) in
      exists d st',
        _sanitizeData host 0 (start s empty_sequence 0) = Ok (d, st')
        /\ position d = Vec 500 500).
Proof.
  intros host. split.
  - intros arg s.
    assert (E : exists d st',
               _sanitizeData host 0 (start s empty_sequence 0) = Ok (d, st'))
      by (eexists _, _; vm_compute; reflexivity).
    destruct E as (d & st' & E).
    destruct (atLocation_places_the_effect (fun _ => None) arg)
      as (_ & _ & _ & Hrun).
    exists d, st'. split; [exact E|].
    apply (Hrun host 0%nat (start s empty_sequence 0)
             (Builder.constructor host (FString "a.webm")) d st');
      try reflexivity; [discriminate|exact E].
  - intros tokens arg s.
    assert (E : exists d st',
               _sanitizeData host 0 (start s empty_sequence 0) = Ok (d, st'))
      by (eexists _, _; vm_compute; reflexivity).
    destruct E as (d & st' & E).
    destruct (atLocation_places_the_effect tokens arg)
      as (_ & _ & _ & Hrun).
    exists d, st'. split; [exact E|].
    destruct (Hrun host 0%nat (start s empty_sequence 0)
                (Builder.constructor host (FString "a.webm")) d st')
      as (_ & _ & Hcentre & _);
      try reflexivity; [discriminate|exact E|].
    apply (Hcentre _ _ (or_introl eq_refl) eq_refl).
Defined.
